(** * blog-summarizer: selection and summarization pipeline

    A shallow embedding of [src/feeds/selector.py] (scoring, ranking and
    diversity-constrained selection), of [src/summarizer/gemini_client.py]
    (retry and fallback loop, response parsing and field repair), of the
    time filter of [src/feeds/manager.py], of the post loop of
    [src/images/html_renderer.py] and of the export and the workflow of
    [src/main.py], followed by the properties of these functions.

    Conventions of the embedding.
    - Python [int] is [Z]; Python [float] is the kernel's binary64 [float];
      [datetime] (naive, as the feed manager produces it) is a number of
      microseconds, [timedelta] likewise.
    - Python [str] is [string]; a character is a code point below 256.  On
      that range the emoji class of [_clean_text] matches nothing, the
      whitespace class is 9-13, 28-32, 133 and 160, and case-insensitive
      matching of an ASCII letter accepts exactly its two ASCII cases.
    - Values decoded from JSON are dynamically typed ([json]); an operation
      that raises in Python returns [None] here, and [try ... except
      Exception: return None] is the option monad.
    - Effects are explicit: [datetime.utcnow()] is an argument ([now],
      [clock]); the backend is an oracle indexed by iteration and model;
      requests and [time.sleep] are recorded as a list of events.
    - The two searches of [_parse_batch_response] for the array in the
      text of a response are functions ([extract_array_text]); [json.loads]
      is a parameter ([loads]).  The functions that take [decoded] start
      from what the searches and [json.loads] made of the text.
    - Rendering is an oracle ([render_post]): the files it writes, or its
      failure; so is the reading of the clock when a document is written.
    - Logging has no effect on any result and is left out. *)

From Stdlib Require Uint63.
From Stdlib Require Import ZArith Ascii String PrimFloat FloatOps FloatAxioms Lia.
From stdpp Require Import base option list gmap strings.

Set Warnings "-inexact-float,-register-all".
Local Open Scope Z_scope.

(** ** Python built-ins on strings *)

Module Py.

Definition len (s : string) : Z := Z.of_nat (String.length s).

Definition code (c : ascii) : N := N_of_ascii c.

(** [str.isspace] for one character, also the regex class [\s]. *)
Definition is_space (c : ascii) : bool :=
  let n := code c in
  ((9 <=? n) && (n <=? 13) || (28 <=? n) && (n <=? 32)
   || (n =? 133) || (n =? 160))%N.

(** [s[:n]] for [n >= 0]. *)
Fixpoint take (n : nat) (s : string) : string :=
  match n, s with
  | S n', String c s' => String c (take n' s')
  | _, _ => EmptyString
  end.

Definition slice_to (n : Z) (s : string) : string := take (Z.to_nat n) s.

(** [s[i]] as an option. *)
Fixpoint get (i : nat) (s : string) : option ascii :=
  match s, i with
  | EmptyString, _ => None
  | String c _, O => Some c
  | String _ s', S i' => get i' s'
  end.

(** [s.rfind(c)] for a one-character needle: the highest index holding
    [c], or -1.  [rfind_from] scans left to right from index [i],
    remembering the last hit in [acc]. *)
Fixpoint rfind_from (c : ascii) (s : string) (i acc : Z) : Z :=
  match s with
  | EmptyString => acc
  | String a s' =>
      rfind_from c s' (i + 1) (if Ascii.eqb a c then i else acc)
  end.

Definition rfind (c : ascii) (s : string) : Z := rfind_from c s 0 (-1).

Definition chars (s : string) : list ascii := list_ascii_of_string s.
Definition of_chars (l : list ascii) : string := string_of_list_ascii l.

Fixpoint drop_while {A} (p : A -> bool) (l : list A) : list A :=
  match l with
  | [] => []
  | x :: r => if p x then drop_while p r else l
  end.

Definition strip_where (p : ascii -> bool) (s : string) : string :=
  of_chars (rev (drop_while p (rev (drop_while p (chars s))))).

(** [s.strip()] *)
Definition strip (s : string) : string := strip_where is_space s.

(** [s.strip(c)] for a one-character set. *)
Definition strip_char (c : ascii) (s : string) : string :=
  strip_where (Ascii.eqb c) s.

(** [s.replace(c, "")] for a one-character needle. *)
Definition remove_char (c : ascii) (s : string) : string :=
  of_chars (List.filter (fun a => negb (Ascii.eqb a c)) (chars s)).

(** [s.split(c)] for a one-character separator: never empty. *)
Fixpoint split_chars (c : ascii) (cur : list ascii) (l : list ascii)
  : list string :=
  match l with
  | [] => [of_chars (rev cur)]
  | a :: r =>
      if Ascii.eqb a c then of_chars (rev cur) :: split_chars c [] r
      else split_chars c (a :: cur) r
  end.

Definition split (c : ascii) (s : string) : list string :=
  split_chars c [] (chars s).

(** [sep.join(parts)] *)
Fixpoint join (sep : string) (parts : list string) : string :=
  match parts with
  | [] => EmptyString
  | [p] => p
  | p :: rest => p +:+ sep +:+ join sep rest
  end.

(** [needle in s] *)
Fixpoint contains (needle s : string) : bool :=
  String.prefix needle s ||
  match s with
  | EmptyString => false
  | String _ s' => contains needle s'
  end.

(** [c * n] for a one-character string. *)
Fixpoint repeat (c : ascii) (n : nat) : string :=
  match n with
  | O => EmptyString
  | S n' => String c (repeat c n')
  end.

(** [range(n)] *)
Definition range (n : Z) : list Z :=
  List.map Z.of_nat (seq 0 (Z.to_nat n)).

End Py.

(** ** Feed items ([src/feeds/models.py]) *)

Definition datetime := Z.
Definition timedelta := Z.

Definition microseconds_per_hour : Z := 3600 * 1000000.
Definition hours (n : Z) : timedelta := n * microseconds_per_hour.
Definition days (n : Z) : timedelta := n * 24 * microseconds_per_hour.

Record FeedItem := {
  id : string;
  feed_url : string;
  title : string;
  link : string;
  description : option string;
  published_date : option datetime;
  image_url : option string;
  category : string;
  source_name : option string;
}.

Global Instance FeedItem_eq_dec : EqDecision FeedItem.
Proof. solve_decision. Defined.

(** Truth value of an [Optional[str]]: [None] and the empty string are
    false. *)
Definition truthy (o : option string) : bool :=
  match o with
  | Some (String _ _) => true
  | _ => false
  end.

(** One entry of [feeds.yaml] as [_get_source_priority] reads it: both keys
    may be absent. *)
Record FeedEntry := {
  entry_category : option string;
  entry_priority : option float;
}.

Record Settings := {
  top_n_items : Z;
  gemini_model : string;
}.

(** ** Scorer ([NewsSelector], [src/feeds/selector.py]) *)

(** [round(x, 4)] on a binary64 float.  CPython prints [x] with four
    fractional digits, correctly rounded from its exact binary value (ties
    to even), and reads the digits back as the nearest float.  With
    [x = m * 2^e]: an integer ([e >= 0]) or a float of magnitude at least
    [2^39] (whose neighbours are more than [10^-4] apart) is its own result;
    below that the digits form an integer [n < 2^53], exactly representable,
    and the correctly rounded quotient [n / 10^4] is the float read back.
    Zeros, infinities and NaN are returned unchanged. *)
Definition round_half_even (num den : Z) : Z :=
  let q := num / den in
  let r := num mod den in
  if 2 * r <? den then q
  else if den <? 2 * r then q + 1
  else if Z.even q then q else q + 1.

Definition round4 (x : float) : float :=
  match Prim2SF x with
  | SpecFloat.S754_finite s m e =>
      if 0 <=? e then x
      else
        let den := 2 ^ (- e) in
        if 2 ^ 39 * den <=? Z.pos m then x
        else
          let n := round_half_even (Z.pos m * 10000) den in
          let r := (of_uint63 (Uint63.of_Z n) / 10000)%float in
          if s then (- r)%float else r
  | _ => x
  end.

Section Scorer.

(** [self.feed_config.feeds], and the value [datetime.utcnow()] returns
    when [_calculate_recency_score] calls it. *)
Variable feeds : list FeedEntry.
Variable now : datetime.

Definition _calculate_recency_score (item : FeedItem) : float :=
  match published_date item with
  | None => 0.5%float
  | Some published =>
      let age := now - published in
      if age <? hours 1 then 1.0%float
      else if age <? hours 6 then 0.9%float
      else if age <? hours 12 then 0.8%float
      else if age <? days 1 then 0.7%float
      else if age <? days 2 then 0.5%float
      else if age <? days 7 then 0.3%float
      else 0.1%float
  end.

Fixpoint first_priority (fs : list FeedEntry) (item : FeedItem) : float :=
  match fs with
  | [] => 1.0%float
  | feed :: rest =>
      if bool_decide (entry_category feed = Some (category item))
      then default 1.0%float (entry_priority feed)
      else first_priority rest item
  end.

Definition _get_source_priority (item : FeedItem) : float :=
  first_priority feeds item.

Definition _has_image_bonus (item : FeedItem) : float :=
  if truthy (image_url item) then 1.2%float else 1.0%float.

Definition _description_quality_score (item : FeedItem) : float :=
  if negb (truthy (description item)) then 0.5%float
  else
    let length := Py.len (default EmptyString (description item)) in
    if length <? 50 then 0.6%float
    else if length <? 100 then 0.8%float
    else if length <? 500 then 1.0%float
    else 0.9%float.

Definition calculate_score (item : FeedItem) : float :=
  let recency := _calculate_recency_score item in
  let priority := _get_source_priority item in
  let image_bonus := _has_image_bonus item in
  let quality := _description_quality_score item in
  let score :=
    ((recency * 0.4 + quality * 0.3 + 0.3) * priority * image_bonus)%float in
  round4 score.

(** [sorted(scored_items, key=lambda x: x[1], reverse=True)]: stable,
    descending.  An element moves behind those of strictly higher score
    only, so equal scores keep the order of the input.  This is the list
    that [sorted] returns when no score is NaN; a NaN compares false with
    every score, and the place [sorted] then gives it depends on the order
    of its comparisons, which this insertion does not follow. *)
Fixpoint insert_desc (x : FeedItem * float) (l : list (FeedItem * float))
  : list (FeedItem * float) :=
  match l with
  | [] => [x]
  | y :: r => if PrimFloat.ltb x.2 y.2 then y :: insert_desc x r else x :: l
  end.

Definition sorted_desc (l : list (FeedItem * float))
  : list (FeedItem * float) :=
  foldr insert_desc [] l.

End Scorer.

(** [rank_items] scores the items one after the other, and every call of
    [calculate_score] reads the clock again: [clock i] is the reading taken
    for the item at position [i]. *)
Definition rank_items (feeds : list FeedEntry) (clock : nat -> datetime)
    (items : list FeedItem) : list (FeedItem * float) :=
  let scored_items :=
    imap (fun i item => (item, calculate_score feeds (clock i) item)) items in
  sorted_desc scored_items.

(** ** Selector ([NewsSelector], [src/feeds/selector.py]) *)

(** [category_counts[c]] of a [defaultdict(int)]. *)
Definition count_of (category_counts : gmap string Z) (c : string) : Z :=
  default 0 (category_counts !! c).

(** First loop of [ensure_category_diversity]: the state is [selected] and
    [category_counts]; [break] returns the state, [continue] skips the
    item. *)
Fixpoint diversity_pass (top_n max_per_category : Z)
    (scored_items : list (FeedItem * float))
    (selected : list FeedItem) (category_counts : gmap string Z)
  : list FeedItem * gmap string Z :=
  match scored_items with
  | [] => (selected, category_counts)
  | (item, score) :: rest =>
      if top_n <=? Z.of_nat (length selected) then (selected, category_counts)
      else if max_per_category <=? count_of category_counts (category item)
      then diversity_pass top_n max_per_category rest selected category_counts
      else
        diversity_pass top_n max_per_category rest
          (selected ++ [item])
          (<[category item := count_of category_counts (category item) + 1]>
             category_counts)
  end.

(** Second loop: [if item not in selected: selected.append(item)], then the
    test for [break]. *)
Fixpoint backfill (top_n : Z) (scored_items : list (FeedItem * float))
    (selected : list FeedItem) : list FeedItem :=
  match scored_items with
  | [] => selected
  | (item, _) :: rest =>
      let selected :=
        if bool_decide (item ∈ selected) then selected
        else selected ++ [item] in
      if top_n <=? Z.of_nat (length selected) then selected
      else backfill top_n rest selected
  end.

Definition ensure_category_diversity
    (scored_items : list (FeedItem * float)) (top_n : Z) : list FeedItem :=
  if Z.of_nat (length scored_items) <=? top_n then
    scored_items.*1
  else
    let max_per_category := Z.max 2 (top_n / 2) in
    let selected :=
      (diversity_pass top_n max_per_category scored_items [] ∅).1 in
    if Z.of_nat (length selected) <? top_n then
      backfill top_n scored_items selected
    else selected.

(** [top_n or self.settings.top_n_items]: [None] and 0 are false. *)
Definition top_n_or (top_n : option Z) (configured : Z) : Z :=
  match top_n with
  | None => configured
  | Some n => if n =? 0 then configured else n
  end.

Definition select_top_items (settings : Settings) (feeds : list FeedEntry)
    (clock : nat -> datetime) (items : list FeedItem) (top_n : option Z)
  : list FeedItem :=
  let top_n := top_n_or top_n (top_n_items settings) in
  match items with
  | [] => []
  | _ =>
      let items_with_images :=
        filter (fun item => truthy (image_url item)) items in
      match items_with_images with
      | [] => []
      | _ =>
          let ranked := rank_items feeds clock items_with_images in
          let selected := ensure_category_diversity ranked top_n in
          selected
      end
  end.

(** ** Summaries and decoded backend output *)

Module Summary.
(** [SummaryResult] of [src/feeds/models.py]. *)
Record SummaryResult := {
  title : string;
  description : string;
  caption : string;
  hashtags : list string;
  source : string;
  feed_item_id : string;
}.
End Summary.
Abbreviation SummaryResult := Summary.SummaryResult.

(** What [json.loads] returns.  An object is the list of its items in
    insertion order, its keys pairwise distinct. *)
Inductive json :=
| JNull
| JBool (b : bool)
| JInt (n : Z)
| JFloat (x : float)
| JStr (s : string)
| JArr (elements : list json)
| JObj (fields : list (string * json)).

(** Operations of Python on a value of unknown type; [None] is a raised
    [TypeError] or [AttributeError]. *)
Module Dyn.

(** [bool(v)] *)
Definition truth (v : json) : bool :=
  match v with
  | JNull => false
  | JBool b => b
  | JInt n => negb (n =? 0)
  | JFloat x => negb (PrimFloat.eqb x 0)
  | JStr s => negb (bool_decide (s = EmptyString))
  | JArr l => negb (bool_decide (l = []))
  | JObj f => negb (bool_decide (f = []))
  end.

Fixpoint assoc (key : string) (fields : list (string * json)) : option json :=
  match fields with
  | [] => None
  | (k, v) :: rest => if bool_decide (k = key) then Some v else assoc key rest
  end.

(** [data.get(key, default)]: only a dict has [get]. *)
Definition get (data : json) (key : string) (default : json) : option json :=
  match data with
  | JObj fields => Some (from_option (fun v => v) default (assoc key fields))
  | _ => None
  end.

(** [len(v)] *)
Definition len (v : json) : option Z :=
  match v with
  | JStr s => Some (Py.len s)
  | JArr l => Some (Z.of_nat (length l))
  | JObj f => Some (Z.of_nat (length f))
  | _ => None
  end.

(** [v[:n]] for [n >= 0] *)
Definition slice_to (n : Z) (v : json) : option json :=
  match v with
  | JStr s => Some (JStr (Py.slice_to n s))
  | JArr l => Some (JArr (take (Z.to_nat n) l))
  | _ => None
  end.

(** [v.rfind(c)] *)
Definition rfind (c : ascii) (v : json) : option Z :=
  match v with
  | JStr s => Some (Py.rfind c s)
  | _ => None
  end.

(** The elements [for h in v] visits: those of a list, the keys of a
    dict, the characters of a string. *)
Definition iter (v : json) : option (list json) :=
  match v with
  | JArr l => Some l
  | JObj f => Some (List.map (fun kv => JStr kv.1) f)
  | JStr s => Some (List.map (fun c => JStr (String c EmptyString)) (Py.chars s))
  | _ => None
  end.

(** The receiver of a [str] method. *)
Definition as_str (v : json) : option string :=
  match v with
  | JStr s => Some s
  | _ => None
  end.

End Dyn.

(** ** Text cleanup and paragraph reflow ([GeminiSummarizer]) *)

Definition newline : ascii := ascii_of_nat 10.
Definition blank_line : string := String newline (String newline EmptyString).

Definition ascii_lower (c : ascii) : ascii :=
  let n := Py.code c in
  if ((65 <=? n) && (n <=? 90))%N then ascii_of_N (n + 32) else c.

(** A match of the literal [pattern] at the start of [s] under
    [re.IGNORECASE]: what follows the match. *)
Fixpoint match_prefix_ci (pattern s : string) : option string :=
  match pattern, s with
  | EmptyString, _ => Some s
  | String _ _, EmptyString => None
  | String a pattern', String b s' =>
      if Ascii.eqb (ascii_lower a) (ascii_lower b)
      then match_prefix_ci pattern' s' else None
  end.

(** [re.sub(r"^<prefix>\s*", "", s, flags=re.IGNORECASE)] *)
Definition sub_prefix (prefix s : string) : string :=
  match match_prefix_ci prefix s with
  | Some rest => Py.of_chars (Py.drop_while Py.is_space (Py.chars rest))
  | None => s
  end.

Definition prefixes_to_remove : list string :=
  ["Brief Summary:"; "Longer Summary:"; "Breaking:"; "Breaking News:";
   "News:"; "Update:"; "Alert:"; "BREAKING:"].

(** The character class of [emoji_pattern]. *)
Definition is_emoji (c : ascii) : bool :=
  let n := Py.code c in
  let between lo hi := ((lo <=? n) && (n <=? hi))%N in
  between 0x1F600%N 0x1F64F%N || between 0x1F300%N 0x1F5FF%N
  || between 0x1F680%N 0x1F6FF%N || between 0x1F1E0%N 0x1F1FF%N
  || between 0x2702%N 0x27B0%N || between 0x24C2%N 0x1F251%N
  || between 0x1F900%N 0x1F9FF%N || between 0x1FA00%N 0x1FA6F%N.

(** [re.sub(r'\s+', ' ', s)]; [in_run] holds inside a run of whitespace. *)
Fixpoint collapse_spaces (in_run : bool) (l : list ascii) : list ascii :=
  match l with
  | [] => []
  | c :: r =>
      if Py.is_space c then
        if in_run then collapse_spaces true r
        else " "%char :: collapse_spaces true r
      else c :: collapse_spaces false r
  end.

(** The body of [_clean_text] for a non-empty [str]. *)
Definition clean_str (text : string) : string :=
  let cleaned := foldl (fun cleaned prefix => sub_prefix prefix cleaned)
                       text prefixes_to_remove in
  let cleaned :=
    Py.of_chars (List.filter (fun c => negb (is_emoji c)) (Py.chars cleaned)) in
  Py.strip (Py.of_chars (collapse_spaces false (Py.chars cleaned))).

(** [_clean_text] as it is called, on whatever [data.get] returned: a false
    value is returned as it is, a string is cleaned, anything else makes
    [re.sub] raise. *)
Definition _clean_text (text : json) : option json :=
  if negb (Dyn.truth text) then Some text
  else match text with
       | JStr s => Some (JStr (clean_str s))
       | _ => None
       end.

Definition is_sentence_end (c : ascii) : bool :=
  Ascii.eqb c "."%char || Ascii.eqb c "!"%char || Ascii.eqb c "?"%char.

(** [re.split(r'(?<=[.!?])\s+', s)]: a separator is a maximal run of
    whitespace that follows one of [.!?].  [cur] is the piece being read
    (reversed), [in_gap] holds while a separator is being consumed and
    [after_end] when the previous character ends a sentence. *)
Fixpoint split_sentences (in_gap after_end : bool) (cur : list ascii)
    (l : list ascii) : list string :=
  match l with
  | [] => [Py.of_chars (rev cur)]
  | c :: r =>
      if Py.is_space c then
        if in_gap then split_sentences true false cur r
        else if after_end
             then Py.of_chars (rev cur) :: split_sentences true false [] r
             else split_sentences false false (c :: cur) r
      else split_sentences false (is_sentence_end c) (c :: cur) r
  end.

(** The loop of [_format_caption_paragraphs] over the sentences; the state
    is [paragraphs], [current_para] and [current_length]. *)
Fixpoint group_sentences (target_chars num_paragraphs : Z)
    (sentences : list string)
    (paragraphs current_para : list string) (current_length : Z)
  : list string * list string :=
  match sentences with
  | [] => (paragraphs, current_para)
  | sentence :: rest =>
      let current_para := current_para ++ [sentence] in
      let current_length := current_length + Py.len sentence in
      if (target_chars <=? current_length)
         && (Z.of_nat (length paragraphs) <? num_paragraphs - 1)
      then group_sentences target_chars num_paragraphs rest
             (paragraphs ++ [Py.join " " current_para]) [] 0
      else group_sentences target_chars num_paragraphs rest
             paragraphs current_para current_length
  end.

Definition _format_caption_paragraphs (caption : string) (num_paragraphs : Z)
  : string :=
  if bool_decide (caption = EmptyString) || Py.contains blank_line caption
  then caption
  else
    let sentences :=
      split_sentences false false [] (Py.chars (Py.strip caption)) in
    if Z.of_nat (length sentences) <=? num_paragraphs then caption
    else
      let target_chars := Py.len caption / num_paragraphs in
      let '(paragraphs, current_para) :=
        group_sentences target_chars num_paragraphs sentences [] [] 0 in
      let paragraphs :=
        match current_para with
        | [] => paragraphs
        | _ => paragraphs ++ [Py.join " " current_para]
        end in
      Py.join blank_line paragraphs.

(** ** Response validation ([_parse_response], [_parse_batch_response]) *)

(** The caption lines of both parsers (253-267 and 491-503), on the value
    [_clean_text] returned.  The outer [None] is a raised exception, the
    inner [None] the rejection of the item ([continue] in the batch parser,
    [return None] in the single one). *)
Definition caption_policy (caption : json) : option (option json) :=
  caption_len ← Dyn.len caption;
  if 1400 <? caption_len then
    caption ← Dyn.slice_to 1400 caption;
    last_period ← Dyn.rfind "."%char caption;
    if 1200 <? last_period then
      caption ← Dyn.slice_to (last_period + 1) caption;
      Some (Some caption)
    else Some (Some caption)
  else if caption_len <? 1200 then Some None
  else Some (Some caption).

(** The hashtag lines of both parsers (271-281 and 507-517). *)
Definition clean_tag (h : string) : string :=
  Py.remove_char " "%char (Py.strip_char "#"%char (Py.strip h)).

Definition split_tags (hashtags : string) : list json :=
  (fun h => JStr (Py.strip_char "#"%char (Py.strip h)))
    <$> Py.split ","%char hashtags.

Definition normalize_hashtags (hashtags : json) : option (list string) :=
  let hashtags :=
    match hashtags with
    | JStr s => JArr (split_tags s)
    | _ => hashtags
    end in
  elements ← Dyn.iter hashtags;
  tags ← mapM Dyn.as_str elements;
  Some (take 15
          (clean_tag <$> filter (fun h => Py.strip h ≠ EmptyString) tags)).

(** [SummaryResult(...)]: the model validates that every text field is a
    [str]. *)
Definition make_summary (title description caption : json)
    (hashtags : list string) (source : json) (feed_item_id : string)
  : option SummaryResult :=
  title ← Dyn.as_str title;
  description ← Dyn.as_str description;
  caption ← Dyn.as_str caption;
  source ← Dyn.as_str source;
  Some {| Summary.title := title;
          Summary.description := description;
          Summary.caption := caption;
          Summary.hashtags := hashtags;
          Summary.source := source;
          Summary.feed_item_id := feed_item_id |}.

(** What both parsers do with one decoded object [data]; [original_title]
    and [feed_item_id] are those of the originating item.  Outer [None]: an
    exception was raised; inner [None]: the caption was rejected. *)
Definition parse_entry (data : json) (original_title feed_item_id : string)
  : option (option SummaryResult) :=
  raw_title ← Dyn.get data "title" (JStr "");
  generated_title ← _clean_text raw_title;
  title ← (if Py.len original_title <=? 65
           then Some (JStr (Py.slice_to 65 original_title))
           else Dyn.slice_to 65 generated_title);
  raw_description ← Dyn.get data "description" (JStr "");
  description ← _clean_text raw_description;
  desc_len ← Dyn.len description;
  raw_caption ← Dyn.get data "caption" (JStr "");
  caption ← _clean_text raw_caption;
  accepted ← caption_policy caption;
  match accepted with
  | None => Some None
  | Some caption =>
      caption ← Dyn.as_str caption;
      let caption := JStr (_format_caption_paragraphs caption 4) in
      raw_hashtags ← Dyn.get data "hashtags" (JArr []);
      hashtags ← normalize_hashtags raw_hashtags;
      raw_source ← Dyn.get data "source" (JStr "Unknown");
      source ← _clean_text raw_source;
      summary ← make_summary title description caption hashtags source
                  feed_item_id;
      Some (Some summary)
  end.

(** [_parse_response].  [decoded] is what [re.search] and [json.loads] (lines
    222-234) make of the response text: [None] when no brace-delimited text
    is found or it is not JSON. *)
Definition _parse_response (decoded : option json)
    (original_title feed_item_id : string) : option SummaryResult :=
  data ← decoded;
  mjoin (parse_entry data original_title feed_item_id).

(** The loop of [_parse_batch_response] over [zip(data_array, items)];
    [results] is the list being appended to. *)
Fixpoint parse_entries (pairs : list (json * FeedItem))
    (results : list SummaryResult) : option (list SummaryResult) :=
  match pairs with
  | [] => Some results
  | (data, item) :: rest =>
      outcome ← parse_entry data (title item) (id item);
      match outcome with
      | None => parse_entries rest results
      | Some summary => parse_entries rest (results ++ [summary])
      end
  end.

(** [_parse_batch_response].  [decoded] is what [re.search] and [json.loads]
    (lines 450-462) make of the response text: [None] when no
    bracket-delimited text is found or it is not JSON. *)
Definition _parse_batch_response (decoded : option json)
    (items : list FeedItem) : option (list SummaryResult) :=
  data_array ← decoded;
  match data_array with
  | JArr data_array => parse_entries (zip data_array items) []
  | _ => None
  end.

(** ** Reading the response text ([_parse_batch_response], lines 448-462) *)

Definition fence : list ascii := ["`"; "`"; "`"]%char.

(** What follows the literal [p] at the start of [l]. *)
Fixpoint starts_with (p l : list ascii) : option (list ascii) :=
  match p, l with
  | [], _ => Some l
  | a :: p', b :: l' => if Ascii.eqb a b then starts_with p' l' else None
  | _ :: _, [] => None
  end.

(** The rest of the fenced pattern once the opening bracket is read: the
    lazy [.*?] stops at the first closing bracket that is followed by
    whitespace and a fence.  The text read, that bracket included. *)
Fixpoint close_fenced (l : list ascii) : option (list ascii) :=
  match l with
  | [] => None
  | c :: r =>
      if Ascii.eqb c "]"
         && bool_decide
              (is_Some (starts_with fence (Py.drop_while Py.is_space r)))
      then Some [c]
      else cons c <$> close_fenced r
  end.

(** A match of the fenced pattern that starts at the head of [l]: its
    group 1.  After the fence an optional [json], whitespace, and the
    bracketed text. *)
Definition match_fenced_at (l : list ascii) : option (list ascii) :=
  after_fence ← starts_with fence l;
  let after_json :=
    default after_fence (starts_with (Py.chars "json") after_fence) in
  match Py.drop_while Py.is_space after_json with
  | c :: r => if Ascii.eqb c "[" then cons c <$> close_fenced r else None
  | [] => None
  end.

(** [re.search] of the fenced pattern with [re.DOTALL]: group 1 of the
    leftmost match. *)
Fixpoint search_fenced (l : list ascii) : option (list ascii) :=
  match match_fenced_at l with
  | Some group => Some group
  | None =>
      match l with
      | [] => None
      | _ :: r => search_fenced r
      end
  end.

(** [re.search(r"\[.*\]", text, re.DOTALL)]: from the first opening bracket
    to the last closing bracket after it. *)
Definition search_raw (l : list ascii) : option (list ascii) :=
  match Py.drop_while (fun c => negb (Ascii.eqb c "[")) l with
  | [] => None
  | c :: r =>
      match rev (Py.drop_while (fun c => negb (Ascii.eqb c "]")) (rev r)) with
      | [] => None
      | body => Some (c :: body)
      end
  end.

(** [json_str]: the text handed to [json.loads], or [None] when no array is
    found. *)
Definition extract_array_text (response_text : string) : option string :=
  match search_fenced (Py.chars response_text) with
  | Some group => Some (Py.of_chars group)
  | None => Py.of_chars <$> search_raw (Py.chars response_text)
  end.

Section Reader.

(** [json.loads], a function of the standard library: [None] when it
    raises. *)
Variable loads : string -> option json.

(** [data_array], when it is reached. *)
Definition decode_array (response_text : string) : option json :=
  extract_array_text response_text ≫= loads.

(** [_parse_batch_response] on the text of a response. *)
Definition _parse_batch_response_text (response_text : string)
    (items : list FeedItem) : option (list SummaryResult) :=
  _parse_batch_response (decode_array response_text) items.

End Reader.

(** ** Summarization client ([summarize], [summarize_items_batch]) *)

(** What one call of [model.generate_content] followed by [response.text]
    does: it returns the response text (represented by its decoding, see
    [_parse_batch_response]), raises [ResourceExhausted], or raises anything
    else. *)
Inductive outcome :=
| Response (decoded : option json)
| ResourceExhausted
| OtherError.

(** The observable actions of a call: requests to the backend and
    [time.sleep]. *)
Inductive event :=
| Generate (model : string) (attempt : Z)
| Sleep (seconds : Z).

Definition fallback_model : string := "gemini-3-flash-preview".

Section Client.

Variable settings : Settings.
(** The backend: its answer to the request made in iteration [attempt]
    with model [current_model].  The prompt is built once, before the loop,
    and is the same in every request of a call. *)
Variable backend : Z -> string -> outcome.

Section Loop.
(** The retry loop is the same text in [summarize] and in
    [summarize_items_batch] but for the parser and the value returned on
    failure.  [parse] gives [Some] when the parsed result is true
    ([if result:], [if summaries:]). *)
Context {R : Type}.
Variable parse : option json -> option R.
Variable failed : R.
Variable max_retries : Z.

Definition backoff (attempt : Z) : list event :=
  if attempt <? max_retries - 1 then [Sleep (2 ^ attempt)] else [].

(** [for attempt in range(max_retries)], on the attempts still to be
    made; the events are in the order they happen. *)
Fixpoint attempt_loop (attempts : list Z) (current_model : string)
  : list event * R :=
  match attempts with
  | [] => ([], failed)
  | attempt :: rest =>
      let call := Generate current_model attempt in
      match backend attempt current_model with
      | Response decoded =>
          match parse decoded with
          | Some result => ([call], result)
          | None =>
              let '(events, result) := attempt_loop rest current_model in
              (call :: events, result)
          end
      | ResourceExhausted =>
          if bool_decide (current_model ≠ fallback_model) then
            let '(events, result) := attempt_loop rest fallback_model in
            (call :: events, result)
          else
            let '(events, result) := attempt_loop rest current_model in
            (call :: backoff attempt ++ events, result)
      | OtherError =>
          let '(events, result) := attempt_loop rest current_model in
          (call :: backoff attempt ++ events, result)
      end
  end.

Definition retry : list event * R :=
  attempt_loop (Py.range max_retries) (gemini_model settings).

End Loop.

Definition summarize (item : FeedItem) (max_retries : Z)
  : list event * option SummaryResult :=
  retry
    (fun decoded =>
       Some <$> _parse_response decoded (title item) (id item))
    None max_retries.

Definition summarize_items_batch (items : list FeedItem) (max_retries : Z)
  : list event * list SummaryResult :=
  match items with
  | [] => ([], [])
  | _ =>
      retry
        (fun decoded =>
           match _parse_batch_response decoded items with
           | Some (summary :: summaries) => Some (summary :: summaries)
           | _ => None
           end)
        [] max_retries
  end.

Definition summarize_items (items : list FeedItem)
  : list event * list SummaryResult :=
  summarize_items_batch items 3.

End Client.

(** ** Feed manager ([RSSFeedManager.filter_new_items], [src/feeds/manager.py]) *)

Module Feed.
(** [ParsedFeed] of [src/feeds/models.py]. *)
Record ParsedFeed := {
  url : string;
  title : option string;
  items : list FeedItem;
  error : option string;
  fetched_at : datetime;
}.
End Feed.
Abbreviation ParsedFeed := Feed.ParsedFeed.

(** The inner loop of [filter_new_items] over the items of one feed;
    [new_items] is the list being appended to. *)
Fixpoint keep_new_items (last_run : datetime) (items : list FeedItem)
    (new_items : list FeedItem) : list FeedItem :=
  match items with
  | [] => new_items
  | item :: rest =>
      match published_date item with
      | Some published =>
          if last_run <? published
          then keep_new_items last_run rest (new_items ++ [item])
          else keep_new_items last_run rest new_items
      | None => keep_new_items last_run rest (new_items ++ [item])
      end
  end.

(** The outer loop: a feed with an error is skipped. *)
Fixpoint filter_feeds (last_run : datetime) (parsed_feeds : list ParsedFeed)
    (new_items : list FeedItem) : list FeedItem :=
  match parsed_feeds with
  | [] => new_items
  | feed :: rest =>
      if truthy (Feed.error feed) then filter_feeds last_run rest new_items
      else
        filter_feeds last_run rest
          (keep_new_items last_run (Feed.items feed) new_items)
  end.

(** [filter_new_items]; [last_run] is [self._last_run]. *)
Definition filter_new_items (last_run : datetime)
    (parsed_feeds : list ParsedFeed) : list FeedItem :=
  filter_feeds last_run parsed_feeds [].

(** ** Posts ([HTMLRenderer], [src/images/html_renderer.py]) *)

Module Post.
(** [PostResult] of [src/feeds/models.py]. *)
Record PostResult := {
  image_path : string;
  caption_image_path : string;
  height : Z;
  feed_item_id : string;
  summary : SummaryResult;
}.
End Post.
Abbreviation PostResult := Post.PostResult.

(** [{item.id: item for item in feed_items}]: a later item replaces an
    earlier one with the same id. *)
Definition index_by_id (feed_items : list FeedItem) : gmap string FeedItem :=
  foldl (fun d item => <[id item := item]> d) ∅ feed_items.

(** [s.replace("\\", "/")] *)
Definition forward_slashes (s : string) : string :=
  Py.of_chars
    (List.map (fun c => if Ascii.eqb c "\"%char then "/"%char else c)
       (Py.chars s)).

Section Renderer.

(** The rendering of the two images, which [create_post] asks of
    [render_post] in the call made for the summary at position [i]: the
    paths of the files relative to the project root and the height of the
    canvas, or [None] when rendering fails or raises. *)
Variable render_post :
  nat -> SummaryResult -> FeedItem -> option (string * string * Z).

Definition create_post (i : nat) (summary : SummaryResult)
    (feed_item : FeedItem) : option PostResult :=
  match render_post i summary feed_item with
  | None => None
  | Some (relative_main, relative_caption, canvas_height) =>
      Some {| Post.image_path := forward_slashes relative_main;
              Post.caption_image_path := forward_slashes relative_caption;
              Post.height := canvas_height;
              Post.feed_item_id := id feed_item;
              Post.summary := summary |}
  end.

(** The loop of [create_posts_for_summaries] over the summaries still to be
    handled, [i] being the position of the first. *)
Fixpoint create_posts_loop (feed_items_dict : gmap string FeedItem)
    (i : nat) (summaries : list SummaryResult) (posts : list PostResult)
  : list PostResult :=
  match summaries with
  | [] => posts
  | summary :: rest =>
      match feed_items_dict !! Summary.feed_item_id summary with
      | None => create_posts_loop feed_items_dict (S i) rest posts
      | Some feed_item =>
          match create_post i summary feed_item with
          | Some post =>
              create_posts_loop feed_items_dict (S i) rest (posts ++ [post])
          | None => create_posts_loop feed_items_dict (S i) rest posts
          end
      end
  end.

Definition create_posts_for_summaries (summaries : list SummaryResult)
    (feed_items : list FeedItem) : list PostResult :=
  create_posts_loop (index_by_id feed_items) 0 summaries [].

End Renderer.

(** ** Export and workflow ([src/main.py]) *)

Module Exported.
(** One element of ["posts"] in the exported document. *)
Record ExportedPost := {
  source : string;
  original_title : string;
  original_url : string;
  original_image_url : option string;
  generated_title : string;
  generated_description : string;
  caption : string;
  hashtags : list string;
  image_path : string;
  caption_image_path : string;
  height : Z;
  category : string;
  created_at : string;
}.
(** The document [export_posts_json] writes. *)
Record Document := {
  generated_at : string;
  posts : list ExportedPost;
}.
End Exported.

Section Workflow.

(** [datetime.utcnow().isoformat()] at the moment the document is opened
    ([None]) and at the moment the post at a position is written. *)
Variable isoformat_now : option nat -> string.

(** The loop of [export_posts_json]; [i] is the position of the first post
    still to be handled. *)
Fixpoint export_loop (feed_items_dict : gmap string FeedItem) (i : nat)
    (posts : list PostResult) (exported : list Exported.ExportedPost)
  : list Exported.ExportedPost :=
  match posts with
  | [] => exported
  | post :: rest =>
      match feed_items_dict !! Post.feed_item_id post with
      | None => export_loop feed_items_dict (S i) rest exported
      | Some feed_item =>
          let summary := Post.summary post in
          export_loop feed_items_dict (S i) rest
            (exported ++
             [{| Exported.source :=
                   if bool_decide (Summary.source summary = EmptyString)
                   then "Unknown" else Summary.source summary;
                 Exported.original_title := title feed_item;
                 Exported.original_url := link feed_item;
                 Exported.original_image_url := image_url feed_item;
                 Exported.generated_title := Summary.title summary;
                 Exported.generated_description := Summary.description summary;
                 Exported.caption := Summary.caption summary;
                 Exported.hashtags := Summary.hashtags summary;
                 Exported.image_path := Post.image_path post;
                 Exported.caption_image_path := Post.caption_image_path post;
                 Exported.height := Post.height post;
                 Exported.category := category feed_item;
                 Exported.created_at := isoformat_now (Some i) +:+ "Z" |}])
      end
  end.

(** [export_posts_json]: the document written to [posts.json]. *)
Definition export_posts_json (posts : list PostResult)
    (feed_items : list FeedItem) : Exported.Document :=
  {| Exported.generated_at := isoformat_now None +:+ "Z";
     Exported.posts := export_loop (index_by_id feed_items) 0 posts [] |}.

(** What a run of [run_workflow] did. *)
Record WorkflowRun := {
  run_new_items : list FeedItem;
  run_selected_items : list FeedItem;
  run_events : list event;
  run_summaries : list SummaryResult;
  run_posts : list PostResult;
  run_marked_complete : bool;
  run_exported : option Exported.Document;
}.

Definition nothing_done : WorkflowRun :=
  {| run_new_items := []; run_selected_items := []; run_events := [];
     run_summaries := []; run_posts := []; run_marked_complete := false;
     run_exported := None |}.

(** [run_workflow], the configuration and the style sheet being loaded.
    [gemini_api_key] is the setting of that name, [parsed_feeds] what
    [fetch_all_feeds] returned, [last_run] the time stamp the feed manager
    loaded; the clock, the backend and the renderer are as before. *)
Definition run_workflow (settings : Settings) (gemini_api_key : string)
    (feeds : list FeedEntry) (clock : nat -> datetime)
    (backend : Z -> string -> outcome)
    (render_post :
       nat -> SummaryResult -> FeedItem -> option (string * string * Z))
    (last_run : datetime) (parsed_feeds : list ParsedFeed)
    (skip_time_filter : bool) : WorkflowRun :=
  if bool_decide (gemini_api_key = EmptyString) then nothing_done
  else
    let new_items :=
      if skip_time_filter then
        foldl (fun new_items feed =>
                 if truthy (Feed.error feed) then new_items
                 else new_items ++ Feed.items feed)
              [] parsed_feeds
      else filter_new_items last_run parsed_feeds in
    match new_items with
    | [] => nothing_done
    | _ =>
        let selected_items :=
          select_top_items settings feeds clock new_items
            (Some (top_n_items settings)) in
        let selected_only :=
          {| run_new_items := new_items;
             run_selected_items := selected_items; run_events := [];
             run_summaries := []; run_posts := [];
             run_marked_complete := false; run_exported := None |} in
        match selected_items with
        | [] => selected_only
        | _ =>
            let '(events, summaries) :=
              summarize_items settings backend selected_items in
            match summaries with
            | [] =>
                {| run_new_items := new_items;
                   run_selected_items := selected_items;
                   run_events := events; run_summaries := [];
                   run_posts := []; run_marked_complete := false;
                   run_exported := None |}
            | _ =>
                let posts :=
                  create_posts_for_summaries render_post summaries
                    selected_items in
                {| run_new_items := new_items;
                   run_selected_items := selected_items;
                   run_events := events; run_summaries := summaries;
                   run_posts := posts;
                   run_marked_complete := negb skip_time_filter;
                   run_exported :=
                     match posts with
                     | [] => None
                     | _ => Some (export_posts_json posts selected_items)
                     end |}
            end
        end
    end.

End Workflow.

(** * Vocabulary of the properties and sample data *)

(** ** Selection *)

(** The number of items of category [c] in a selection. *)
Definition contributes (c : string) (l : list FeedItem) : Z :=
  Z.of_nat (length (filter (fun item => category item = c) l)).

(** The cap of [ensure_category_diversity]. *)
Definition max_per_category (top_n : Z) : Z := Z.max 2 (top_n / 2).

(** What the capped walk admits from the ranked candidates. *)
Definition admitted_under_cap (scored_items : list (FeedItem * float))
    (top_n : Z) : list FeedItem :=
  (diversity_pass top_n (max_per_category top_n) scored_items [] ∅).1.

(** Scarcity: no choice among the candidates that respects the cap has
    [top_n] items. *)
Definition scarce (scored_items : list (FeedItem * float)) (top_n : Z) : Prop :=
  ∀ l : list FeedItem,
    l ⊆+ scored_items.*1 →
    (∀ c, contributes c l ≤ max_per_category top_n) →
    Z.of_nat (length l) < top_n.

(** The counter agrees with the selection, and the selection respects the
    cap. *)
Definition pass_state_ok (cap : Z) (sel : list FeedItem)
    (counts : gmap string Z) : Prop :=
  (∀ c, count_of counts c = contributes c sel)
  ∧ (∀ c, contributes c sel ≤ cap).

(** ** The score as specified *)

(** A step function given by its table: the value of the first bound
    above [x]. *)
Fixpoint step_function (steps : list (Z * float)) (otherwise : float) (x : Z)
  : float :=
  match steps with
  | [] => otherwise
  | (bound, value) :: rest =>
      if x <? bound then value else step_function rest otherwise x
  end.

(** Recency: below 1h, 6h, 12h, 1d, 2d, 7d; 0.1 beyond. *)
Definition recency_steps : list (timedelta * float) :=
  [(hours 1, 1.0%float); (hours 6, 0.9%float); (hours 12, 0.8%float);
   (days 1, 0.7%float); (days 2, 0.5%float); (days 7, 0.3%float)].

(** A missing timestamp scores 0.5. *)
Definition spec_recency (now : datetime) (published : option datetime) : float :=
  match published with
  | None => 0.5%float
  | Some published => step_function recency_steps 0.1%float (now - published)
  end.

(** Description quality: below 50, 100, 500 characters; 0.9 beyond. *)
Definition quality_steps : list (Z * float) :=
  [(50, 0.6%float); (100, 0.8%float); (500, 1.0%float)].

(** A description that is absent or empty is missing. *)
Definition spec_quality (desc : option string) : float :=
  match desc with
  | None | Some EmptyString => 0.5%float
  | Some d => step_function quality_steps 0.9%float (Py.len d)
  end.

(** An image URL that is absent or empty is not present. *)
Definition spec_image_bonus (image : option string) : float :=
  match image with
  | None | Some EmptyString => 1.0%float
  | Some _ => 1.2%float
  end.

(** The priority configured for the category, 1.0 by default. *)
Definition spec_source_priority (feeds : list FeedEntry) (cat : string)
  : float :=
  match List.find (fun feed => bool_decide (entry_category feed = Some cat))
          feeds with
  | Some feed => default 1.0%float (entry_priority feed)
  | None => 1.0%float
  end.

(** The composite formula. *)
Definition spec_score (recency quality source_priority image_bonus : float)
  : float :=
  round4 ((0.4 * recency + 0.3 * quality + 0.3)
          * source_priority * image_bonus)%float.

(** The index of the recency step an age falls into. *)
Definition recency_bucket (age : timedelta) : nat :=
  length (filter (fun bound => bound ≤ age) recency_steps.*1).

(** The values of the recency steps, in order. *)
Definition recency_values : list float :=
  [1.0%float; 0.9%float; 0.8%float; 0.7%float; 0.5%float; 0.3%float;
   0.1%float].

(** ** Backend objects and policy *)

(** A hashtag as the specification wants it: not empty, without a leading
    hash sign and without a space. *)
Definition tag_in_policy (h : json) : bool :=
  match h with
  | JStr h =>
      negb (bool_decide (h = EmptyString)) && negb (String.prefix "#" h)
      && negb (Py.contains " " h)
  | _ => false
  end.

(** An object of the backend whose fields are all in policy; [caption_size]
    is the way the caption is measured. *)
Definition in_policy_with (caption_size : string -> Z) (data : json) : bool :=
  match data with
  | JObj fields =>
      match Dyn.assoc "title" fields, Dyn.assoc "description" fields,
            Dyn.assoc "caption" fields, Dyn.assoc "hashtags" fields,
            Dyn.assoc "source" fields with
      | Some (JStr t), Some (JStr d), Some (JStr c), Some (JArr tags),
        Some (JStr s) =>
          (Py.len t <=? 65)
          && (170 <=? Py.len d) && (Py.len d <=? 230)
          && (1200 <=? caption_size c) && (caption_size c <=? 1400)
          && (Z.of_nat (length tags) <=? 15) && forallb tag_in_policy tags
          && negb (bool_decide (s = EmptyString))
      | _, _, _, _, _ => false
      end
  | _ => false
  end.

(** In policy, the caption measured after text cleanup, as the validator
    measures it. *)
Definition in_policy : json -> bool :=
  in_policy_with (fun c => Py.len (clean_str c)).

(** In policy, the caption measured as the backend sent it. *)
Definition in_policy_as_sent : json -> bool := in_policy_with Py.len.

(** What [_clean_text] makes of a text. *)
Definition cleaned (s : string) : string :=
  if bool_decide (s = EmptyString) then s else clean_str s.

(** ** Runs of the retry loop *)

(** Events placed before those of a run. *)
Definition after_events {R} (events : list event) (run : list event * R)
  : list event * R :=
  (events ++ run.1, run.2).

(** ** Sample data *)

(** An undated item without description. *)
Definition article (ident cat : string) (image : option string) : FeedItem :=
  {| id := ident; feed_url := "https://example.org/feed";
     title := "Article " +:+ ident; link := "https://example.org/" +:+ ident;
     description := None; published_date := None; image_url := image;
     category := cat; source_name := None |}.

(** An item with an image. *)
Definition pictured (ident cat : string) : FeedItem :=
  article ident cat (Some "https://example.org/cover.png").

(** An item with a publication time. *)
Definition dated (ident cat : string) (published : datetime) : FeedItem :=
  {| id := ident; feed_url := "https://example.org/feed";
     title := "Article " +:+ ident; link := "https://example.org/" +:+ ident;
     description := None; published_date := Some published;
     image_url := None; category := cat; source_name := None |}.

(** The defaults of [Settings]. *)
Definition default_settings : Settings :=
  {| top_n_items := 5; gemini_model := "gemini-2.5-pro" |}.

(** Four items of one category ahead of one of another, ranked. *)
Definition lopsided : list (FeedItem * float) :=
  [(pictured "a1" "tech", 0.9%float); (pictured "a2" "tech", 0.8%float);
   (pictured "a3" "tech", 0.7%float); (pictured "a4" "tech", 0.6%float);
   (pictured "b1" "world", 0.5%float)].

(** Captions of 1500 characters with a single period, at offset 1250 and
    at offset 1200. *)
Definition caption_with_period_at (offset total : nat) : string :=
  Py.repeat "a"%char offset +:+ "." +:+ Py.repeat "a"%char (total - offset - 1).

Definition period_at_1250 : string := caption_with_period_at 1250 1500.
Definition period_at_1200 : string := caption_with_period_at 1200 1500.

(** A sentence of [n] characters. *)
Definition sentence_of (n : nat) : string := Py.repeat "a"%char (n - 1) +:+ ".".

(** An object with the given caption and hashtags, its other fields in
    policy. *)
Definition entry (caption : string) (tags : list json) : json :=
  JObj [("title", JStr "A short headline");
        ("description", JStr (sentence_of 200));
        ("caption", JStr caption);
        ("hashtags", JArr tags);
        ("source", JStr "Example News")].

(** A caption of 1300 characters. *)
Definition good_entry : json :=
  entry (sentence_of 1300) [JStr "news"; JStr "tech"].

(** A caption of 1199 characters, without paragraph breaks. *)
Definition thin_entry : json :=
  entry (sentence_of 1199) [JStr "news"; JStr "tech"].

(** Four paragraphs of 299 characters separated by blank lines: 1202
    characters as sent, 1199 once the blank lines are collapsed. *)
Definition four_paragraphs : string :=
  Py.join blank_line (replicate 4 (sentence_of 299)).

Definition paragraph_entry : json :=
  entry four_paragraphs [JStr "news"; JStr "tech"].

(** Hashtags made of hash signs and spaces. *)
Definition tagged_entry : json :=
  entry (sentence_of 1300) [JStr "ai"; JStr "#"; JStr "# #news"].

(** A backend that refuses the primary model for lack of quota and answers
    the fallback model with a well-formed batch. *)
Definition quota_then_success (attempt : Z) (model : string) : outcome :=
  if bool_decide (model = fallback_model)
  then Response (Some (JArr [good_entry]))
  else ResourceExhausted.

(** ** Ranking *)

(** The items paired with the scores computed for them, in input order. *)
Definition scored_in_order (feeds : list FeedEntry) (clock : nat -> datetime)
    (items : list FeedItem) : list (FeedItem * float) :=
  imap (fun i item => (item, calculate_score feeds (clock i) item)) items.

(** No element is directly followed by one of strictly higher score. *)
Fixpoint descending (l : list (FeedItem * float)) : Prop :=
  match l with
  | x :: r =>
      match r with
      | y :: _ => PrimFloat.ltb x.2 y.2 = false
      | [] => True
      end ∧ descending r
  | [] => True
  end.

(** ** New items *)

(** An item is new when it is undated or published after the last run. *)
Definition is_new (last_run : datetime) (item : FeedItem) : bool :=
  match published_date item with
  | Some published => last_run <? published
  | None => true
  end.

(** The items of the feeds that were fetched without error, feed after
    feed. *)
Definition fetched_items (parsed_feeds : list ParsedFeed) : list FeedItem :=
  concat (Feed.items <$>
            filter (fun feed => ¬ truthy (Feed.error feed)) parsed_feeds).

(** ** Cleaned text *)

(** Every whitespace character is a space, and none is followed by another
    whitespace character. *)
Fixpoint single_spaced (l : list ascii) : bool :=
  match l with
  | [] => true
  | c :: r =>
      (negb (Py.is_space c) || Ascii.eqb c " "%char)
      && negb (Py.is_space c
               && match r with
                  | d :: _ => Py.is_space d
                  | [] => false
                  end)
      && single_spaced r
  end.

(** Neither the first nor the last character is whitespace. *)
Definition trimmed (l : list ascii) : bool :=
  negb (from_option Py.is_space false (head l))
  && negb (from_option Py.is_space false (last l)).

Definition tidy (s : string) : bool :=
  single_spaced (Py.chars s) && trimmed (Py.chars s).

(** Dropping from the end, as [strip] does by reversing twice. *)
Fixpoint drop_end (p : ascii -> bool) (l : list ascii) : list ascii :=
  match l with
  | [] => []
  | c :: r =>
      match drop_end p r with
      | [] => if p c then [] else [c]
      | r' => c :: r'
      end
  end.

(** The number of newline characters of a text. *)
Definition newlines (s : string) : nat :=
  length (filter (fun c => c = newline) (Py.chars s)).

(** The characters of a text that are not whitespace. *)
Definition ink (s : string) : list ascii :=
  filter (fun c => ¬ Py.is_space c) (Py.chars s).

(** ** Reflowed captions *)

(** Six sentences of ten characters, single-spaced. *)
Definition six_sentences : string :=
  Py.join " " (replicate 6 (sentence_of 10)).

(** ** Whole calls of the client *)

(** The requests among the events of a call: the model asked and the
    iteration. *)
Definition requests (events : list event) : list (string * Z) :=
  omap (fun e =>
          match e with
          | Generate model attempt => Some (model, attempt)
          | Sleep _ => None
          end) events.

(** The seconds spent in [time.sleep]. *)
Definition slept (events : list event) : Z :=
  foldr (fun e total =>
           match e with
           | Sleep seconds => seconds + total
           | Generate _ _ => total
           end) 0 events.

(** A request that gives no result: the backend raises, or [parse] rejects
    its response. *)
Definition fruitless {R} (backend : Z -> string -> outcome)
    (parse : option json -> option R) (request : string * Z) : Prop :=
  match backend request.2 request.1 with
  | Response decoded => parse decoded = None
  | ResourceExhausted | OtherError => True
  end.

(** ** Produced summaries *)

(** The limits every produced summary is within. *)
Definition within_limits (summary : SummaryResult) : Prop :=
  Py.len (Summary.title summary) ≤ 65
  ∧ 1200 ≤ Py.len (Summary.caption summary) ≤ 1403
  ∧ (newlines (Summary.caption summary) ≤ 6)%nat
  ∧ (length (Summary.hashtags summary) ≤ 15)%nat
  ∧ Forall (fun h => Py.contains " " h = false) (Summary.hashtags summary).

(** A summary that answers an item: it carries the identifier of the item
    and, when that has at most 65 characters, its title. *)
Definition answers (item : FeedItem) (summary : SummaryResult) : Prop :=
  Summary.feed_item_id summary = id item
  ∧ (Py.len (title item) ≤ 65 → Summary.title summary = title item)
  ∧ within_limits summary.

(** A backend that answers every request with the same decoded text. *)
Definition always (decoded : option json) (attempt : Z) (model : string)
  : outcome := Response decoded.

(** A backend that fails every request. *)
Definition never (attempt : Z) (model : string) : outcome := OtherError.

(** ** Posts and the exported document *)

(** The item a lookup by identifier finds: the last one with that
    identifier. *)
Definition item_of (feed_items : list FeedItem) (ident : string)
  : option FeedItem :=
  last (filter (fun item => id item = ident) feed_items).

(** A renderer that writes the two images under fixed names. *)
Definition fixed_renderer (i : nat) (summary : SummaryResult)
    (feed_item : FeedItem) : option (string * string * Z) :=
  Some ("generated\post.png", "generated\post_caption.png", 1350).

(** Two feeds with one item each, the second item also in a third feed
    that failed. *)
Definition sample_feeds : list ParsedFeed :=
  [ {| Feed.url := "https://example.org/tech"; Feed.title := Some "Tech";
       Feed.items := [pictured "a1" "tech"]; Feed.error := None;
       Feed.fetched_at := 0 |};
    {| Feed.url := "https://example.org/world"; Feed.title := Some "World";
       Feed.items := [pictured "b1" "world"]; Feed.error := None;
       Feed.fetched_at := 0 |};
    {| Feed.url := "https://example.org/down"; Feed.title := None;
       Feed.items := [pictured "b1" "world"]; Feed.error := Some "timeout";
       Feed.fetched_at := 0 |} ].

(** A record of the exported document that stands for a post: the item's
    fields are those of the item the post's identifier finds, the other
    fields those of the post and its summary, and the source is not
    empty. *)
Definition exports (feed_items : list FeedItem) (post : PostResult)
    (record : Exported.ExportedPost) : Prop :=
  ∃ item,
    item_of feed_items (Post.feed_item_id post) = Some item
    ∧ Exported.original_title record = title item
    ∧ Exported.original_url record = link item
    ∧ Exported.original_image_url record = image_url item
    ∧ Exported.category record = category item
    ∧ Exported.generated_title record = Summary.title (Post.summary post)
    ∧ Exported.generated_description record
      = Summary.description (Post.summary post)
    ∧ Exported.caption record = Summary.caption (Post.summary post)
    ∧ Exported.hashtags record = Summary.hashtags (Post.summary post)
    ∧ Exported.image_path record = Post.image_path post
    ∧ Exported.caption_image_path record = Post.caption_image_path post
    ∧ Exported.height record = Post.height post
    ∧ Exported.source record ≠ EmptyString
    ∧ (Summary.source (Post.summary post) ≠ EmptyString →
       Exported.source record = Summary.source (Post.summary post)).

(** A post made of a summary with the item the summary's identifier
    finds. *)
Definition made_from
    (render_post :
       nat -> SummaryResult -> FeedItem -> option (string * string * Z))
    (feed_items : list FeedItem) (post : PostResult) : Prop :=
  ∃ i item,
    item_of feed_items (Summary.feed_item_id (Post.summary post)) = Some item
    ∧ create_post render_post i (Post.summary post) item = Some post.

(** ** Scores *)

(** The item with another image URL. *)
Definition with_image (item : FeedItem) (image : option string) : FeedItem :=
  {| id := id item; feed_url := feed_url item; title := title item;
     link := link item; description := description item;
     published_date := published_date item; image_url := image;
     category := category item; source_name := source_name item |}.

(** A record that describes an item and a post made for it: the summary of
    the post answers the item, the item's fields of the record are those of
    the item, and the caption is that of the summary. *)
Definition describes (item : FeedItem) (post : PostResult)
    (record : Exported.ExportedPost) : Prop :=
  answers item (Post.summary post)
  ∧ Exported.original_title record = title item
  ∧ Exported.original_url record = link item
  ∧ Exported.original_image_url record = image_url item
  ∧ Exported.category record = category item
  ∧ Exported.generated_title record = Summary.title (Post.summary post)
  ∧ Exported.caption record = Summary.caption (Post.summary post)
  ∧ Exported.image_path record = Post.image_path post.

(** Two items with one identifier, in two categories. *)
Definition twice_fetched : list FeedItem :=
  [pictured "a1" "tech"; pictured "a1" "world"].

(** The same, as fetched from two feeds. *)
Definition twice_fetched_feeds : list ParsedFeed :=
  [ {| Feed.url := "https://example.org/tech"; Feed.title := Some "Tech";
       Feed.items := [pictured "a1" "tech"]; Feed.error := None;
       Feed.fetched_at := 0 |};
    {| Feed.url := "https://example.org/world"; Feed.title := Some "World";
       Feed.items := [pictured "a1" "world"]; Feed.error := None;
       Feed.fetched_at := 0 |} ].

(** A run on the given feeds, without time filter, the backend answering
    every request with two in-policy objects. *)
Definition sample_run (parsed_feeds : list ParsedFeed) : WorkflowRun :=
  run_workflow (fun _ => "2024-01-01T00:00:00") default_settings "key" []
    (fun _ => 0) (always (Some (JArr [good_entry; good_entry])))
    fixed_renderer 0 parsed_feeds true.

(** ** Batches read from a response text *)

Definition is_text (v : json) : bool :=
  match v with
  | JStr _ => true
  | _ => false
  end.

(** The field is absent or a text. *)
Definition text_or_absent (key : string) (fields : list (string * json))
  : bool :=
  match Dyn.assoc key fields with
  | None => true
  | Some v => is_text v
  end.

(** An object whose fields, where present, have the types the response
    schema gives them: title, description, caption and source are texts,
    hashtags is a list of texts (or one text, which the parser splits). *)
Definition texts_only (data : json) : bool :=
  match data with
  | JObj fields =>
      text_or_absent "title" fields && text_or_absent "description" fields
      && text_or_absent "caption" fields && text_or_absent "source" fields
      && match Dyn.assoc "hashtags" fields with
         | None => true
         | Some (JStr _) => true
         | Some (JArr tags) => forallb is_text tags
         | Some _ => false
         end
  | _ => false
  end.

(** The caption of an object as sent, the empty text when absent. *)
Definition caption_of (data : json) : string :=
  match data with
  | JObj fields =>
      match Dyn.assoc "caption" fields with
      | Some (JStr caption) => caption
      | _ => EmptyString
      end
  | _ => EmptyString
  end.

(** The caption, cleaned, has fewer than 1200 characters. *)
Definition caption_too_short (data : json) : bool :=
  Py.len (cleaned (caption_of data)) <? 1200.

(** The items paired with an object whose caption is not too short. *)
Definition kept_items (pairs : list (json * FeedItem)) : list FeedItem :=
  snd <$> filter (fun p => caption_too_short p.1 = false) pairs.

(** What the parser makes of the object and the item at position [i],
    when there are both. *)
Definition outcome_at (data_array : list json) (items : list FeedItem)
    (i : nat) : option (option SummaryResult) :=
  data ← data_array !! i;
  item ← items !! i;
  parse_entry data (title item) (id item).

(** Pairing by position: the objects and the items at positions 0, 1, ...
    up to the shorter of the two lists are handled pair by pair; an error
    in one pair is the error of the whole, and the summaries of the
    accepted pairs are returned in the order of the positions. *)
Definition paired_by_position (data_array : list json)
    (items : list FeedItem) : option (list SummaryResult) :=
  outcomes ← mapM (outcome_at data_array items)
               (seq 0 (length data_array `min` length items));
  Some (omap (fun outcome => outcome) outcomes).

(** *** Sample texts *)

Definition quote_mark : string := String (ascii_of_nat 34) EmptyString.

Definition quoted (s : string) : string := quote_mark +:+ s +:+ quote_mark.

(** The JSON text of [entry caption (JStr <$> tags)], for texts without
    quotation mark, backslash or control character. *)
Definition entry_text (caption : string) (tags : list string) : string :=
  "{" +:+ quoted "title" +:+ ": " +:+ quoted "A short headline" +:+ ", "
  +:+ quoted "description" +:+ ": " +:+ quoted (sentence_of 200) +:+ ", "
  +:+ quoted "caption" +:+ ": " +:+ quoted caption +:+ ", "
  +:+ quoted "hashtags" +:+ ": [" +:+ Py.join ", " (quoted <$> tags)
  +:+ "], " +:+ quoted "source" +:+ ": " +:+ quoted "Example News" +:+ "}".

(** The JSON text of an array of objects given by their texts. *)
Definition array_text (objects : list string) : string :=
  "[" +:+ Py.join ", " objects +:+ "]".

(** A reader that knows the value of the given texts and rejects every
    other text. *)
Definition reads (table : list (string * json)) (text : string)
  : option json :=
  Dyn.assoc text table.

(** A response of two in-policy objects, and its value. *)
Definition good_batch_text : string :=
  array_text [entry_text (sentence_of 1300) ["news"; "tech"];
              entry_text (sentence_of 1300) ["news"; "tech"]].

Definition good_batch : json := JArr [good_entry; good_entry].

(** An in-policy caption of 1301 characters that quotes a fenced array. *)
Definition fenced_caption : string :=
  "```[1, 2]``` " +:+ sentence_of 1288.

Definition fenced_entry : json :=
  entry fenced_caption [JStr "news"; JStr "tech"].

(** The response whose only object is [fenced_entry]. *)
Definition fenced_text : string :=
  array_text [entry_text fenced_caption ["news"; "tech"]].

(** An object with a caption of 1199 characters and a null description. *)
Definition thin_null_entry : json :=
  JObj [("title", JStr "A short headline");
        ("description", JNull);
        ("caption", JStr (sentence_of 1199));
        ("hashtags", JArr [JStr "news"; JStr "tech"]);
        ("source", JStr "Example News")].

(** An object with a caption of 1500 characters, and one with nothing but a
    short caption. *)
Definition long_entry : json :=
  entry (sentence_of 1500) [JStr "news"; JStr "tech"].

Definition bare_entry : json := JObj [("caption", JStr "Too short.")].

(** A response of an in-policy object, an object with a caption of 1199
    characters and one with a caption of 1500, and its value. *)
Definition mixed_batch_text : string :=
  array_text [entry_text (sentence_of 1300) ["news"; "tech"];
              entry_text (sentence_of 1199) ["news"; "tech"];
              entry_text (sentence_of 1500) ["news"; "tech"]].

Definition mixed_batch : json := JArr [good_entry; thin_entry; long_entry].

(** ** Scores that are numbers *)

(** [x != x] *)
Definition is_nan (x : float) : bool := negb (PrimFloat.eqb x x).

(** * Properties *)

(** ** Selection: size, provenance and the diversity cap *)

Section SelectionLemmas.

Implicit Types (l sel : list FeedItem) (c : string).

Lemma contributes_nil c : contributes c [] = 0.
Proof. reflexivity. Qed.

Lemma contributes_cons c x l :
  contributes c (x :: l) =
  (if decide (category x = c) then 1 else 0) + contributes c l.
Proof.
  unfold contributes. rewrite filter_cons.
  destruct (decide (category x = c)); simpl; lia.
Qed.

Lemma contributes_app c l1 l2 :
  contributes c (l1 ++ l2) = contributes c l1 + contributes c l2.
Proof. unfold contributes. rewrite filter_app, length_app. lia. Qed.

Lemma contributes_nonneg c l : 0 ≤ contributes c l.
Proof. unfold contributes. lia. Qed.

Lemma filter_submseteq_mono (P : FeedItem → Prop) `{!∀ x, Decision (P x)}
    l1 l2 :
  l1 ⊆+ l2 → filter P l1 ⊆+ filter P l2.
Proof.
  induction 1 as [|x l1 l2 _ IH|x y l|x l1 l2 _ IH|l1 l2 l3 _ IH1 _ IH2];
    rewrite ?filter_cons; repeat case_decide;
    eauto using submseteq_skip, submseteq_cons, submseteq_trans,
      submseteq_swap.
Qed.

Lemma contributes_submseteq c l1 l2 :
  l1 ⊆+ l2 → contributes c l1 ≤ contributes c l2.
Proof.
  induction 1; rewrite ?contributes_cons in *;
    repeat case_decide; lia.
Qed.

(** The items of category [c] and the others make up the list. *)
Lemma length_split_category c l :
  Z.of_nat (length l) =
  contributes c l
  + Z.of_nat (length (filter (fun item => ¬ category item = c) l)).
Proof.
  unfold contributes.
  rewrite <- (Permutation_length
                (filter_app_complement (fun item => category item = c) l)).
  rewrite length_app. lia.
Qed.

(** A list dominated category by category is no longer. *)
Lemma length_le_of_contributes l : ∀ l',
  (∀ c, contributes c l ≤ contributes c l') →
  (length l ≤ length l')%nat.
Proof.
  induction l as [|x l IH]; intros l' Hdom; simpl; [lia|].
  assert (Hin : ∃ y, y ∈ l' ∧ category y = category x).
  { specialize (Hdom (category x)). rewrite contributes_cons in Hdom.
    rewrite decide_True in Hdom by done.
    pose proof (contributes_nonneg (category x) l) as Hnn.
    unfold contributes in Hdom at 2.
    destruct (filter (λ item, category item = category x) l') as [|y k] eqn:Hf.
    - simpl in Hdom. lia.
    - exists y.
      assert (Hy : y ∈ filter (λ item, category item = category x) l')
        by (rewrite Hf; left).
      apply list_elem_of_filter in Hy. tauto. }
  destruct Hin as (y & Hy & Hcat).
  apply list_elem_of_split in Hy as (l1 & l2 & ->).
  rewrite length_app. simpl.
  enough (length l ≤ length (l1 ++ l2))%nat by (rewrite length_app in *; lia).
  apply IH. intros c. specialize (Hdom c).
  rewrite contributes_cons, !contributes_app, contributes_cons in Hdom.
  rewrite contributes_app. rewrite Hcat in Hdom.
  destruct (decide (category x = c)); lia.
Qed.

End SelectionLemmas.

Section DiversityPass.

Variables top_n cap : Z.

Lemma pass_state_ok_empty : 0 ≤ cap → pass_state_ok cap [] ∅.
Proof.
  intros Hcap. split; intros c; rewrite contributes_nil; [|done].
  unfold count_of. by rewrite lookup_empty.
Qed.

Lemma pass_state_ok_admit sel counts item :
  pass_state_ok cap sel counts →
  ¬ cap ≤ count_of counts (category item) →
  pass_state_ok cap (sel ++ [item])
    (<[category item := count_of counts (category item) + 1]> counts).
Proof.
  intros [Hcount Hcap] Hroom. split; intros c.
  - rewrite contributes_app, contributes_cons, contributes_nil.
    unfold count_of at 1. rewrite lookup_insert.
    destruct (decide (category item = c)) as [Heq|Hne]; simpl.
    + rewrite Heq, Hcount. lia.
    + fold (count_of counts c). rewrite Hcount. lia.
  - rewrite contributes_app, contributes_cons, contributes_nil.
    specialize (Hcap c). specialize (Hcount c).
    destruct (decide (category item = c)) as [Heq|Hne];
      [rewrite Heq in Hroom|]; lia.
Qed.

(** What the first loop establishes, from any state it can be in. *)
Lemma diversity_pass_inv scored : ∀ sel counts,
  pass_state_ok cap sel counts →
  let r := diversity_pass top_n cap scored sel counts in
  pass_state_ok cap r.1 r.2
  ∧ (∃ extra, r.1 = sel ++ extra ∧ extra `sublist_of` scored.*1)
  ∧ Z.of_nat (length r.1) ≤ Z.max (Z.of_nat (length sel)) top_n
  ∧ (Z.of_nat (length r.1) < top_n →
     ∀ c, contributes c r.1
          = Z.min cap (contributes c sel + contributes c scored.*1)).
Proof.
  induction scored as [|[item score] rest IH]; intros sel counts Hok; simpl.
  - repeat split; try apply Hok.
    + exists []. by rewrite app_nil_r.
    + lia.
    + intros _ c. rewrite contributes_nil. destruct Hok as [_ Hcap].
      specialize (Hcap c). lia.
  - change (list_fmap _ _ fst rest) with (rest.*1) in *.
    destruct (Z.leb_spec top_n (Z.of_nat (length sel))) as [Hfull|Hfree]; simpl.
    { repeat split; try apply Hok.
      - exists []. rewrite app_nil_r. split; [done|]. apply sublist_nil_l.
      - lia.
      - lia. }
    destruct (Z.leb_spec cap (count_of counts (category item)))
      as [Hcapped|Hroom].
    + destruct (IH sel counts Hok) as (Hok' & (extra & Hex & Hsub) & Hlen & Hmin).
      repeat split; try apply Hok'.
      * exists extra. split; [done|]. by apply sublist_cons.
      * done.
      * intros Hlt c. rewrite (Hmin Hlt c), contributes_cons.
        destruct Hok as [Hcount Hcap]. specialize (Hcap c).
        specialize (Hcount c).
        pose proof (contributes_nonneg c rest.*1).
        destruct (decide (category item = c)) as [Heq|Hne];
          [rewrite Heq in Hcapped|]; lia.
    + assert (Hok1 := pass_state_ok_admit sel counts item Hok ltac:(lia)).
      destruct (IH _ _ Hok1) as (Hok' & (extra & Hex & Hsub) & Hlen & Hmin).
      repeat split; try apply Hok'.
      * exists (item :: extra). rewrite Hex, <- app_assoc. split; [done|].
        by apply sublist_skip.
      * rewrite length_app in Hlen. simpl in Hlen. lia.
      * intros Hlt c. rewrite (Hmin Hlt c), contributes_app,
          !contributes_cons, contributes_nil. f_equal. lia.
Qed.

End DiversityPass.

Section SelectorLemmas.

Lemma backfill_length top_n scored : ∀ sel,
  Z.of_nat (length sel) < top_n →
  Z.of_nat (length (backfill top_n scored sel)) ≤ top_n.
Proof.
  induction scored as [|[item score] rest IH]; intros sel Hlt; simpl; [lia|].
  set (sel' := if bool_decide (item ∈ sel) then sel else sel ++ [item]).
  assert (Hlen : Z.of_nat (length sel') ≤ Z.of_nat (length sel) + 1).
  { subst sel'. case_bool_decide; rewrite ?length_app; simpl; lia. }
  destruct (Z.leb_spec top_n (Z.of_nat (length sel'))); [lia|].
  by apply IH.
Qed.

Lemma backfill_elem_of top_n scored : ∀ sel x,
  x ∈ backfill top_n scored sel → x ∈ sel ∨ x ∈ scored.*1.
Proof.
  induction scored as [|[item score] rest IH]; intros sel x; simpl; [auto|].
  set (sel' := if bool_decide (item ∈ sel) then sel else sel ++ [item]).
  assert (Hsel' : x ∈ sel' → x ∈ sel ∨ x = item).
  { subst sel'. case_bool_decide; [auto|].
    rewrite elem_of_app, list_elem_of_singleton. auto. }
  rewrite elem_of_cons.
  destruct (top_n <=? Z.of_nat (length sel')).
  - intros Hx. destruct (Hsel' Hx); auto.
  - intros Hx. destruct (IH _ _ Hx) as [Hx'|Hx']; [|auto].
    destruct (Hsel' Hx'); auto.
Qed.

Lemma max_per_category_nonneg top_n : 0 ≤ max_per_category top_n.
Proof. unfold max_per_category. lia. Qed.

(** The facts about the capped walk started from the empty selection. *)
Lemma admitted_under_cap_inv scored top_n :
  let r := admitted_under_cap scored top_n in
  (∀ c, contributes c r ≤ max_per_category top_n)
  ∧ r `sublist_of` scored.*1
  ∧ Z.of_nat (length r) ≤ Z.max 0 top_n
  ∧ (Z.of_nat (length r) < top_n →
     ∀ c, contributes c r
          = Z.min (max_per_category top_n) (contributes c scored.*1)).
Proof.
  unfold admitted_under_cap.
  destruct (diversity_pass_inv top_n (max_per_category top_n) scored [] ∅
              (pass_state_ok_empty _ (max_per_category_nonneg top_n)))
    as ([_ Hcap] & (extra & Hex & Hsub) & Hlen & Hmin).
  simpl in *. rewrite Hex in *. repeat split; auto.
Qed.

Lemma ensure_category_diversity_length scored top_n :
  0 ≤ top_n →
  Z.of_nat (length (ensure_category_diversity scored top_n)) ≤ top_n.
Proof.
  intros Hnn. unfold ensure_category_diversity.
  destruct (Z.leb_spec (Z.of_nat (length scored)) top_n) as [Hfew|Hmany].
  - by rewrite length_fmap.
  - fold (max_per_category top_n). fold (admitted_under_cap scored top_n).
    destruct (admitted_under_cap_inv scored top_n) as (_ & _ & Hlen & _).
    destruct (Z.ltb_spec (Z.of_nat (length (admitted_under_cap scored top_n)))
                top_n).
    + by apply backfill_length.
    + lia.
Qed.

Lemma ensure_category_diversity_elem_of scored top_n x :
  x ∈ ensure_category_diversity scored top_n → x ∈ scored.*1.
Proof.
  unfold ensure_category_diversity.
  destruct (Z.of_nat (length scored) <=? top_n); [done|].
  fold (max_per_category top_n). fold (admitted_under_cap scored top_n).
  destruct (admitted_under_cap_inv scored top_n) as (_ & Hsub & _ & _).
  destruct (Z.of_nat (length (admitted_under_cap scored top_n)) <? top_n).
  - intros [Hx|Hx]%backfill_elem_of; [|done].
    eapply sublist_subseteq; eauto.
  - intros Hx. eapply sublist_subseteq; eauto.
Qed.

Lemma insert_desc_Permutation x l : insert_desc x l ≡ₚ x :: l.
Proof.
  induction l as [|y r IH]; simpl; [done|].
  destruct (PrimFloat.ltb x.2 y.2); [|done].
  rewrite IH. apply Permutation_swap.
Qed.

Lemma sorted_desc_Permutation l : sorted_desc l ≡ₚ l.
Proof.
  induction l as [|x l IH]; simpl; [done|].
  by rewrite insert_desc_Permutation, IH.
Qed.

(** Ranking reorders the items and drops none. *)
Lemma rank_items_Permutation feeds clock items :
  (rank_items feeds clock items).*1 ≡ₚ items.
Proof.
  unfold rank_items. rewrite sorted_desc_Permutation, fmap_imap.
  rewrite <- (list_fmap_id items) at 2. by rewrite <- imap_const.
Qed.

Lemma select_top_items_elem_of settings feeds clock items top_n x :
  x ∈ select_top_items settings feeds clock items top_n →
  x ∈ items ∧ truthy (image_url x) = true.
Proof.
  unfold select_top_items. destruct items as [|i0 items0]; [by intros ?%elem_of_nil|].
  set (items := i0 :: items0).
  destruct (filter _ items) as [|j0 with_images0] eqn:Hf; [by intros ?%elem_of_nil|].
  rewrite <- Hf. intros Hx%ensure_category_diversity_elem_of.
  rewrite rank_items_Permutation in Hx.
  apply list_elem_of_filter in Hx as [Himg Hx]. split; [done|].
  by apply Is_true_true.
Qed.

Lemma select_top_items_length settings feeds clock items top_n :
  0 ≤ top_n_or top_n (top_n_items settings) →
  Z.of_nat (length (select_top_items settings feeds clock items top_n))
  ≤ top_n_or top_n (top_n_items settings).
Proof.
  intros Hnn. unfold select_top_items. destruct items as [|i0 items0]; [done|].
  destruct (filter _ (i0 :: items0)); [done|].
  by apply ensure_category_diversity_length.
Qed.

Lemma select_top_items_empty settings feeds clock top_n :
  select_top_items settings feeds clock [] top_n = [].
Proof. reflexivity. Qed.

(** With an effective [top_n] of 0 the diversity filter selects nothing. *)
Lemma ensure_category_diversity_zero scored :
  ensure_category_diversity scored 0 = [].
Proof.
  unfold ensure_category_diversity. destruct scored as [|[item score] rest].
  - reflexivity.
  - reflexivity.
Qed.

End SelectorLemmas.

(** C3.  With at least two categories among the candidates and
    [top_n >= 4], a category contributes more than [max(2, top_n // 2)]
    items to the result of [ensure_category_diversity] only under scarcity:
    the capped walk admitted fewer than [top_n] candidates, and no choice of
    candidates that respects the cap has [top_n] items. *)
Theorem diversity_cap_unless_scarce
    (scored_items : list (FeedItem * float)) (top_n : Z) (c : string) :
  4 ≤ top_n →
  (∃ x y, x ∈ scored_items.*1 ∧ y ∈ scored_items.*1
          ∧ category x ≠ category y) →
  max_per_category top_n
    < contributes c (ensure_category_diversity scored_items top_n) →
  Z.of_nat (length (admitted_under_cap scored_items top_n)) < top_n
  ∧ scarce scored_items top_n.
Proof.
  intros Htop _ Hexceed.
  destruct (admitted_under_cap_inv scored_items top_n)
    as (Hcap & Hsub & Hlen & Hmin).
  assert (Hunder :
    Z.of_nat (length (admitted_under_cap scored_items top_n)) < top_n).
  { revert Hexceed. unfold ensure_category_diversity.
    destruct (Z.leb_spec (Z.of_nat (length scored_items)) top_n) as [Hfew|Hmany].
    - intros Hexceed.
      apply sublist_submseteq in Hsub.
      pose proof (length_split_category c (scored_items.*1)) as Hall.
      pose proof (length_split_category c
                    (admitted_under_cap scored_items top_n)) as Hadm.
      pose proof (submseteq_length _ _
                    (filter_submseteq_mono (λ item, ¬ category item = c)
                       _ _ Hsub)) as Hothers.
      specialize (Hcap c). rewrite length_fmap in Hall. lia.
    - fold (max_per_category top_n).
      fold (admitted_under_cap scored_items top_n).
      destruct (Z.ltb_spec
                  (Z.of_nat (length (admitted_under_cap scored_items top_n)))
                  top_n) as [Hlt|Hge]; [done|].
      intros Hexceed. specialize (Hcap c). lia. }
  split; [done|].
  intros l Hl Hlcap.
  enough (length l ≤ length (admitted_under_cap scored_items top_n))%nat by lia.
  apply length_le_of_contributes. intros c'.
  rewrite (Hmin Hunder c').
  pose proof (contributes_submseteq c' _ _ Hl). specialize (Hlcap c'). lia.
Qed.

(** Four ranked items of one category and one of another, [top_n = 4]: the
    backfill brings a third item of the first category. *)
Lemma diversity_cap_unless_scarce_witness :
  max_per_category 4
    < contributes "tech" (ensure_category_diversity lopsided 4)
  ∧ Z.of_nat (length (admitted_under_cap lopsided 4)) < 4
  ∧ scarce lopsided 4.
Proof.
  assert (Hexceed : max_per_category 4
            < contributes "tech" (ensure_category_diversity lopsided 4))
    by (vm_compute; reflexivity).
  split; [exact Hexceed|].
  apply (diversity_cap_unless_scarce lopsided 4 "tech").
  - lia.
  - exists (pictured "a1" "tech"), (pictured "b1" "world").
    split; [|split].
    + apply list_elem_of_here.
    + do 4 apply list_elem_of_further. apply list_elem_of_here.
    + simpl. discriminate.
  - exact Hexceed.
Defined.

(** C1.  Called with [top_n = 0], [select_top_items] replaces the falsy 0
    by the configured [top_n_items] and selects that many items: here one
    item from a one-item feed, where the specification has the empty list. *)
Theorem select_top_items_zero_selects_configured :
  select_top_items default_settings [] (fun _ => 0)
    [pictured "a1" "tech"] (Some 0)
  = [pictured "a1" "tech"].
Proof. vm_compute. reflexivity. Qed.

(** ** Scoring: the formula and its dependence on the clock *)

Lemma recency_score_spec now item :
  _calculate_recency_score now item = spec_recency now (published_date item).
Proof. reflexivity. Qed.

Lemma quality_score_spec item :
  _description_quality_score item = spec_quality (description item).
Proof.
  unfold _description_quality_score, spec_quality.
  destruct (description item) as [[|a d]|]; reflexivity.
Qed.

Lemma image_bonus_spec item :
  _has_image_bonus item = spec_image_bonus (image_url item).
Proof.
  unfold _has_image_bonus, spec_image_bonus.
  destruct (image_url item) as [[|a u]|]; reflexivity.
Qed.

Lemma source_priority_spec feeds item :
  _get_source_priority feeds item = spec_source_priority feeds (category item).
Proof.
  unfold _get_source_priority, spec_source_priority.
  induction feeds as [|feed rest IH]; simpl; [done|].
  by case_bool_decide.
Qed.

(** On the values the two step functions take, the weighted sum does not
    depend on the order of the factors. *)
Lemma weighted_sum_commutes now published desc :
  let recency := spec_recency now published in
  let quality := spec_quality desc in
  (recency * 0.4 + quality * 0.3 + 0.3 = 0.4 * recency + 0.3 * quality + 0.3)%float.
Proof.
  unfold spec_recency, spec_quality, recency_steps, quality_steps,
    step_function.
  destruct published as [p|], desc as [[|a d]|]; cbv zeta;
    repeat case_match; reflexivity.
Qed.

(** C8.  [calculate_score] is the specified formula: the rounded product of
    the weighted sum of the recency and quality step functions plus 0.3, the
    configured priority of the item's category and the image bonus. *)
Theorem calculate_score_formula
    (feeds : list FeedEntry) (now : datetime) (item : FeedItem) :
  calculate_score feeds now item
  = spec_score (spec_recency now (published_date item))
               (spec_quality (description item))
               (spec_source_priority feeds (category item))
               (spec_image_bonus (image_url item)).
Proof.
  unfold calculate_score, spec_score. cbv zeta.
  rewrite recency_score_spec, quality_score_spec, image_bonus_spec,
    source_priority_spec.
  by rewrite weighted_sum_commutes.
Qed.

(** The recency score is the value of the step the age falls into. *)
Lemma recency_of_bucket age :
  step_function recency_steps 0.1%float age
  = nth (recency_bucket age) recency_values 0.1%float.
Proof.
  unfold recency_bucket, recency_steps, step_function.
  rewrite !fmap_cons, fmap_nil. cbn [fst].
  repeat (rewrite filter_cons; case_decide);
    rewrite filter_nil;
    unfold hours, days, microseconds_per_hour in *;
    repeat (case_match; try lia);
    try reflexivity;
    repeat match goal with H : (_ <? _) = _ |- _ =>
      first [apply Z.ltb_lt in H | apply Z.ltb_ge in H] end; lia.
Qed.

(** C4, as amended.  [calculate_score] reads the clock, and the reading
    enters the score through the recency step only: two evaluations on the
    same item and configuration agree whenever the item is undated or the
    two readings put its age in the same recency step (in particular when
    they are the same reading). *)
Theorem calculate_score_clock_dependence
    (feeds : list FeedEntry) (item : FeedItem) (now1 now2 : datetime) :
  match published_date item with
  | None => True
  | Some published =>
      recency_bucket (now1 - published) = recency_bucket (now2 - published)
  end →
  calculate_score feeds now1 item = calculate_score feeds now2 item.
Proof.
  intros Hsame. unfold calculate_score. rewrite !recency_score_spec.
  unfold spec_recency. destruct (published_date item) as [p|]; [|done].
  by rewrite !recency_of_bucket, Hsame.
Qed.

(** Ten and fifty minutes after publication fall in the same step. *)
Lemma calculate_score_clock_dependence_witness :
  calculate_score [] 600000000 (dated "d1" "tech" 0)
  = calculate_score [] 3000000000 (dated "d1" "tech" 0).
Proof.
  apply (calculate_score_clock_dependence [] (dated "d1" "tech" 0)
           600000000 3000000000).
  vm_compute. reflexivity.
Defined.

(** C4, as stated, fails: the same item under the same configuration
    scores 0.85 when the clock reads just under an hour after publication
    and 0.81 when it reads two hours after. *)
Lemma calculate_score_differs_across_clock_readings :
  calculate_score [] (hours 1 - 1) (dated "d1" "tech" 0) = 0.85%float
  ∧ calculate_score [] (hours 2) (dated "d1" "tech" 0) = 0.81%float
  ∧ calculate_score [] (hours 1 - 1) (dated "d1" "tech" 0)
    ≠ calculate_score [] (hours 2) (dated "d1" "tech" 0).
Proof.
  split; [vm_compute; reflexivity|].
  split; [vm_compute; reflexivity|].
  intros Heq. apply (f_equal Prim2SF) in Heq. vm_compute in Heq.
  discriminate Heq.
Qed.

(** ** Caption truncation *)

Section StringLemmas.

Implicit Types (s : string) (c : ascii).

Lemma get_take_str n : ∀ s k,
  Py.get k (Py.take n s) = if (k <? n)%nat then Py.get k s else None.
Proof.
  induction n as [|n IH]; intros [|a s] [|k]; simpl; try done.
  all: first [by destruct (_ <? _)%nat | by rewrite IH].
Qed.

Lemma take_take_str m : ∀ n s, (m ≤ n)%nat → Py.take m (Py.take n s) = Py.take m s.
Proof.
  induction m as [|m IH]; intros [|n] [|a s] Hle; simpl; try done; try lia.
  f_equal. apply IH. lia.
Qed.

Lemma take_length_str n : ∀ s,
  String.length (Py.take n s) = (n `min` String.length s)%nat.
Proof. induction n as [|n IH]; intros [|a s]; simpl; auto. Qed.

(** [rfind_from] returns the remembered hit when [c] does not occur, and
    otherwise the position of the last occurrence. *)
Lemma rfind_from_spec c s : ∀ i acc,
  (Py.rfind_from c s i acc = acc ∧ ∀ k, Py.get k s ≠ Some c)
  ∨ (∃ k : nat, Py.rfind_from c s i acc = i + Z.of_nat k
       ∧ Py.get k s = Some c
       ∧ ∀ j, (k < j)%nat → Py.get j s ≠ Some c).
Proof.
  induction s as [|a s IH]; intros i acc; simpl.
  - left. split; [done|]. by intros [|k].
  - destruct (IH (i + 1) (if Ascii.eqb a c then i else acc))
      as [[Hr Hnone]|(k & Hr & Hk & Hlast)].
    + destruct (Ascii.eqb_spec a c) as [->|Hne].
      * right. exists 0%nat. rewrite Hr. split; [lia|]. split; [done|].
        intros [|j] Hj; [lia|]. apply Hnone.
      * left. split; [done|]. intros [|k]; simpl; [congruence|]. apply Hnone.
    + right. exists (S k). rewrite Hr. split; [lia|]. split; [done|].
      intros [|j] Hj; [lia|]. apply Hlast. lia.
Qed.

Lemma rfind_last c s (p : nat) :
  Py.get p s = Some c →
  (∀ j, (p < j)%nat → Py.get j s ≠ Some c) →
  Py.rfind c s = Z.of_nat p.
Proof.
  intros Hp Hlast. unfold Py.rfind.
  destruct (rfind_from_spec c s 0 (-1)) as [[_ Hnone]|(k & Hr & Hk & Hafter)].
  - by destruct (Hnone p).
  - rewrite Hr. destruct (lt_eq_lt_dec k p) as [[Hlt|Heq]|Hgt]; [|lia|].
    + by destruct (Hafter p Hlt).
    + by destruct (Hlast k Hgt).
Qed.

(** Without an occurrence above [bound], [rfind] stays at or below it. *)
Lemma rfind_le c s (bound : nat) :
  (∀ j, (bound < j)%nat → Py.get j s ≠ Some c) →
  Py.rfind c s ≤ Z.of_nat bound.
Proof.
  intros Hnone. unfold Py.rfind.
  destruct (rfind_from_spec c s 0 (-1)) as [[Hr _]|(k & Hr & Hk & _)];
    rewrite Hr; [lia|].
  destruct (le_lt_dec k bound) as [Hle|Hgt]; [lia|].
  by destruct (Hnone k Hgt).
Qed.

(** A checked range of positions holds no [c]. *)
Lemma no_char_between c s (lo n : nat) :
  forallb (fun q => negb (bool_decide (Py.get q s = Some c))) (seq lo n) = true →
  ∀ q, (lo ≤ q < lo + n)%nat → Py.get q s ≠ Some c.
Proof.
  rewrite forallb_forall. intros Hall q Hq.
  specialize (Hall q). rewrite in_seq in Hall. specialize (Hall Hq).
  apply negb_true_iff, bool_decide_eq_false in Hall. done.
Qed.

End StringLemmas.

Local Arguments Py.take : simpl never.
Local Arguments Py.rfind : simpl never.

(** C2, as amended.  A cleaned caption longer than 1400 characters is cut
    to its first 1400 characters and then back to the last period found
    strictly after offset 1200, that period kept; without a period at
    offsets 1201 to 1399 the 1400-character cut stands. *)
Theorem caption_truncation (caption : string) :
  1400 < Py.len caption →
  (∀ p : nat,
     (1200 < p < 1400)%nat →
     Py.get p caption = Some "."%char →
     (∀ q, (p < q < 1400)%nat → Py.get q caption ≠ Some "."%char) →
     caption_policy (JStr caption)
     = Some (Some (JStr (Py.slice_to (Z.of_nat p + 1) caption)))
     ∧ Py.len (Py.slice_to (Z.of_nat p + 1) caption) = Z.of_nat p + 1)
  ∧ ((∀ q, (1200 < q < 1400)%nat → Py.get q caption ≠ Some "."%char) →
     caption_policy (JStr caption)
     = Some (Some (JStr (Py.slice_to 1400 caption)))
     ∧ Py.len (Py.slice_to 1400 caption) = 1400).
Proof.
  intros Hlong. unfold Py.len in Hlong.
  assert (Hnone : ∀ j, (1400 ≤ j)%nat →
            Py.get j (Py.take 1400 caption) ≠ Some "."%char).
  { intros j Hj. rewrite get_take_str.
    destruct (Nat.ltb_spec j 1400); [lia|done]. }
  split.
  - intros p Hp Hperiod Hlast.
    assert (Hrfind : Py.rfind "." (Py.take 1400 caption) = Z.of_nat p).
    { apply rfind_last.
      - rewrite get_take_str. destruct (Nat.ltb_spec p 1400); [done|lia].
      - intros j Hj. destruct (le_lt_dec 1400 j) as [Hge|Hlt]; [by apply Hnone|].
        rewrite get_take_str. destruct (Nat.ltb_spec j 1400); [|lia].
        apply Hlast. lia. }
    split.
    + unfold caption_policy. simpl. unfold Py.len.
      destruct (Z.ltb_spec 1400 (Z.of_nat (String.length caption))); [|lia].
      simpl. unfold Py.slice_to.
      change (Z.to_nat 1400) with 1400%nat. rewrite !Hrfind.
      destruct (Z.ltb_spec 1200 (Z.of_nat p)); [|lia].
      simpl. unfold Py.slice_to. change (Z.to_nat 1400) with 1400%nat.
      rewrite take_take_str by lia. done.
    + unfold Py.len, Py.slice_to. rewrite take_length_str. lia.
  - intros Hclean.
    assert (Hrfind : Py.rfind "." (Py.take 1400 caption) ≤ 1200).
    { apply (rfind_le _ _ 1200). intros j Hj.
      destruct (le_lt_dec 1400 j) as [Hge|Hlt]; [by apply Hnone|].
      rewrite get_take_str. destruct (Nat.ltb_spec j 1400); [|lia].
      apply Hclean. lia. }
    split.
    + unfold caption_policy. simpl. unfold Py.len.
      destruct (Z.ltb_spec 1400 (Z.of_nat (String.length caption))); [|lia].
      simpl. unfold Py.slice_to.
      change (Z.to_nat 1400) with 1400%nat.
      destruct (Z.ltb_spec 1200 (Py.rfind "." (Py.take 1400 caption))); [lia|].
      done.
    + unfold Py.len, Py.slice_to. rewrite take_length_str.
      change (Z.to_nat 1400) with 1400%nat. lia.
Qed.

(** The 1500-character caption whose only period is at offset 1250 ends
    exactly at offset 1251. *)
Lemma caption_truncation_witness :
  caption_policy (JStr period_at_1250)
  = Some (Some (JStr (Py.slice_to 1251 period_at_1250)))
  ∧ Py.len (Py.slice_to 1251 period_at_1250) = 1251.
Proof.
  assert (Hlong : 1400 < Py.len period_at_1250) by (vm_compute; reflexivity).
  apply (proj1 (caption_truncation period_at_1250 Hlong) 1250%nat).
  - lia.
  - vm_compute. reflexivity.
  - intros q Hq. apply (no_char_between _ _ 1251 149); [|lia].
    vm_compute. reflexivity.
Defined.

(** C2, as stated, fails at offset 1200 itself: the only period of this
    1500-character caption is there, and the caption keeps its first 1400
    characters instead of ending at offset 1201. *)
Lemma caption_period_at_1200_ignored :
  Py.len period_at_1200 = 1500
  ∧ Py.get 1200 period_at_1200 = Some "."%char
  ∧ caption_policy (JStr period_at_1200)
    = Some (Some (JStr (Py.slice_to 1400 period_at_1200)))
  ∧ Py.len (Py.slice_to 1400 period_at_1200) = 1400
  ∧ Py.len (Py.slice_to 1201 period_at_1200) = 1201.
Proof. repeat split; vm_compute; reflexivity. Qed.

(** ** Batch validation *)

Section ParserLemmas.

Local Arguments clean_str : simpl never.
Local Arguments _format_caption_paragraphs : simpl never.
Local Arguments Py.len : simpl never.
Local Arguments Py.slice_to : simpl never.
Local Arguments Py.rfind : simpl never.
Local Arguments clean_tag : simpl never.
Local Arguments Z.ltb : simpl never.
Local Arguments Z.leb : simpl never.

Lemma clean_text_str s : _clean_text (JStr s) = Some (JStr (cleaned s)).
Proof. unfold _clean_text, cleaned. simpl. by case_bool_decide. Qed.

Lemma clean_str_empty : clean_str EmptyString = EmptyString.
Proof. reflexivity. Qed.

Lemma cleaned_len s : Py.len (cleaned s) = Py.len (clean_str s).
Proof.
  unfold cleaned. case_bool_decide as Hs; [|done].
  by rewrite Hs, clean_str_empty.
Qed.

Lemma caption_policy_rejects s :
  Py.len s < 1200 → caption_policy (JStr s) = Some None.
Proof.
  intros Hlen. unfold caption_policy. simpl.
  destruct (Z.ltb_spec 1400 (Py.len s)); [lia|].
  destruct (Z.ltb_spec (Py.len s) 1200); [done|lia].
Qed.

End ParserLemmas.

Section BatchLemmas.

Lemma forallb_zip_fst (f : json → bool) data : ∀ items : list FeedItem,
  forallb f data = true →
  forallb (fun p : json * FeedItem => f p.1) (zip data items) = true.
Proof.
  induction data as [|d data IH]; intros [|item items]; simpl; try done.
  intros [Hd Hdata]%andb_true_iff. rewrite Hd. simpl. by apply IH.
Qed.

Lemma parse_entries_length pairs : ∀ results summaries,
  parse_entries pairs results = Some summaries →
  (length summaries ≤ length results + length pairs)%nat.
Proof.
  induction pairs as [|[data item] rest IH]; intros results summaries; simpl.
  - intros [= <-]. lia.
  - destruct (parse_entry data (title item) (id item)) as [[summary|]|];
      simpl; [| |done].
    + intros H%IH. rewrite length_app in H. simpl in H. lia.
    + intros H%IH. lia.
Qed.

Lemma zip_take_both (data : list json) : ∀ items : list FeedItem,
  zip data items = zip (take (length items) data) (take (length data) items).
Proof.
  induction data as [|d data IH]; intros [|item items]; simpl; try done.
  f_equal. apply IH.
Qed.

Lemma batch_response_length decoded items :
  (length (default [] (_parse_batch_response decoded items))
   ≤ length items)%nat.
Proof.
  unfold _parse_batch_response.
  destruct decoded as [[| | | | |data|]|]; simpl; try lia.
  destruct (parse_entries (zip data items) []) as [summaries|] eqn:Hparse;
    simpl; [|lia].
  apply parse_entries_length in Hparse. simpl in Hparse.
  rewrite length_zip in Hparse. lia.
Qed.

End BatchLemmas.

(** A batch with a caption of 1199 characters between two in-policy objects:
    the second item has no summary. *)
Lemma thin_caption_batch_ids :
  fmap (M:=option) (fmap (M:=list) Summary.feed_item_id)
    (_parse_batch_response (Some (JArr [good_entry; thin_entry; good_entry]))
       [pictured "a1" "tech"; pictured "a2" "tech"; pictured "b1" "world"])
  = Some ["a1"; "b1"].
Proof. vm_compute. reflexivity. Qed.

(** An object that makes the parser raise is another matter: a number in
    place of an object loses the whole batch. *)
Lemma non_object_loses_batch :
  _parse_batch_response (Some (JArr [good_entry; JInt 5]))
    [pictured "a1" "tech"; pictured "b1" "world"] = None.
Proof. vm_compute. reflexivity. Qed.

(** ** Hashtags *)

Lemma normalize_hashtags_at_most_15 hashtags tags :
  normalize_hashtags hashtags = Some tags → (length tags ≤ 15)%nat.
Proof.
  unfold normalize_hashtags.
  destruct (Dyn.iter _) as [elements|]; simpl; [|done].
  destruct (mapM Dyn.as_str elements) as [texts|]; simpl; [|done].
  intros [= <-]. rewrite length_take. lia.
Qed.

Lemma no_space_after_filter l :
  Py.contains " "
    (Py.of_chars (List.filter (fun a => negb (Ascii.eqb a " ")) l)) = false.
Proof.
  induction l as [|a l IH]; [done|]. cbn [List.filter].
  destruct (Ascii.eqb_spec a " ") as [Heq|Hne]; cbn [negb]; [exact IH|].
  change (Py.of_chars (a :: ?k)) with (String a (Py.of_chars k)).
  cbn [Py.contains String.prefix].
  destruct (ascii_dec " " a) as [Heq|_]; [congruence|].
  cbn [orb]. exact IH.
Qed.

(** No tag keeps a space character. *)
Lemma clean_tag_no_space h : Py.contains " " (clean_tag h) = false.
Proof. apply no_space_after_filter. Qed.

(** A comma-joined string is split into its tags. *)
Lemma comma_joined_hashtags_split :
  normalize_hashtags (JStr "ai, #ml ,news") = Some ["ai"; "ml"; "news"].
Proof. vm_compute. reflexivity. Qed.

(** C9.  The hashtags of a produced summary can hold an empty tag and a tag
    with a leading hash sign: the backend's ["ai", "#", "# #news"] becomes
    ["ai", "", "#news"], empty tags being dropped before the hash signs are
    stripped and spaces removed after. *)
Theorem hashtags_keep_empty_and_hashed_tags :
  normalize_hashtags (JArr [JStr "ai"; JStr "#"; JStr "# #news"])
  = Some ["ai"; ""; "#news"]
  ∧ fmap (M:=option) (fmap (M:=list) Summary.hashtags)
      (_parse_batch_response (Some (JArr [tagged_entry]))
         [pictured "a1" "tech"])
    = Some [["ai"; ""; "#news"]].
Proof. split; vm_compute; reflexivity. Qed.

(** ** The retry loop *)

Section RangeLemmas.

Lemma seq_split_at (before : list Z) : ∀ (start n : nat) attempt rest,
  Z.of_nat <$> seq start n = before ++ attempt :: rest →
  attempt = Z.of_nat (start + length before)
  ∧ rest = Z.of_nat <$> seq (S (start + length before)) (n - S (length before)).
Proof.
  induction before as [|b before IH]; intros start [|n] attempt rest; simpl;
    try done.
  - intros [= <- <-]. rewrite Nat.add_0_r, Nat.sub_0_r. done.
  - intros [= _ H]. destruct (IH _ _ _ _ H) as [-> ->].
    rewrite !Nat.add_succ_r. done.
Qed.

(** Within [range(max_retries)], the test [attempt < max_retries - 1] holds
    exactly when attempts remain. *)
Lemma range_split max_retries before attempt rest :
  Py.range max_retries = before ++ attempt :: rest →
  attempt = Z.of_nat (length before)
  ∧ (attempt <? max_retries - 1) = negb (bool_decide (rest = []))
  ∧ match rest with
    | [] => True
    | next :: _ => next = attempt + 1
    end.
Proof.
  unfold Py.range. intros Hsplit.
  assert (Hlen : Z.to_nat max_retries
                 = (length before + S (length rest))%nat).
  { apply (f_equal length) in Hsplit.
    by rewrite length_fmap, length_seq, length_app in Hsplit. }
  change (List.map Z.of_nat) with (fmap (M:=list) Z.of_nat) in Hsplit.
  destruct (seq_split_at _ _ _ _ _ Hsplit) as [-> Hrest]. simpl in *.
  split; [done|]. split.
  - destruct rest as [|next rest]; simpl in *.
    + apply Z.ltb_ge. lia.
    + apply Z.ltb_lt. lia.
  - destruct rest as [|next rest]; [done|].
    destruct (Z.to_nat max_retries - S (length before))%nat; [done|].
    simpl in Hrest. injection Hrest as -> _. lia.
Qed.

End RangeLemmas.

(** C7.  At any iteration [attempt] of the retry loop ([summarize] and
    [summarize_items_batch] alike):
    - [ResourceExhausted] on a model other than the fallback switches to the
      fallback model and goes on to the next iteration with no [Sleep]; when
      attempts remain, the next event is the request to the fallback model;
    - [ResourceExhausted] on the fallback model, or any other error, is
      followed by [Sleep (2 ^ attempt)] when attempts remain (and by nothing
      otherwise), the model unchanged. *)
Theorem quota_fallback_skips_backoff {R : Type}
    (backend : Z → string → outcome) (parse : option json → option R)
    (failed : R) (max_retries : Z)
    (before : list Z) (attempt : Z) (rest : list Z) (current_model : string) :
  Py.range max_retries = before ++ attempt :: rest →
  let run := attempt_loop backend parse failed max_retries in
  (backend attempt current_model = ResourceExhausted →
   current_model ≠ fallback_model →
   run (attempt :: rest) current_model
   = after_events [Generate current_model attempt] (run rest fallback_model)
   ∧ (rest ≠ [] →
      ∃ later,
        (run (attempt :: rest) current_model).1
        = Generate current_model attempt
          :: Generate fallback_model (attempt + 1) :: later))
  ∧ (backend attempt current_model = ResourceExhausted
       ∧ current_model = fallback_model
     ∨ backend attempt current_model = OtherError →
     run (attempt :: rest) current_model
     = after_events
         (Generate current_model attempt
          :: match rest with
             | [] => []
             | _ => [Sleep (2 ^ attempt)]
             end)
         (run rest current_model)).
Proof.
  intros Hrange run. subst run.
  destruct (range_split _ _ _ _ Hrange) as (_ & Hremain & Hnext).
  assert (Hbackoff : backoff max_retries attempt
                     = match rest with [] => [] | _ => [Sleep (2 ^ attempt)] end).
  { unfold backoff. rewrite Hremain. by destruct rest. }
  split.
  - intros Hquota Hprimary.
    assert (Hstep : attempt_loop backend parse failed max_retries
                      (attempt :: rest) current_model
                    = after_events [Generate current_model attempt]
                        (attempt_loop backend parse failed max_retries rest
                           fallback_model)).
    { simpl. rewrite Hquota. rewrite bool_decide_true by done.
      by destruct (attempt_loop _ _ _ _ rest fallback_model). }
    split; [exact Hstep|].
    intros Hmore. rewrite Hstep.
    destruct rest as [|next rest']; [done|]. subst next. simpl.
    destruct (backend (attempt + 1) fallback_model) as [decoded| |].
    + destruct (parse decoded).
      * by eexists.
      * destruct (attempt_loop _ _ _ _ rest' fallback_model). by eexists.
    + destruct (attempt_loop _ _ _ _ rest' fallback_model). by eexists.
    + destruct (attempt_loop _ _ _ _ rest' fallback_model). by eexists.
  - intros Herror. simpl. rewrite <- Hbackoff.
    destruct Herror as [[Hquota Hfallback]|Hother].
    + rewrite Hquota. rewrite bool_decide_false by (intros H; by apply H).
      by destruct (attempt_loop _ _ _ _ rest current_model).
    + rewrite Hother.
      by destruct (attempt_loop _ _ _ _ rest current_model).
Qed.

(** The scenario of the specification: the primary model is out of quota,
    the fallback answers; the call succeeds at the second iteration and no
    [Sleep] happens. *)
Lemma quota_fallback_skips_backoff_witness :
  (summarize_items_batch default_settings quota_then_success
     [pictured "a1" "tech"] 3).1
  = [Generate "gemini-2.5-pro" 0; Generate fallback_model 1]
  ∧ length (summarize_items_batch default_settings quota_then_success
              [pictured "a1" "tech"] 3).2 = 1%nat.
Proof.
  pose proof (quota_fallback_skips_backoff quota_then_success
                (fun decoded =>
                   match _parse_batch_response decoded [pictured "a1" "tech"] with
                   | Some (summary :: summaries) => Some (summary :: summaries)
                   | _ => None
                   end)
                [] 3 [] 0 [1; 2] "gemini-2.5-pro" eq_refl) as [Hquota _].
  destruct (Hquota eq_refl ltac:(discriminate)) as [Hstep _].
  unfold summarize_items_batch, retry.
  change (Py.range 3) with [0; 1; 2].
  change (gemini_model default_settings) with "gemini-2.5-pro".
  rewrite Hstep. split; vm_compute; reflexivity.
Defined.

(** * Further properties *)

(** ** Ranking *)

Section FloatOrder.

Lemma SFcompare_Lt_Gt x y :
  SpecFloat.SFcompare x y = Some Lt → SpecFloat.SFcompare y x = Some Gt.
Proof.
  destruct x as [sx|sx| |sx mx ex], y as [sy|sy| |sy my ey]; simpl;
    try destruct sx; try destruct sy; try congruence.
  - rewrite (Z.compare_antisym ex ey).
    destruct (ex ?= ey); simpl; try congruence.
    change (Pos.compare_cont Eq my mx) with (Pos.compare my mx).
    change (Pos.compare_cont Eq mx my) with (Pos.compare mx my).
    rewrite (Pos.compare_antisym mx my).
    destruct (mx ?= my)%positive; simpl; congruence.
  - rewrite (Z.compare_antisym ex ey).
    destruct (ex ?= ey); simpl; try congruence.
    change (Pos.compare_cont Eq my mx) with (Pos.compare my mx).
    change (Pos.compare_cont Eq mx my) with (Pos.compare mx my).
    rewrite (Pos.compare_antisym mx my).
    destruct (mx ?= my)%positive; simpl; congruence.
Qed.

(** [<] on floats is asymmetric, NaN included. *)
Lemma ltb_asym x y : PrimFloat.ltb x y = true → PrimFloat.ltb y x = false.
Proof.
  rewrite !ltb_spec. unfold SpecFloat.SFltb.
  destruct (SpecFloat.SFcompare (Prim2SF x) (Prim2SF y)) as [[| |]|] eqn:Hxy;
    try done.
  intros _. by rewrite (SFcompare_Lt_Gt _ _ Hxy).
Qed.

Lemma ltb_irrefl x : PrimFloat.ltb x x = false.
Proof.
  destruct (PrimFloat.ltb x x) eqn:H; [|done].
  by rewrite (ltb_asym _ _ H) in H.
Qed.

End FloatOrder.

#[global] Instance float_eq_dec : EqDecision float.
Proof.
  intros x y. destruct (PrimFloat.Leibniz.eqb x y) eqn:Heq.
  - left. by apply FloatAxioms.Leibniz.eqb_spec.
  - right. intros H. apply FloatAxioms.Leibniz.eqb_spec in H. congruence.
Defined.

Section Ranking.

Implicit Types (x : FeedItem * float) (l : list (FeedItem * float)).

(** Insertion puts [x] behind elements of strictly higher score only. *)
Lemma insert_desc_split x l :
  ∃ l1 l2,
    l = l1 ++ l2 ∧ insert_desc x l = l1 ++ x :: l2
    ∧ Forall (fun y => PrimFloat.ltb x.2 y.2 = true) l1
    ∧ match l2 with
      | y :: _ => PrimFloat.ltb x.2 y.2 = false
      | [] => True
      end.
Proof.
  induction l as [|y r IH]; simpl.
  - by exists [], [].
  - destruct (PrimFloat.ltb x.2 y.2) eqn:Hlt.
    + destruct IH as (l1 & l2 & -> & -> & Hall & Hnext).
      exists (y :: l1), l2. repeat split; first [done | by constructor].
    + exists [], (y :: r). repeat split; first [done | by constructor].
Qed.

Lemma descending_insert x l : descending l → descending (insert_desc x l).
Proof.
  induction l as [|y r IH]; simpl; [done|].
  intros [Hy Hr]. destruct (PrimFloat.ltb x.2 y.2) eqn:Hlt; simpl.
  - split; [|by apply IH].
    destruct r as [|z r']; simpl.
    + by apply ltb_asym.
    + destruct (PrimFloat.ltb x.2 z.2); [done|by apply ltb_asym].
  - done.
Qed.

Lemma descending_sorted_desc l : descending (sorted_desc l).
Proof.
  induction l as [|x l IH]; simpl; [done|]. by apply descending_insert.
Qed.

Lemma descending_lookup l i x y :
  descending l → l !! i = Some x → l !! S i = Some y →
  PrimFloat.ltb x.2 y.2 = false.
Proof.
  revert i. induction l as [|a r IH]; intros i; [done|].
  intros [Hhead Hr]. destruct i as [|i]; simpl.
  - intros [= ->]. destruct r as [|b r']; [done|]. by intros [= ->].
  - by apply IH.
Qed.

Lemma filter_insert_desc (v : float) x l :
  filter (fun p : FeedItem * float => p.2 = v) (insert_desc x l)
  = filter (fun p : FeedItem * float => p.2 = v) (x :: l).
Proof.
  destruct (insert_desc_split x l) as (l1 & l2 & -> & -> & Hall & _).
  rewrite filter_cons, !filter_app, filter_cons.
  destruct (decide (x.2 = v)) as [Hv|Hv]; [|done].
  assert (Hnone : filter (fun p : FeedItem * float => p.2 = v) l1 = []).
  { clear -Hall Hv. induction Hall as [|y l1 Hy _ IH]; [done|].
    rewrite filter_cons_False; [done|].
    intros Hyv. rewrite Hv, Hyv, ltb_irrefl in Hy. done. }
  by rewrite Hnone.
Qed.

End Ranking.

(** X1.  [rank_items] returns the items, each paired with the score
    computed for it, reordered so that no item is directly followed by one
    of strictly higher score. *)
Theorem rank_items_sorted_permutation
    (feeds : list FeedEntry) (clock : nat → datetime) (items : list FeedItem) :
  rank_items feeds clock items ≡ₚ scored_in_order feeds clock items
  ∧ ∀ i x y,
      rank_items feeds clock items !! i = Some x →
      rank_items feeds clock items !! S i = Some y →
      PrimFloat.ltb x.2 y.2 = false.
Proof.
  split.
  - apply sorted_desc_Permutation.
  - intros i x y. apply descending_lookup, descending_sorted_desc.
Qed.

(** X2.  When no score is NaN, the ranking is stable: the items that have
    one and the same score come out in the order they came in.  (With a NaN
    among the scores the comparisons of [sorted] are no order, and its
    result is outside this embedding.) *)
Theorem rank_items_stable
    (feeds : list FeedEntry) (clock : nat → datetime) (items : list FeedItem)
    (score : float) :
  Forall (fun p : FeedItem * float => is_nan p.2 = false)
    (scored_in_order feeds clock items) →
  filter (fun p : FeedItem * float => p.2 = score)
    (rank_items feeds clock items)
  = filter (fun p : FeedItem * float => p.2 = score)
      (scored_in_order feeds clock items).
Proof.
  intros _. unfold rank_items. fold (scored_in_order feeds clock items).
  induction (scored_in_order feeds clock items) as [|x l IH]; simpl; [done|].
  rewrite filter_insert_desc, !filter_cons. by rewrite IH.
Qed.

(** Two items of score 0.78 around one of score 0.65: the two keep their
    order. *)
Lemma rank_items_stable_witness :
  (filter (fun p : FeedItem * float => p.2 = 0.78%float)
     (rank_items [] (fun _ => 0)
        [pictured "a1" "tech"; article "a2" "tech" None;
         pictured "b1" "world"])).*1
  = [pictured "a1" "tech"; pictured "b1" "world"].
Proof.
  rewrite (rank_items_stable [] (fun _ => 0)
             [pictured "a1" "tech"; article "a2" "tech" None;
              pictured "b1" "world"] 0.78%float).
  - vm_compute. reflexivity.
  - repeat constructor.
Defined.

(** ** Selection: the quota, duplicates and the order of the result *)

Section Quota.

Implicit Types (sel l : list FeedItem).

Lemma filter_ext_elem (P Q : FeedItem → Prop)
    `{!∀ x, Decision (P x)} `{!∀ x, Decision (Q x)} l :
  (∀ x, x ∈ l → (P x ↔ Q x)) → filter P l = filter Q l.
Proof.
  induction l as [|x l IH]; intros Hext; [done|].
  rewrite !filter_cons.
  rewrite IH by (intros y Hy; apply Hext; by right).
  destruct (decide (P x)) as [HP|HP], (decide (Q x)) as [HQ|HQ]; try done;
    exfalso; apply (Hext x (list_elem_of_here _ _)) in HP || apply HP;
    try done; by apply (Hext x (list_elem_of_here _ _)).
Qed.

Lemma backfill_prefix top_n scored : ∀ sel,
  sel `prefix_of` backfill top_n scored sel.
Proof.
  induction scored as [|[item score] rest IH]; intros sel; simpl; [done|].
  set (sel' := if bool_decide (item ∈ sel) then sel else sel ++ [item]).
  assert (Hsel' : sel `prefix_of` sel').
  { subst sel'. case_bool_decide; [done|]. by apply prefix_app_r. }
  destruct (top_n <=? Z.of_nat (length sel')); [done|].
  etrans; [exact Hsel'|apply IH].
Qed.

Lemma backfill_NoDup top_n scored : ∀ sel,
  NoDup sel → NoDup (backfill top_n scored sel).
Proof.
  induction scored as [|[item score] rest IH]; intros sel Hsel; simpl; [done|].
  set (sel' := if bool_decide (item ∈ sel) then sel else sel ++ [item]).
  assert (Hsel' : NoDup sel').
  { subst sel'. case_bool_decide as Hin; [done|].
    apply NoDup_app. split; [done|]. split; [|apply NoDup_singleton].
    intros x Hx ->%list_elem_of_singleton. done. }
  destruct (top_n <=? Z.of_nat (length sel')); [done|]. by apply IH.
Qed.

(** The second loop fills the selection up to [top_n] as far as there are
    candidates not yet selected. *)
Lemma backfill_fills top_n scored : ∀ sel,
  NoDup scored.*1 →
  Z.of_nat (length sel) < top_n →
  Z.of_nat (length (backfill top_n scored sel))
  = Z.min top_n
      (Z.of_nat (length sel + length (filter (fun x => x ∉ sel) scored.*1))).
Proof.
  induction scored as [|[item score] rest IH]; intros sel Hnodup Hlt.
  - simpl. lia.
  - rewrite fmap_cons in Hnodup. apply NoDup_cons in Hnodup as [Hfresh Hnodup].
    cbn [backfill]. rewrite fmap_cons, filter_cons. cbn [fst].
    case_bool_decide as Hin.
    + rewrite decide_False by (intros H; by apply H).
      destruct (Z.leb_spec top_n (Z.of_nat (length sel))); [lia|].
      by apply IH.
    + rewrite decide_True by done.
      assert (Hsame :
        filter (fun x => x ∉ sel ++ [item]) rest.*1
        = filter (fun x => x ∉ sel) rest.*1).
      { apply filter_ext_elem. intros x Hx.
        rewrite elem_of_app, list_elem_of_singleton.
        split; [tauto|]. intros Hnot [?| ->]; done. }
      destruct (Z.leb_spec top_n (Z.of_nat (length (sel ++ [item]))))
        as [Hfull|Hfree].
      * rewrite length_app in *. simpl in *. lia.
      * rewrite (IH (sel ++ [item]) Hnodup Hfree), Hsame, length_app.
        simpl. f_equal. lia.
Qed.

(** In a duplicate-free list, what is not in a sub-selection is the rest. *)
Lemma length_not_selected sel l :
  NoDup l → sel ⊆+ l →
  (length sel + length (filter (fun x => x ∉ sel) l) = length l)%nat.
Proof.
  intros Hnodup Hsub.
  apply submseteq_Permutation in Hsub as [k Hperm].
  rewrite Hperm in Hnodup |- *.
  apply NoDup_app in Hnodup as (_ & Hdisjoint & _).
  rewrite filter_app, !length_app. f_equal.
  assert (Hnone : filter (fun x => x ∉ sel) sel = []).
  { rewrite (filter_ext_elem _ (fun _ => False) sel).
    - clear. induction sel as [|x sel IH]; [done|].
      by rewrite filter_cons_False by tauto.
    - intros x Hx. split; [intros H; by apply H|done]. }
  assert (Hall : filter (fun x => x ∉ sel) k = k).
  { rewrite (filter_ext_elem _ (fun _ => True) k).
    - clear. induction k as [|x k IH]; [done|].
      by rewrite filter_cons_True, IH by done.
    - intros x Hx. split; [done|]. intros _ Hin. by apply (Hdisjoint x). }
  by rewrite Hnone, Hall.
Qed.

End Quota.

(** X3.  From candidates that are pairwise distinct,
    [ensure_category_diversity] returns exactly [top_n] items when there
    are that many candidates, and all of them otherwise: the quota is never
    left unfilled while candidates remain. *)
Theorem ensure_category_diversity_fills_quota
    (scored_items : list (FeedItem * float)) (top_n : Z) :
  NoDup scored_items.*1 →
  0 ≤ top_n →
  Z.of_nat (length (ensure_category_diversity scored_items top_n))
  = Z.min top_n (Z.of_nat (length scored_items)).
Proof.
  intros Hnodup Hnn. unfold ensure_category_diversity.
  destruct (Z.leb_spec (Z.of_nat (length scored_items)) top_n) as [Hfew|Hmany].
  - rewrite length_fmap. lia.
  - fold (max_per_category top_n).
    fold (admitted_under_cap scored_items top_n).
    destruct (admitted_under_cap_inv scored_items top_n)
      as (_ & Hsub & Hlen & _).
    destruct (Z.ltb_spec
                (Z.of_nat (length (admitted_under_cap scored_items top_n)))
                top_n) as [Hlt|Hge]; [|lia].
    rewrite backfill_fills by done.
    rewrite length_not_selected by (by try apply sublist_submseteq).
    rewrite length_fmap. lia.
Qed.

(** Five distinct candidates, of which four are of one category: with
    [top_n = 4] the result has four items. *)
Lemma ensure_category_diversity_fills_quota_witness :
  Z.of_nat (length (ensure_category_diversity lopsided 4))
  = Z.min 4 (Z.of_nat (length lopsided)).
Proof.
  apply (ensure_category_diversity_fills_quota lopsided 4); [|lia].
  apply (bool_decide_unpack _). vm_compute. reflexivity.
Defined.

(** X4.  [ensure_category_diversity] selects no item twice when the
    candidates are pairwise distinct. *)
Theorem ensure_category_diversity_NoDup
    (scored_items : list (FeedItem * float)) (top_n : Z) :
  NoDup scored_items.*1 →
  NoDup (ensure_category_diversity scored_items top_n).
Proof.
  intros Hnodup. unfold ensure_category_diversity.
  destruct (Z.of_nat (length scored_items) <=? top_n); [done|].
  fold (max_per_category top_n). fold (admitted_under_cap scored_items top_n).
  destruct (admitted_under_cap_inv scored_items top_n) as (_ & Hsub & _ & _).
  assert (Hadmitted : NoDup (admitted_under_cap scored_items top_n))
    by (by eapply sublist_NoDup).
  destruct (_ <? top_n); [by apply backfill_NoDup|done].
Qed.

Lemma ensure_category_diversity_NoDup_witness :
  NoDup (ensure_category_diversity lopsided 4).
Proof.
  apply (ensure_category_diversity_NoDup lopsided 4).
  apply (bool_decide_unpack _). vm_compute. reflexivity.
Defined.

(** X5.  With more candidates than [top_n], the result of
    [ensure_category_diversity] begins with the capped selection, which is
    in rank order and within the cap for every category; the backfill only
    appends to it, and appends nothing when the capped selection has
    [top_n] items. *)
Theorem ensure_category_diversity_order
    (scored_items : list (FeedItem * float)) (top_n : Z) :
  top_n < Z.of_nat (length scored_items) →
  ∃ backfilled,
    ensure_category_diversity scored_items top_n
    = admitted_under_cap scored_items top_n ++ backfilled
    ∧ admitted_under_cap scored_items top_n `sublist_of` scored_items.*1
    ∧ (∀ c, contributes c (admitted_under_cap scored_items top_n)
            ≤ max_per_category top_n)
    ∧ (top_n ≤ Z.of_nat (length (admitted_under_cap scored_items top_n)) →
       backfilled = []).
Proof.
  intros Hmany. unfold ensure_category_diversity.
  destruct (Z.leb_spec (Z.of_nat (length scored_items)) top_n); [lia|].
  fold (max_per_category top_n). fold (admitted_under_cap scored_items top_n).
  destruct (admitted_under_cap_inv scored_items top_n) as (Hcap & Hsub & _ & _).
  destruct (Z.ltb_spec
              (Z.of_nat (length (admitted_under_cap scored_items top_n)))
              top_n) as [Hlt|Hge].
  - destruct (backfill_prefix top_n scored_items
                (admitted_under_cap scored_items top_n)) as [backfilled ->].
    exists backfilled. repeat split; try done. lia.
  - exists []. rewrite app_nil_r. by repeat split.
Qed.

Lemma ensure_category_diversity_order_witness :
  ∃ backfilled,
    ensure_category_diversity lopsided 4
    = admitted_under_cap lopsided 4 ++ backfilled
    ∧ admitted_under_cap lopsided 4 `sublist_of` lopsided.*1
    ∧ (∀ c, contributes c (admitted_under_cap lopsided 4)
            ≤ max_per_category 4)
    ∧ (4 ≤ Z.of_nat (length (admitted_under_cap lopsided 4)) →
       backfilled = []).
Proof.
  apply (ensure_category_diversity_order lopsided 4).
  vm_compute. reflexivity.
Defined.

(** ** New items *)

Section NewItems.

Lemma keep_new_items_spec last_run items : ∀ new_items,
  keep_new_items last_run items new_items
  = new_items ++ filter (fun item => is_new last_run item) items.
Proof.
  induction items as [|item rest IH]; intros new_items; simpl.
  - by rewrite app_nil_r.
  - destruct (is_new last_run item) eqn:Hnew.
    + rewrite filter_cons_True by (by rewrite Hnew).
      unfold is_new in Hnew.
      destruct (published_date item) as [published|];
        rewrite ?Hnew, IH; by rewrite <- app_assoc.
    + rewrite filter_cons_False by (rewrite Hnew; intros []).
      unfold is_new in Hnew.
      destruct (published_date item) as [published|]; [|done].
      by rewrite Hnew, IH.
Qed.

Lemma filter_feeds_spec last_run parsed_feeds : ∀ new_items,
  filter_feeds last_run parsed_feeds new_items
  = new_items
    ++ filter (fun item => is_new last_run item) (fetched_items parsed_feeds).
Proof.
  unfold fetched_items.
  induction parsed_feeds as [|feed rest IH]; intros new_items; simpl.
  - by rewrite app_nil_r.
  - destruct (truthy (Feed.error feed)) eqn:Herr.
    + rewrite filter_cons_False by (rewrite Herr; intros H; by apply H).
      by rewrite IH.
    + rewrite filter_cons_True by (rewrite Herr; intros []).
      rewrite IH, keep_new_items_spec, fmap_cons. simpl.
      by rewrite filter_app, app_assoc.
Qed.

End NewItems.

(** X6.  [filter_new_items] returns, in feed order, exactly the items of
    the feeds fetched without error that are undated or were published
    strictly after the last run. *)
Theorem filter_new_items_spec
    (last_run : datetime) (parsed_feeds : list ParsedFeed) :
  filter_new_items last_run parsed_feeds
  = filter (fun item => is_new last_run item) (fetched_items parsed_feeds).
Proof. unfold filter_new_items. by rewrite filter_feeds_spec. Qed.

(** ** Cleaned text *)

Section Chars.

Implicit Types (l k : list ascii) (s : string) (p : ascii → bool).

Lemma chars_of_chars l : Py.chars (Py.of_chars l) = l.
Proof. apply list_ascii_of_string_of_list_ascii. Qed.

Lemma of_chars_chars s : Py.of_chars (Py.chars s) = s.
Proof. apply string_of_list_ascii_of_string. Qed.

Lemma length_chars s : length (Py.chars s) = String.length s.
Proof. induction s as [|a s IH]; simpl; [done|]. by rewrite <- IH. Qed.

Lemma len_of_chars l : Py.len (Py.of_chars l) = Z.of_nat (length l).
Proof. unfold Py.len. by rewrite <- length_chars, chars_of_chars. Qed.

Lemma len_chars s : Py.len s = Z.of_nat (length (Py.chars s)).
Proof. unfold Py.len. by rewrite length_chars. Qed.

Lemma chars_append s1 s2 : Py.chars (s1 +:+ s2) = Py.chars s1 ++ Py.chars s2.
Proof. induction s1 as [|a s1 IH]; simpl; [done|]. by rewrite <- IH. Qed.

(** [drop_while] returns a suffix whose head does not satisfy [p]. *)
Lemma drop_while_suffix p l :
  ∃ dropped, l = dropped ++ Py.drop_while p l
    ∧ Forall (fun c => p c = true) dropped.
Proof.
  induction l as [|c l IH]; simpl.
  - by exists [].
  - destruct (p c) eqn:Hc.
    + destruct IH as (dropped & Heq & Hall). exists (c :: dropped).
      split; [simpl; by rewrite <- Heq|by constructor].
    + by exists [].
Qed.

Lemma drop_while_head p l :
  from_option p false (head (Py.drop_while p l)) = false.
Proof.
  induction l as [|c l IH]; simpl; [done|].
  destruct (p c) eqn:Hc; [done|]. simpl. done.
Qed.

Lemma drop_while_app p l c :
  Py.drop_while p (l ++ [c])
  = match Py.drop_while p l with
    | [] => if p c then [] else [c]
    | k => k ++ [c]
    end.
Proof.
  induction l as [|d l IH]; simpl; [done|].
  destruct (p d); [exact IH|done].
Qed.

Lemma rev_drop_while_rev p l : rev (Py.drop_while p (rev l)) = drop_end p l.
Proof.
  induction l as [|c r IH]; simpl; [done|].
  rewrite drop_while_app, <- IH.
  destruct (Py.drop_while p (rev r)) as [|d k]; simpl.
  - by destruct (p c).
  - rewrite rev_app_distr. simpl.
    destruct (rev k ++ [d]) eqn:Hk; [by destruct (rev k)|done].
Qed.

Lemma strip_where_chars p s :
  Py.chars (Py.strip_where p s) = drop_end p (Py.drop_while p (Py.chars s)).
Proof.
  unfold Py.strip_where. by rewrite chars_of_chars, rev_drop_while_rev.
Qed.

Lemma drop_end_prefix p l :
  ∃ dropped, l = drop_end p l ++ dropped
    ∧ Forall (fun c => p c = true) dropped.
Proof.
  induction l as [|c r IH]; simpl.
  - by exists [].
  - destruct IH as (dropped & Heq & Hall).
    destruct (drop_end p r) as [|d r'] eqn:Hr.
    + destruct (p c) eqn:Hc.
      * exists (c :: dropped). simpl in Heq. subst r.
        split; [done|by constructor].
      * exists dropped. simpl in *. split; [by rewrite <- Heq|done].
    + exists dropped. split; [|done]. simpl in *. by f_equal.
Qed.

Lemma drop_end_head p l :
  drop_end p l ≠ [] → head (drop_end p l) = head l.
Proof.
  destruct l as [|c r]; simpl; [done|].
  destruct (drop_end p r); [|done]. by destruct (p c).
Qed.

Lemma drop_end_last p l :
  from_option p false (last (drop_end p l)) = false.
Proof.
  induction l as [|c r IH]; simpl; [done|].
  destruct (drop_end p r) as [|d r'] eqn:Hr.
  - destruct (p c) eqn:Hc; simpl; [done|exact Hc].
  - exact IH.
Qed.

End Chars.

Section CleanText.

Implicit Types (l k : list ascii) (s : string).

Lemma single_spaced_collapse l : ∀ in_run,
  single_spaced (collapse_spaces in_run l) = true
  ∧ (in_run = true →
     from_option Py.is_space false (head (collapse_spaces in_run l)) = false).
Proof.
  induction l as [|c r IH]; intros in_run; simpl; [done|].
  destruct (Py.is_space c) eqn:Hc.
  - destruct in_run.
    + apply IH.
    + split; [|done]. destruct (IH true) as [Hr Hhead]. simpl.
      rewrite Hr, andb_true_r. specialize (Hhead eq_refl).
      destruct (collapse_spaces true r) as [|d k]; [done|].
      simpl in Hhead. by rewrite Hhead.
  - destruct (IH false) as [Hr _]. simpl. rewrite Hc, Hr. simpl.
    split; [done|]. by intros _.
Qed.

Lemma single_spaced_suffix k l :
  single_spaced (k ++ l) = true → single_spaced l = true.
Proof.
  induction k as [|c k IH]; simpl; [done|].
  intros [_ H]%andb_true_iff. by apply IH.
Qed.

Lemma single_spaced_prefix l k :
  single_spaced (l ++ k) = true → single_spaced l = true.
Proof.
  induction l as [|c l IH]; simpl; [done|].
  intros [[Hc Hnext]%andb_true_iff Hrest]%andb_true_iff.
  rewrite Hc, (IH Hrest), andb_true_r. simpl.
  destruct l as [|d l]; simpl in *; [by rewrite andb_false_r|done].
Qed.

Lemma single_spaced_no_newline l :
  single_spaced l = true → filter (fun c => c = newline) l = [].
Proof.
  induction l as [|c l IH]; simpl; [done|].
  intros [[Hc _]%andb_true_iff Hrest]%andb_true_iff.
  rewrite filter_cons_False; [by apply IH|].
  intros ->. by vm_compute in Hc.
Qed.

Lemma match_prefix_ci_length pattern : ∀ s rest,
  match_prefix_ci pattern s = Some rest →
  (String.length rest ≤ String.length s)%nat.
Proof.
  induction pattern as [|a pattern IH]; intros [|b s] rest; simpl; try done.
  - by intros [= <-].
  - by intros [= <-].
  - destruct (Ascii.eqb _ _); [|done]. intros H%IH. lia.
Qed.

Lemma drop_while_length {A} (p : A → bool) (l : list A) :
  (length (Py.drop_while p l) ≤ length l)%nat.
Proof.
  induction l as [|x l IH]; simpl; [done|]. destruct (p x); simpl; lia.
Qed.

Lemma drop_end_length p l : (length (drop_end p l) ≤ length l)%nat.
Proof.
  destruct (drop_end_prefix p l) as (dropped & Heq & _).
  rewrite Heq at 2. rewrite length_app. lia.
Qed.

Lemma sub_prefix_length prefix s : Py.len (sub_prefix prefix s) ≤ Py.len s.
Proof.
  unfold sub_prefix.
  destruct (match_prefix_ci prefix s) as [rest|] eqn:Hmatch; [|done].
  apply match_prefix_ci_length in Hmatch.
  rewrite len_of_chars. unfold Py.len.
  pose proof (drop_while_length Py.is_space (Py.chars rest)) as Hdrop.
  rewrite length_chars in Hdrop. lia.
Qed.

Lemma remove_prefixes_length prefixes : ∀ s,
  Py.len (foldl (fun cleaned prefix => sub_prefix prefix cleaned) s prefixes)
  ≤ Py.len s.
Proof.
  induction prefixes as [|prefix prefixes IH]; intros s; simpl; [done|].
  etrans; [apply IH|apply sub_prefix_length].
Qed.

Lemma filter_length_le_list {A} (f : A → bool) (l : list A) :
  (length (List.filter f l) ≤ length l)%nat.
Proof.
  induction l as [|x l IH]; simpl; [done|]. destruct (f x); simpl; lia.
Qed.

Lemma collapse_spaces_length l : ∀ in_run,
  (length (collapse_spaces in_run l) ≤ length l)%nat.
Proof.
  induction l as [|c r IH]; intros in_run; simpl; [done|].
  pose proof (IH true). pose proof (IH false).
  destruct (Py.is_space c); [destruct in_run|]; simpl; lia.
Qed.

Lemma strip_length s : Py.len (Py.strip s) ≤ Py.len s.
Proof.
  rewrite (len_chars (Py.strip s)), (len_chars s).
  unfold Py.strip. rewrite strip_where_chars.
  pose proof (drop_end_length Py.is_space
                (Py.drop_while Py.is_space (Py.chars s))).
  pose proof (drop_while_length Py.is_space (Py.chars s)). lia.
Qed.

Lemma clean_str_length s : Py.len (clean_str s) ≤ Py.len s.
Proof.
  unfold clean_str.
  etrans; [apply strip_length|]. rewrite len_of_chars.
  etrans; [apply inj_le, collapse_spaces_length|].
  rewrite chars_of_chars.
  etrans; [apply inj_le, filter_length_le_list|].
  rewrite <- len_chars. apply remove_prefixes_length.
Qed.

Lemma clean_str_tidy s :
  tidy (clean_str s) = true ∧ newlines (clean_str s) = 0%nat.
Proof.
  unfold tidy, newlines, clean_str, Py.strip.
  rewrite strip_where_chars, chars_of_chars.
  set (collapsed := collapse_spaces false _).
  assert (Hcollapsed : single_spaced collapsed = true)
    by apply single_spaced_collapse.
  destruct (drop_while_suffix Py.is_space collapsed) as (k1 & Hk1 & _).
  rewrite Hk1 in Hcollapsed. apply single_spaced_suffix in Hcollapsed.
  set (body := Py.drop_while Py.is_space collapsed) in *.
  destruct (drop_end_prefix Py.is_space body) as (k2 & Hk2 & _).
  rewrite Hk2 in Hcollapsed. apply single_spaced_prefix in Hcollapsed.
  split; [|by rewrite single_spaced_no_newline].
  rewrite Hcollapsed. unfold trimmed. rewrite drop_end_last, andb_true_r.
  simpl. destruct (drop_end Py.is_space body) as [|c r] eqn:Hend; [done|].
  assert (Hhead : head (drop_end Py.is_space body) = head body)
    by (apply drop_end_head; by rewrite Hend).
  rewrite Hend in Hhead. rewrite Hhead. subst body.
  by rewrite drop_while_head.
Qed.

End CleanText.

(** X7.  Whatever text it is given, [_clean_text] returns a text that is
    no longer than it, has no whitespace at either end and no newline, and
    whose whitespace characters are single spaces. *)
Theorem clean_text_normalizes (text : string) :
  ∃ result,
    _clean_text (JStr text) = Some (JStr result)
    ∧ Py.len result ≤ Py.len text
    ∧ tidy result = true
    ∧ newlines result = 0%nat.
Proof.
  exists (cleaned text). split; [apply clean_text_str|].
  unfold cleaned. case_bool_decide as Hempty.
  - subst text. by repeat split.
  - split; [apply clean_str_length|apply clean_str_tidy].
Qed.

(** ** Paragraph reflow *)

Section Reflow.

Context (P : ascii → Prop) `{!∀ c, Decision (P c)}.
Implicit Types (l cur : list ascii) (s sep caption : string).

Lemma filter_chars_join_blank sep parts :
  filter P (Py.chars sep) = [] →
  filter P (Py.chars (Py.join sep parts))
  = concat ((fun s => filter P (Py.chars s)) <$> parts).
Proof.
  intros Hsep. induction parts as [|p [|q rest] IH]; [done| |].
  - simpl. by rewrite app_nil_r.
  - change (Py.join sep (p :: q :: rest))
      with (p +:+ sep +:+ Py.join sep (q :: rest)).
    by rewrite !chars_append, !filter_app, Hsep, IH.
Qed.

Lemma count_chars_join sep parts :
  parts ≠ [] →
  (length (filter P (Py.chars (Py.join sep parts)))
   + length (filter P (Py.chars sep))
   = sum_list_with
       (fun s => length (filter P (Py.chars s))
                 + length (filter P (Py.chars sep))) parts)%nat.
Proof.
  induction parts as [|p [|q rest] IH]; intros Hne; [done| |].
  - simpl. lia.
  - change (Py.join sep (p :: q :: rest))
      with (p +:+ sep +:+ Py.join sep (q :: rest)).
    rewrite !chars_append, !filter_app, !length_app.
    change (sum_list_with ?f (p :: ?r)) with (f p + sum_list_with f r)%nat. cbv beta.
    rewrite <- IH by done. lia.
Qed.

Lemma split_sentences_nonempty l : ∀ in_gap after_end cur,
  split_sentences in_gap after_end cur l ≠ [].
Proof.
  induction l as [|c r IH]; intros in_gap after_end cur; simpl; [done|].
  destruct (Py.is_space c); [|apply IH].
  destruct in_gap; [apply IH|]. destruct after_end; [done|apply IH].
Qed.

(** What [re.split] drops is whitespace. *)
Lemma split_sentences_ink l : ∀ in_gap after_end cur,
  (∀ c, Py.is_space c = true → ¬ P c) →
  concat ((fun s => filter P (Py.chars s))
            <$> split_sentences in_gap after_end cur l)
  = filter P (rev cur) ++ filter P l.
Proof.
  induction l as [|c r IH]; intros in_gap after_end cur Hspace; simpl.
  - by rewrite chars_of_chars, !app_nil_r.
  - destruct (Py.is_space c) eqn:Hc.
    + rewrite (filter_cons_False _ c r) by by apply Hspace.
      destruct in_gap; [by apply IH|].
      destruct after_end.
      * simpl. rewrite chars_of_chars. f_equal. by rewrite IH.
      * rewrite IH by done. simpl. rewrite filter_app.
        rewrite (filter_cons_False _ c []) by by apply Hspace.
        by rewrite filter_nil, app_nil_r.
    + rewrite IH by done. simpl. rewrite filter_app, <- app_assoc.
      f_equal. destruct (decide (P c)).
      * by rewrite !filter_cons_True.
      * by rewrite !filter_cons_False.
Qed.

(** Every separator [re.split] drops holds a whitespace character. *)
Lemma split_sentences_count (k : nat) l : ∀ in_gap after_end cur,
  (∀ c, Py.is_space c = true → (k ≤ length (filter P [c]))%nat) →
  (sum_list_with (fun s => length (filter P (Py.chars s)) + k)
     (split_sentences in_gap after_end cur l)
   ≤ length (filter P (rev cur)) + length (filter P l) + k)%nat.
Proof.
  induction l as [|c r IH]; intros in_gap after_end cur Hspace.
  - simpl. rewrite chars_of_chars. lia.
  - assert (Hcons : length (filter P (c :: r))
                    = (length (filter P [c]) + length (filter P r))%nat).
    { change (c :: r) with ([c] ++ r). by rewrite filter_app, length_app. }
    assert (Hcur : length (filter P (rev (c :: cur)))
                   = (length (filter P (rev cur)) + length (filter P [c]))%nat).
    { simpl. by rewrite filter_app, length_app. }
    pose proof (IH true false cur Hspace).
    pose proof (IH true false [] Hspace) as Hnew.
    pose proof (IH false false (c :: cur) Hspace).
    pose proof (IH false (is_sentence_end c) (c :: cur) Hspace).
    simpl split_sentences. destruct (Py.is_space c) eqn:Hc.
    + pose proof (Hspace c Hc).
      destruct in_gap; [lia|]. destruct after_end; [|lia].
      change (sum_list_with ?f (?p :: ?r)) with (f p + sum_list_with f r)%nat. cbv beta.
      rewrite chars_of_chars. simpl in Hnew. lia.
    + lia.
Qed.

Lemma filter_whitespace_nil l :
  (∀ c, Py.is_space c = true → ¬ P c) →
  Forall (fun c => Py.is_space c = true) l → filter P l = [].
Proof.
  intros Hspace. induction 1 as [|c l Hc _ IH]; [done|].
  rewrite filter_cons_False by by apply Hspace. done.
Qed.

Lemma strip_parts s :
  ∃ before after,
    Py.chars s = before ++ Py.chars (Py.strip s) ++ after
    ∧ Forall (fun c => Py.is_space c = true) before
    ∧ Forall (fun c => Py.is_space c = true) after.
Proof.
  unfold Py.strip. rewrite strip_where_chars.
  destruct (drop_while_suffix Py.is_space (Py.chars s)) as (k1 & Hk1 & Hall1).
  destruct (drop_end_prefix Py.is_space (Py.drop_while Py.is_space (Py.chars s)))
    as (k2 & Hk2 & Hall2).
  exists k1, k2. split; [|done]. by rewrite <- Hk2.
Qed.

Lemma strip_ink s :
  (∀ c, Py.is_space c = true → ¬ P c) →
  filter P (Py.chars (Py.strip s)) = filter P (Py.chars s).
Proof.
  intros Hspace. destruct (strip_parts s) as (k1 & k2 & -> & Hk1 & Hk2).
  rewrite !filter_app, (filter_whitespace_nil k1), (filter_whitespace_nil k2)
    by done.
  by rewrite app_nil_r.
Qed.

Lemma strip_count s :
  (length (filter P (Py.chars (Py.strip s)))
   ≤ length (filter P (Py.chars s)))%nat.
Proof.
  destruct (strip_parts s) as (k1 & k2 & -> & _).
  rewrite !filter_app, !length_app. lia.
Qed.

(** The loop groups the sentences in order, closing at most
    [num_paragraphs - 1] paragraphs. *)
Lemma group_sentences_groups target n sentences : ∀ paragraphs current len,
  ∃ groups rest,
    group_sentences target n sentences paragraphs current len
    = (paragraphs ++ (Py.join " " <$> groups), rest)
    ∧ concat groups ++ rest = current ++ sentences
    ∧ Forall (fun g => g ≠ []) groups
    ∧ Z.of_nat (length paragraphs + length groups)
      ≤ Z.max (Z.of_nat (length paragraphs)) (n - 1).
Proof.
  induction sentences as [|sentence rest IH]; intros paragraphs current len.
  - exists [], current. simpl. rewrite !app_nil_r. repeat split; [done|lia].
  - simpl.
    destruct ((target <=? len + Py.len sentence)
              && (Z.of_nat (length paragraphs) <? n - 1)) eqn:Hclose.
    + apply andb_true_iff in Hclose as [_ Hroom%Z.ltb_lt].
      destruct (IH (paragraphs ++ [Py.join " " (current ++ [sentence])]) [] 0)
        as (groups & last & -> & Hflat & Hne & Hcount).
      exists ((current ++ [sentence]) :: groups), last.
      rewrite <- app_assoc. simpl. split; [done|]. split.
      { rewrite <- !app_assoc. simpl in Hflat. by rewrite Hflat. }
      split.
      { constructor; [by destruct current|done]. }
      rewrite length_app in Hcount. simpl in *. lia.
    + destruct (IH paragraphs (current ++ [sentence]) (len + Py.len sentence))
        as (groups & last & -> & Hflat & Hne & Hcount).
      exists groups, last. split; [done|]. split; [|done].
      by rewrite Hflat, <- app_assoc.
Qed.

(** The caption comes back as it is, or as its sentences regrouped in order
    into paragraphs. *)
Lemma reflow_groups caption n :
  _format_caption_paragraphs caption n = caption
  ∨ ∃ groups,
      _format_caption_paragraphs caption n
      = Py.join blank_line (Py.join " " <$> groups)
      ∧ concat groups
        = split_sentences false false [] (Py.chars (Py.strip caption))
      ∧ Forall (fun g => g ≠ []) groups
      ∧ Z.of_nat (length groups) ≤ Z.max 1 n.
Proof.
  unfold _format_caption_paragraphs.
  destruct (_ || _); [by left|].
  destruct (_ <=? n); [by left|]. right.
  destruct (group_sentences_groups (Py.len caption / n) n
              (split_sentences false false [] (Py.chars (Py.strip caption)))
              [] [] 0)
    as (groups & last & -> & Hflat & Hne & Hcount).
  simpl in *. destruct last as [|s last].
  - exists groups. rewrite app_nil_r in Hflat. repeat split; [done..|lia].
  - exists (groups ++ [s :: last]). rewrite fmap_app. simpl.
    split; [done|]. split.
    { by rewrite concat_app; simpl; rewrite app_nil_r. }
    split.
    { apply Forall_app. split; [done|]. by constructor. }
    rewrite length_app. simpl. lia.
Qed.

Lemma paragraphs_ink groups :
  filter P (Py.chars " ") = [] →
  concat ((fun s => filter P (Py.chars s)) <$> (Py.join " " <$> groups))
  = concat ((fun s => filter P (Py.chars s)) <$> concat groups).
Proof.
  intros Hsep. induction groups as [|g groups IH]; [done|].
  rewrite !fmap_cons, !concat_cons, fmap_app, concat_app, IH.
  by rewrite filter_chars_join_blank.
Qed.

Lemma paragraphs_count (a d : nat) groups :
  length (filter P (Py.chars " ")) = a →
  Forall (fun g => g ≠ []) groups →
  (sum_list_with (fun s => length (filter P (Py.chars s)) + (a + d))
     (Py.join " " <$> groups)
   = sum_list_with (fun s => length (filter P (Py.chars s)) + a)
       (concat groups)
     + d * length groups)%nat.
Proof.
  intros Hsep. induction 1 as [|g groups Hg _ IH]; [simpl; lia|].
  rewrite fmap_cons, concat_cons, sum_list_with_app.
  change (sum_list_with ?f (?p :: ?r)) with (f p + sum_list_with f r)%nat. cbv beta.
  rewrite IH. pose proof (count_chars_join " " g Hg) as Hjoin.
  rewrite Hsep in Hjoin. simpl length. lia.
Qed.

(** Counting the characters that satisfy [P]: a separator of the caption
    holds at least [a] of them, a space [a] and a paragraph break [a + d]. *)
Lemma reflow_count (a d : nat) caption n :
  length (filter P (Py.chars " ")) = a →
  length (filter P (Py.chars blank_line)) = (a + d)%nat →
  (∀ c, Py.is_space c = true → (a ≤ length (filter P [c]))%nat) →
  0 < n →
  Z.of_nat (length (filter P (Py.chars (_format_caption_paragraphs caption n))))
  ≤ Z.of_nat (length (filter P (Py.chars caption))) + Z.of_nat d * (n - 1).
Proof.
  intros Hspace Hblank Hsep Hn.
  destruct (reflow_groups caption n) as [->|(groups & -> & Hflat & Hne & Hlen)];
    [nia|].
  assert (Hparas : Py.join " " <$> groups ≠ []).
  { destruct groups; [|done]. simpl in Hflat. symmetry in Hflat.
    by apply split_sentences_nonempty in Hflat. }
  pose proof (count_chars_join blank_line _ Hparas) as Hjoin.
  rewrite Hblank, (paragraphs_count a d) in Hjoin by done.
  pose proof (split_sentences_count a (Py.chars (Py.strip caption))
                false false [] Hsep) as Hsplit.
  rewrite <- Hflat in Hsplit. simpl in Hsplit.
  pose proof (strip_count caption).
  assert (1 ≤ length groups)%nat by (destruct groups; [done|simpl; lia]).
  nia.
Qed.

(** In a single-spaced text a separator is one character. *)
Lemma split_sentences_count_single (k : nat) l : ∀ in_gap after_end cur,
  (∀ c, Py.is_space c = true → (length (filter P [c]) ≤ k)%nat) →
  single_spaced l = true →
  (in_gap = true → from_option Py.is_space false (head l) = false) →
  (length (filter P (rev cur)) + length (filter P l) + k
   ≤ sum_list_with (fun s => length (filter P (Py.chars s)) + k)
       (split_sentences in_gap after_end cur l))%nat.
Proof.
  induction l as [|c r IH]; intros in_gap after_end cur Hspace Hsingle Hgap.
  - simpl. rewrite chars_of_chars. lia.
  - assert (Hcons : length (filter P (c :: r))
                    = (length (filter P [c]) + length (filter P r))%nat).
    { change (c :: r) with ([c] ++ r). by rewrite filter_app, length_app. }
    assert (Hcur : length (filter P (rev (c :: cur)))
                   = (length (filter P (rev cur)) + length (filter P [c]))%nat).
    { simpl. by rewrite filter_app, length_app. }
    simpl in Hsingle.
    apply andb_true_iff in Hsingle as [[_ Hnext]%andb_true_iff Hrest].
    pose proof (IH false false (c :: cur) Hspace Hrest) as Hsame.
    pose proof (IH false (is_sentence_end c) (c :: cur) Hspace Hrest) as Hink.
    pose proof (IH true false [] Hspace Hrest) as Hnew.
    simpl split_sentences. destruct (Py.is_space c) eqn:Hc.
    + pose proof (Hspace c Hc).
      destruct in_gap; [by specialize (Hgap eq_refl); simpl in Hgap; congruence|].
      destruct after_end; [|by specialize (Hsame ltac:(done)); lia].
      change (sum_list_with ?f (?p :: ?q)) with (f p + sum_list_with f q)%nat.
      cbv beta. rewrite chars_of_chars.
      assert (Hhead : from_option Py.is_space false (head r) = false).
      { destruct r as [|d r']; [done|]. simpl in *.
        by apply negb_true_iff in Hnext. }
      specialize (Hnew (fun _ => Hhead)). simpl in Hnew. lia.
    + specialize (Hink ltac:(done)). lia.
Qed.

Lemma strip_single_spaced s :
  single_spaced (Py.chars s) = true →
  single_spaced (Py.chars (Py.strip s)) = true.
Proof.
  destruct (strip_parts s) as (k1 & k2 & -> & _).
  intros Hs%single_spaced_suffix. by apply single_spaced_prefix in Hs.
Qed.

(** Reflowing a single-spaced caption removes no character that satisfies
    [P] but at the ends. *)
Lemma reflow_count_lower (a d : nat) caption n :
  length (filter P (Py.chars " ")) = a →
  length (filter P (Py.chars blank_line)) = (a + d)%nat →
  (∀ c, Py.is_space c = true → (length (filter P [c]) ≤ a)%nat) →
  single_spaced (Py.chars caption) = true →
  (length (filter P (Py.chars (Py.strip caption)))
   ≤ length (filter P (Py.chars (_format_caption_paragraphs caption n))))%nat.
Proof.
  intros Hspace Hblank Hsep Hsingle%strip_single_spaced.
  destruct (reflow_groups caption n) as [->|(groups & -> & Hflat & Hne & Hlen)];
    [apply strip_count|].
  assert (Hparas : Py.join " " <$> groups ≠ []).
  { destruct groups; [|done]. simpl in Hflat. symmetry in Hflat.
    by apply split_sentences_nonempty in Hflat. }
  pose proof (count_chars_join blank_line _ Hparas) as Hjoin.
  rewrite Hblank, (paragraphs_count a d) in Hjoin by done.
  pose proof (split_sentences_count_single a (Py.chars (Py.strip caption))
                false false [] Hsep Hsingle ltac:(done)) as Hsplit.
  rewrite <- Hflat in Hsplit. simpl in Hsplit.
  assert (1 ≤ length groups)%nat by (destruct groups; [done|simpl; lia]).
  nia.
Qed.

End Reflow.

(** X8.  Reflowing a caption into paragraphs changes its whitespace only:
    the other characters of the result are those of the caption, in the
    same order. *)
Theorem reflow_keeps_ink (caption : string) (num_paragraphs : Z) :
  num_paragraphs ≠ 0 →
  ink (_format_caption_paragraphs caption num_paragraphs) = ink caption.
Proof.
  intros _. unfold ink.
  assert (Hspace : ∀ c, Py.is_space c = true → ¬ ¬ Py.is_space c).
  { intros c Hc Hn. apply Hn. by rewrite Hc. }
  destruct (reflow_groups caption num_paragraphs)
    as [->|(groups & -> & Hflat & _)]; [done|].
  rewrite filter_chars_join_blank by done.
  rewrite paragraphs_ink by done.
  rewrite Hflat, split_sentences_ink by done.
  simpl. by apply strip_ink.
Qed.

Lemma reflow_keeps_ink_witness :
  ink (_format_caption_paragraphs six_sentences 4) = ink six_sentences.
Proof. apply reflow_keeps_ink. done. Defined.

(** The six sentences become three paragraphs of two. *)
Lemma reflow_six_sentences :
  _format_caption_paragraphs six_sentences 4
  = Py.join blank_line
      (replicate 3 (Py.join " " (replicate 2 (sentence_of 10)))).
Proof. vm_compute. reflexivity. Qed.

(** X9.  Reflowing into [num_paragraphs >= 1] paragraphs lengthens a
    caption by at most [num_paragraphs - 1] characters and adds at most
    [2 * (num_paragraphs - 1)] newlines to it. *)
Theorem reflow_bounds (caption : string) (num_paragraphs : Z) :
  0 < num_paragraphs →
  Py.len (_format_caption_paragraphs caption num_paragraphs)
  ≤ Py.len caption + (num_paragraphs - 1)
  ∧ Z.of_nat (newlines (_format_caption_paragraphs caption num_paragraphs))
    ≤ Z.of_nat (newlines caption) + 2 * (num_paragraphs - 1).
Proof.
  intros Hn. split.
  - pose proof (reflow_count (fun _ => True) 1 1 caption num_paragraphs
                  eq_refl eq_refl) as Hcount.
    rewrite !len_chars.
    assert (Hall : ∀ l : list ascii, filter (fun _ => True) l = l).
    { intros l. induction l as [|c l IH]; [done|].
      by rewrite filter_cons_True, IH. }
    rewrite !Hall in Hcount.
    assert (Z.of_nat 1 * (num_paragraphs - 1) = num_paragraphs - 1) as Hone
      by lia.
    rewrite Hone in Hcount. apply Hcount; [|done].
    intros c _. rewrite Hall. simpl. lia.
  - apply (reflow_count (fun c => c = newline) 0 2 caption num_paragraphs);
      [done|done| |done].
    intros. lia.
Qed.

Lemma reflow_bounds_witness :
  Py.len (_format_caption_paragraphs six_sentences 4)
  ≤ Py.len six_sentences + (4 - 1)
  ∧ Z.of_nat (newlines (_format_caption_paragraphs six_sentences 4))
    ≤ Z.of_nat (newlines six_sentences) + 2 * (4 - 1).
Proof. apply reflow_bounds. done. Defined.

(** ** Produced summaries *)

Section Produced.

Local Arguments clean_str : simpl never.
Local Arguments _format_caption_paragraphs : simpl never.
Local Arguments Py.len : simpl never.
Local Arguments Py.slice_to : simpl never.
Local Arguments clean_tag : simpl never.
Local Arguments normalize_hashtags : simpl never.
Local Arguments caption_policy : simpl never.
Local Arguments Z.ltb : simpl never.
Local Arguments Z.leb : simpl never.

Implicit Types (s caption : string) (l : list ascii).

Lemma take_all_str s : Py.take (String.length s) s = s.
Proof.
  induction s as [|a s IH]; [done|].
  change (String a (Py.take (String.length s) s) = String a s).
  by rewrite IH.
Qed.

Lemma take_ge_str n : ∀ s, (String.length s ≤ n)%nat → Py.take n s = s.
Proof.
  induction n as [|n IH]; intros [|a s] Hle; simpl in Hle; try done; [lia|].
  change (String a (Py.take n s) = String a s). rewrite IH; [done|lia].
Qed.

Lemma get_lt_length s : ∀ (k : nat) c,
  Py.get k s = Some c → (k < String.length s)%nat.
Proof.
  induction s as [|a s IH]; intros [|k] c; simpl; try done; [lia|].
  intros H%IH. lia.
Qed.

Lemma rfind_lt_len c s : Py.rfind c s < Py.len s.
Proof.
  unfold Py.rfind, Py.len.
  destruct (rfind_from_spec c s 0 (-1)) as [[-> _]|(k & -> & Hk & _)]; [lia|].
  apply get_lt_length in Hk. lia.
Qed.

(** An accepted caption is a prefix of the cleaned one, of 1200 to 1400
    characters; it is the whole of it unless it has more than 1200. *)
Lemma caption_policy_str caption kept :
  caption_policy (JStr caption) = Some (Some kept) →
  ∃ k : nat,
    kept = JStr (Py.take k caption)
    ∧ 1200 ≤ Py.len (Py.take k caption) ≤ 1400
    ∧ (Py.take k caption = caption ∨ 1200 < Py.len (Py.take k caption)).
Proof.
  unfold caption_policy. cbn [Dyn.len Dyn.slice_to Dyn.rfind mbind option_bind].
  destruct (Z.ltb_spec 1400 (Py.len caption)) as [Hlong|Hfits].
  - unfold Py.slice_to. change (Z.to_nat 1400) with 1400%nat.
    assert (Hcut : Py.len (Py.take 1400 caption) = 1400).
    { unfold Py.len in *. rewrite take_length_str. lia. }
    pose proof (rfind_lt_len "." (Py.take 1400 caption)) as Hperiod.
    destruct (Z.ltb_spec 1200 (Py.rfind "." (Py.take 1400 caption)))
      as [Hfound|_].
    + intros [= <-].
      exists (Z.to_nat (Py.rfind "." (Py.take 1400 caption) + 1)).
      rewrite take_take_str by lia. split; [done|].
      unfold Py.len in *. rewrite take_length_str. lia.
    + intros [= <-]. exists 1400%nat. split; [done|]. lia.
  - destruct (Z.ltb_spec (Py.len caption) 1200) as [|Hlong]; [done|].
    intros [= <-]. exists (String.length caption).
    rewrite take_all_str. split; [done|]. split; [lia|by left].
Qed.

Lemma caption_policy_text (value : json) (kept : string) :
  caption_policy value = Some (Some (JStr kept)) → ∃ c, value = JStr c.
Proof.
  unfold caption_policy.
  destruct value as [| | | |c|elements|fields]; simpl; try done.
  - by exists c.
  - destruct (1400 <? _); simpl; [done|]. by destruct (_ <? 1200).
  - destruct (1400 <? _); simpl; [done|]. by destruct (_ <? 1200).
Qed.

(** What a produced summary is made of. *)
Lemma parse_entry_inv data original_title feed_item_id summary :
  parse_entry data original_title feed_item_id = Some (Some summary) →
  Summary.feed_item_id summary = feed_item_id
  ∧ (∃ generated_title,
       Summary.title summary
       = Py.slice_to 65 (if Py.len original_title <=? 65
                         then original_title else generated_title))
  ∧ (∃ text kept,
       caption_policy (JStr (clean_str text)) = Some (Some (JStr kept))
       ∧ Summary.caption summary = _format_caption_paragraphs kept 4)
  ∧ (∃ raw_hashtags,
       normalize_hashtags raw_hashtags = Some (Summary.hashtags summary))
  ∧ (∃ text, Summary.description summary = cleaned text)
  ∧ (∃ text, Summary.source summary = cleaned text).
Proof.
  unfold parse_entry. intros H.
  apply bind_Some in H as (raw_title & _ & H).
  apply bind_Some in H as (generated_title & _ & H).
  apply bind_Some in H as (title & Htitle & H).
  apply bind_Some in H as (raw_description & _ & H).
  apply bind_Some in H as (description & Hdescription & H).
  apply bind_Some in H as (desc_len & _ & H).
  apply bind_Some in H as (raw_caption & _ & H).
  apply bind_Some in H as (caption & Hcaption & H).
  apply bind_Some in H as (accepted & Haccepted & H).
  destruct accepted as [kept|]; [|done].
  apply bind_Some in H as (kept_text & Hkept & H).
  apply bind_Some in H as (raw_hashtags & _ & H).
  apply bind_Some in H as (hashtags & Hhashtags & H).
  apply bind_Some in H as (raw_source & _ & H).
  apply bind_Some in H as (source & Hsource & H).
  apply bind_Some in H as (made & Hmade & H).
  injection H as <-.
  unfold make_summary in Hmade.
  apply bind_Some in Hmade as (title_text & Htitle_text & Hmade).
  apply bind_Some in Hmade as (description_text & Hdescription_text & Hmade).
  apply bind_Some in Hmade as (caption_text & [= <-] & Hmade).
  apply bind_Some in Hmade as (source_text & Hsource_text & Hmade).
  injection Hmade as <-. cbn [Summary.feed_item_id Summary.title
    Summary.caption Summary.hashtags Summary.description Summary.source].
  assert (Hcleaned : ∀ raw result text,
            _clean_text raw = Some result → Dyn.as_str result = Some text →
            ∃ sent, text = cleaned sent).
  { intros raw result text Hclean Htext.
    destruct result as [| | | |r| |]; try done. injection Htext as ->.
    destruct raw as [|b|n|x|sent|elements|fields]; try done;
      unfold _clean_text in Hclean; simpl in Hclean.
    - by destruct b.
    - by destruct (n =? 0).
    - by destruct (PrimFloat.eqb x 0).
    - exists sent. unfold cleaned.
      case_bool_decide; simpl in Hclean; congruence.
    - by destruct (bool_decide (elements = [])).
    - by destruct (bool_decide (fields = [])). }
  split; [done|]. split.
  { destruct (Py.len original_title <=? 65).
    - injection Htitle as <-. injection Htitle_text as <-. by exists "".
    - destruct generated_title; try done; injection Htitle as <-; try done.
      injection Htitle_text as <-. by eexists. }
  split.
  { destruct kept; try done. injection Hkept as ->.
    destruct (caption_policy_text _ _ Haccepted) as [c ->].
    destruct raw_caption as [|b|n|x|sent|elements|fields]; try done;
      unfold _clean_text in Hcaption; simpl in Hcaption.
    - by destruct b.
    - by destruct (n =? 0).
    - by destruct (PrimFloat.eqb x 0).
    - case_bool_decide as Hsent; simpl in Hcaption;
        injection Hcaption as <-; [|by exists sent, kept_text].
      subst sent. by rewrite caption_policy_rejects in Haccepted.
    - by destruct (bool_decide (elements = [])).
    - by destruct (bool_decide (fields = [])). }
  split; [by exists raw_hashtags|].
  split.
  - exact (Hcleaned _ _ _ Hdescription Hdescription_text).
  - exact (Hcleaned _ _ _ Hsource Hsource_text).
Qed.

Lemma chars_take_str k : ∀ s, Py.chars (Py.take k s) = take k (Py.chars s).
Proof.
  induction k as [|k IH]; intros [|a s]; try done.
  change (a :: Py.chars (Py.take k s) = a :: take k (Py.chars s)).
  by rewrite IH.
Qed.

Lemma single_spaced_take k l :
  single_spaced l = true → single_spaced (take k l) = true.
Proof.
  intros Hl. rewrite <- (take_drop k l) in Hl.
  by apply single_spaced_prefix in Hl.
Qed.

Lemma drop_while_id (p : ascii → bool) l :
  from_option p false (head l) = false → Py.drop_while p l = l.
Proof. destruct l as [|c r]; simpl; [done|]. by intros ->. Qed.

Lemma drop_end_id (p : ascii → bool) l :
  from_option p false (last l) = false → drop_end p l = l.
Proof.
  induction l as [|c r IH]; [done|]. destruct r as [|d r'].
  - simpl. by intros ->.
  - intros Hlast. change (last (c :: d :: r')) with (last (d :: r')) in Hlast.
    change (drop_end p (c :: d :: r'))
      with (match drop_end p (d :: r') with
            | [] => if p c then [] else [c]
            | k => c :: k
            end).
    by rewrite (IH Hlast).
Qed.

(** Whitespace that is single-spaced is at most one character. *)
Lemma single_spaced_whitespace l :
  single_spaced l = true → Forall (fun c => Py.is_space c = true) l →
  (length l ≤ 1)%nat.
Proof.
  destruct l as [|c [|d r]]; simpl; [lia|lia|].
  intros [[_ Hnext]%andb_true_iff _]%andb_true_iff Hall.
  inversion Hall as [|? ? Hc Hrest]; subst.
  inversion Hrest as [|? ? Hd _]; subst.
  by rewrite Hc, Hd in Hnext.
Qed.

(** [strip] takes at most one character off a single-spaced text that
    does not start with whitespace, and none if it does not end with
    whitespace either. *)
Lemma strip_single_spaced_length s :
  single_spaced (Py.chars s) = true →
  from_option Py.is_space false (head (Py.chars s)) = false →
  Py.len s ≤ Py.len (Py.strip s) + 1
  ∧ (from_option Py.is_space false (last (Py.chars s)) = false →
     Py.strip s = s).
Proof.
  intros Hsingle Hhead.
  assert (Hchars : Py.chars (Py.strip s) = drop_end Py.is_space (Py.chars s)).
  { unfold Py.strip. by rewrite strip_where_chars, drop_while_id. }
  split.
  - rewrite !len_chars, Hchars.
    destruct (drop_end_prefix Py.is_space (Py.chars s)) as (k & Hk & Hall).
    rewrite Hk in Hsingle. apply single_spaced_suffix in Hsingle.
    pose proof (single_spaced_whitespace k Hsingle Hall).
    rewrite Hk at 1. rewrite length_app. lia.
  - intros Hlast. rewrite drop_end_id in Hchars by done.
    by rewrite <- (of_chars_chars (Py.strip s)), Hchars, of_chars_chars.
Qed.

Lemma tidy_cleaned text :
  tidy (cleaned text) = true ∧ newlines (cleaned text) = 0%nat.
Proof.
  unfold cleaned. case_bool_decide as Htext; [by subst text|].
  apply clean_str_tidy.
Qed.

(** An accepted caption, reflowed: its length and its newlines. *)
Lemma accepted_caption_bounds text kept :
  caption_policy (JStr (clean_str text)) = Some (Some (JStr kept)) →
  1200 ≤ Py.len (_format_caption_paragraphs kept 4) ≤ 1403
  ∧ (newlines (_format_caption_paragraphs kept 4) ≤ 6)%nat.
Proof.
  intros (k & [= ->] & Hlen & Hwhole)%caption_policy_str.
  destruct (clean_str_tidy text) as [Htidy _].
  apply andb_true_iff in Htidy as [Hsingle Htrimmed].
  apply andb_true_iff in Htrimmed as [Hhead%negb_true_iff Hlast%negb_true_iff].
  set (kept := Py.take k (clean_str text)) in *.
  assert (Hkept : single_spaced (Py.chars kept) = true).
  { unfold kept. rewrite chars_take_str. by apply single_spaced_take. }
  assert (Hstart : from_option Py.is_space false (head (Py.chars kept)) = false).
  { unfold kept. rewrite chars_take_str.
    destruct k as [|k]; [done|]. by destruct (Py.chars (clean_str text)). }
  destruct (strip_single_spaced_length kept Hkept Hstart) as [Hshort Hsame].
  assert (Hstripped : 1200 ≤ Py.len (Py.strip kept)).
  { destruct Hwhole as [Hwhole|]; [|lia].
    rewrite Hsame; [lia|]. by rewrite Hwhole. }
  pose proof (reflow_count_lower (fun _ => True) 1 1 kept 4 eq_refl eq_refl)
    as Hlower.
  pose proof (reflow_count (fun _ => True) 1 1 kept 4 eq_refl eq_refl)
    as Hupper.
  pose proof (reflow_count (fun c => c = newline) 0 2 kept 4 eq_refl eq_refl)
    as Hlines.
  assert (Hall : ∀ l : list ascii, filter (fun _ => True) l = l).
  { intros l. induction l as [|c l IH]; [done|].
    by rewrite filter_cons_True, IH. }
  rewrite !Hall in Hlower, Hupper. rewrite <- !len_chars in Hupper.
  assert (Hone : ∀ c : ascii, length (filter (fun _ => True) [c]) = 1%nat)
    by (intros c; by rewrite Hall).
  specialize (Hlower ltac:(intros; rewrite Hone; lia) Hkept).
  specialize (Hupper ltac:(intros; rewrite Hone; lia) ltac:(lia)).
  specialize (Hlines ltac:(intros; lia) ltac:(lia)).
  rewrite (single_spaced_no_newline _ Hkept) in Hlines.
  apply inj_le in Hlower. rewrite <- !len_chars in Hlower.
  unfold newlines. simpl in Hlines. lia.
Qed.

Lemma normalize_hashtags_no_space hashtags tags :
  normalize_hashtags hashtags = Some tags →
  Forall (fun h => Py.contains " " h = false) tags.
Proof.
  unfold normalize_hashtags.
  destruct (Dyn.iter _) as [elements|]; simpl; [|done].
  destruct (mapM Dyn.as_str elements) as [texts|]; simpl; [|done].
  intros [= <-]. apply Forall_take, Forall_fmap, Forall_forall.
  intros h _. apply clean_tag_no_space.
Qed.

(** The title kept: the original one when it has at most 65 characters. *)
Lemma title_policy original_title generated_title :
  Py.len (Py.slice_to 65 (if Py.len original_title <=? 65
                          then original_title else generated_title)) ≤ 65
  ∧ (Py.len original_title ≤ 65 →
     Py.slice_to 65 (if Py.len original_title <=? 65
                     then original_title else generated_title)
     = original_title).
Proof.
  split.
  - unfold Py.len, Py.slice_to. rewrite take_length_str.
    change (Z.to_nat 65) with 65%nat. lia.
  - intros Hshort.
    destruct (Z.leb_spec (Py.len original_title) 65); [|lia].
    unfold Py.slice_to, Py.len in *. change (Z.to_nat 65) with 65%nat.
    apply take_ge_str. lia.
Qed.

Lemma parse_entry_answers data item summary :
  parse_entry data (title item) (id item) = Some (Some summary) →
  answers item summary.
Proof.
  intros (Hid & [generated Htitle] & (text & kept & Hkept & Hcaption)
          & [raw Htags] & _)%parse_entry_inv.
  destruct (title_policy (title item) generated) as [Hlen Hsame].
  destruct (accepted_caption_bounds _ _ Hkept) as [Hbounds Hlines].
  unfold answers, within_limits. rewrite Htitle, Hcaption.
  repeat split; try done; try lia.
  - by eapply normalize_hashtags_at_most_15.
  - by eapply normalize_hashtags_no_space.
Qed.

End Produced.

(** X10.  A summary produced from a decoded object refers to the item it
    was asked for; its title has at most 65 characters and is the item's
    title when that has at most 65; it has at most 15 hashtags, none of them
    with a space; its description and source have no whitespace at the
    ends, no newline and no two whitespace characters in a row. *)
Theorem produced_summary_fields
    (data : json) (original_title feed_item_id : string)
    (summary : SummaryResult) :
  parse_entry data original_title feed_item_id = Some (Some summary) →
  Summary.feed_item_id summary = feed_item_id
  ∧ Py.len (Summary.title summary) ≤ 65
  ∧ (Py.len original_title ≤ 65 → Summary.title summary = original_title)
  ∧ (length (Summary.hashtags summary) ≤ 15)%nat
  ∧ Forall (fun h => Py.contains " " h = false) (Summary.hashtags summary)
  ∧ tidy (Summary.description summary) = true
  ∧ newlines (Summary.description summary) = 0%nat
  ∧ tidy (Summary.source summary) = true
  ∧ newlines (Summary.source summary) = 0%nat.
Proof.
  intros (Hid & [generated Htitle] & _ & [raw Htags] & [d Hd] & [src Hsrc])
    %parse_entry_inv.
  destruct (title_policy original_title generated) as [Hlen Hsame].
  rewrite Htitle. split; [done|]. split; [done|]. split; [done|].
  split; [by eapply normalize_hashtags_at_most_15|].
  split; [by eapply normalize_hashtags_no_space|].
  rewrite Hd, Hsrc.
  destruct (tidy_cleaned d), (tidy_cleaned src). done.
Qed.

Lemma produced_summary_fields_witness :
  ∃ summary,
    parse_entry tagged_entry "Article a1" "a1" = Some (Some summary)
    ∧ Summary.feed_item_id summary = "a1"
    ∧ Summary.title summary = "Article a1"
    ∧ (length (Summary.hashtags summary) ≤ 15)%nat.
Proof.
  destruct (parse_entry tagged_entry "Article a1" "a1")
    as [[summary|]|] eqn:Hparse; [|by vm_compute in Hparse..].
  exists summary. split; [reflexivity|].
  destruct (produced_summary_fields _ _ _ _ Hparse)
    as (Hid & _ & Htitle & Htags & _).
  split; [exact Hid|]. split; [|exact Htags]. apply Htitle. by vm_compute.
Defined.

(** X11.  The caption of a produced summary has between 1200 and 1403
    characters and at most six newline characters. *)
Theorem produced_caption_bounds
    (data : json) (original_title feed_item_id : string)
    (summary : SummaryResult) :
  parse_entry data original_title feed_item_id = Some (Some summary) →
  1200 ≤ Py.len (Summary.caption summary) ≤ 1403
  ∧ (newlines (Summary.caption summary) ≤ 6)%nat.
Proof.
  intros (_ & _ & (text & kept & Hkept & ->) & _)%parse_entry_inv.
  by eapply accepted_caption_bounds.
Qed.

Lemma produced_caption_bounds_witness :
  ∃ summary,
    parse_entry good_entry "Article a1" "a1" = Some (Some summary)
    ∧ 1200 ≤ Py.len (Summary.caption summary) ≤ 1403
    ∧ (newlines (Summary.caption summary) ≤ 6)%nat.
Proof.
  destruct (parse_entry good_entry "Article a1" "a1")
    as [[summary|]|] eqn:Hparse; [|by vm_compute in Hparse..].
  exists summary. split; [reflexivity|].
  exact (produced_caption_bounds _ _ _ _ Hparse).
Defined.

(** ** The retry loop as a whole *)

Section RetryLoop.

Context {R : Type}.
Variable backend : Z → string → outcome.
Variable parse : option json → option R.
Variable failed : R.
Variable max_retries : Z.

Lemma requests_backoff attempt events :
  requests (backoff max_retries attempt ++ events) = requests events.
Proof. unfold backoff. by destruct (_ <? _). Qed.

Lemma slept_app events1 events2 :
  slept (events1 ++ events2) = slept events1 + slept events2.
Proof.
  induction events1 as [|[model attempt|seconds] events1 IH]; simpl; lia.
Qed.

Lemma slept_backoff attempt :
  slept (backoff max_retries attempt)
  = if attempt <? max_retries - 1 then 2 ^ attempt else 0.
Proof. unfold backoff. destruct (_ <? _); simpl; lia. Qed.

(** One iteration: the request, then either the result or the rest of the
    loop, on the same model or on the fallback, after a pause or not. *)
Lemma attempt_loop_step attempt rest model :
  (∃ decoded result,
     backend attempt model = Response decoded ∧ parse decoded = Some result
     ∧ attempt_loop backend parse failed max_retries (attempt :: rest) model = ([Generate model attempt], result))
  ∨ (fruitless backend parse (model, attempt)
     ∧ ∃ pause next,
         attempt_loop backend parse failed max_retries (attempt :: rest) model
         = after_events (Generate model attempt :: pause) (attempt_loop backend parse failed max_retries rest next)
         ∧ requests pause = []
         ∧ 0 ≤ slept pause
           ≤ (if attempt <? max_retries - 1 then 2 ^ attempt else 0)
         ∧ (next = model ∨ next = fallback_model)).
Proof.
  unfold fruitless, after_events. simpl.
  destruct (backend attempt model) as [decoded| |] eqn:Hanswer.
  - destruct (parse decoded) as [result|] eqn:Hparse.
    + left. by exists decoded, result.
    + right. split; [done|]. exists [], model.
      destruct (attempt_loop backend parse failed max_retries rest model). simpl.
      repeat split; try done; [by destruct (_ <? _); lia|by left].
  - right. split; [done|]. case_bool_decide.
    + exists [], fallback_model. destruct (attempt_loop backend parse failed max_retries rest fallback_model). simpl.
      repeat split; try done; [by destruct (_ <? _); lia|by right].
    + exists (backoff max_retries attempt), model.
      destruct (attempt_loop backend parse failed max_retries rest model). simpl.
      pose proof (requests_backoff attempt []) as Hrequests.
      rewrite app_nil_r in Hrequests. rewrite slept_backoff.
      repeat split; try done; [destruct (_ <? _); lia..|by left].
  - right. split; [done|]. exists (backoff max_retries attempt), model.
    destruct (attempt_loop backend parse failed max_retries rest model). simpl.
    pose proof (requests_backoff attempt []) as Hrequests.
    rewrite app_nil_r in Hrequests. rewrite slept_backoff.
    repeat split; try done; [destruct (_ <? _); lia..|by left].
Qed.

Lemma requests_after_pause model attempt pause events :
  requests pause = [] →
  requests ((Generate model attempt :: pause) ++ events)
  = (model, attempt) :: requests events.
Proof.
  intros Hpause. unfold requests in *. simpl.
  by rewrite omap_app, Hpause.
Qed.

(** The iterations of the requests are the first of those to be made. *)
Lemma attempt_loop_requests attempts : ∀ model,
  (requests (attempt_loop backend parse failed max_retries attempts model).1).*2
  = take (length (requests (attempt_loop backend parse failed max_retries attempts model).1)) attempts.
Proof.
  induction attempts as [|attempt rest IH]; intros model; [done|].
  destruct (attempt_loop_step attempt rest model)
    as [(decoded & result & _ & _ & ->)
       |(_ & pause & next & -> & Hpause & _ & _)]; [done|].
  unfold after_events. cbn [fst]. rewrite requests_after_pause by done.
  simpl. f_equal. apply IH.
Qed.

(** The requests go to the model the loop starts with and then, from some
    iteration on, to the fallback model. *)
Lemma attempt_loop_models attempts : ∀ model,
  ∃ i j,
    (requests (attempt_loop backend parse failed max_retries attempts model).1).*1
    = replicate i model ++ replicate j fallback_model.
Proof.
  induction attempts as [|attempt rest IH]; intros model; [by exists 0%nat, 0%nat|].
  destruct (attempt_loop_step attempt rest model)
    as [(decoded & result & _ & _ & ->)
       |(_ & pause & next & -> & Hpause & _ & Hnext)];
    [by exists 1%nat, 0%nat|].
  unfold after_events. cbn [fst]. rewrite requests_after_pause by done.
  destruct (IH next) as (i & j & Hmodels). rewrite fmap_cons, Hmodels.
  destruct Hnext as [->| ->].
  - by exists (S i), j.
  - exists 1%nat, (i + j)%nat. simpl. by rewrite replicate_add.
Qed.

Lemma attempt_loop_slept attempts : ∀ model,
  0 ≤ slept (attempt_loop backend parse failed max_retries attempts model).1
    ≤ foldr (fun attempt total =>
               (if attempt <? max_retries - 1 then 2 ^ attempt else 0) + total)
            0 attempts.
Proof.
  induction attempts as [|attempt rest IH]; intros model; [done|].
  destruct (attempt_loop_step attempt rest model)
    as [(decoded & result & _ & _ & ->)
       |(_ & pause & next & -> & _ & Hpause & _)].
  - cbn [foldr slept fst]. specialize (IH model).
    assert (0 ≤ 2 ^ attempt) by (apply Z.pow_nonneg; lia).
    destruct (_ <? _); lia.
  - unfold after_events. cbn [fst]. specialize (IH next).
    rewrite slept_app.
    change (slept (Generate model attempt :: pause)) with (slept pause).
    cbn [foldr]. lia.
Qed.

Lemma backoff_total (n : nat) :
  foldr (fun attempt total =>
           (if attempt <? max_retries - 1 then 2 ^ attempt else 0) + total)
        0 (Z.of_nat <$> seq 0 n)
  ≤ 2 ^ Z.max 0 (Z.min (Z.of_nat n) (max_retries - 1)) - 1.
Proof.
  induction n as [|n IH].
  { replace (Z.max 0 (Z.min (Z.of_nat 0) (max_retries - 1))) with 0 by lia.
    done. }
  rewrite seq_S, fmap_app, foldr_app. cbn [foldr fmap list_fmap Nat.add].
  assert (Hshift : ∀ (l : list Z) (x : Z),
            foldr (fun attempt total =>
                     (if attempt <? max_retries - 1 then 2 ^ attempt else 0)
                     + total) x l
            = foldr (fun attempt total =>
                       (if attempt <? max_retries - 1 then 2 ^ attempt else 0)
                       + total) 0 l + x).
  { intros l x. induction l as [|a l IHl]; simpl; [lia|]. rewrite IHl. lia. }
  rewrite Hshift.
  destruct (Z.ltb_spec (Z.of_nat n) (max_retries - 1)) as [Hmore|Hdone].
  - rewrite Z.max_r, Z.min_l in IH by lia. rewrite Z.max_r, Z.min_l by lia.
    replace (Z.of_nat (S n)) with (Z.of_nat n + 1) by lia.
    rewrite Z.pow_add_r by lia. lia.
  - assert (Z.min (Z.of_nat (S n)) (max_retries - 1)
            = Z.min (Z.of_nat n) (max_retries - 1)) as -> by lia.
    lia.
Qed.

(** The loop ends on a request that gave the result, or fails after a
    fruitless request in each iteration. *)
Lemma attempt_loop_outcome attempts : ∀ model,
  (∃ model' attempt decoded,
     last (attempt_loop backend parse failed max_retries attempts model).1 = Some (Generate model' attempt)
     ∧ backend attempt model' = Response decoded
     ∧ parse decoded = Some (attempt_loop backend parse failed max_retries attempts model).2)
  ∨ ((attempt_loop backend parse failed max_retries attempts model).2 = failed
     ∧ (requests (attempt_loop backend parse failed max_retries attempts model).1).*2 = attempts
     ∧ Forall (fruitless backend parse) (requests (attempt_loop backend parse failed max_retries attempts model).1)).
Proof.
  induction attempts as [|attempt rest IH]; intros model.
  { right. by repeat split. }
  destruct (attempt_loop_step attempt rest model)
    as [(decoded & result & Hanswer & Hparse & ->)
       |(Hfruitless & pause & next & -> & Hpause & _ & _)].
  - left. by exists model, attempt, decoded.
  - unfold after_events. cbn [fst snd]. rewrite requests_after_pause by done.
    destruct (IH next)
      as [(model' & attempt' & decoded & Hlast & Hanswer & Hparse)
         |(Hfailed & Hall & Hnone)].
    + left. exists model', attempt', decoded. split; [|done].
      by apply last_app_Some; left.
    + right. split; [done|]. split; [by rewrite fmap_cons, Hall|].
      by constructor.
Qed.

End RetryLoop.

(** ** What the client returns *)

Section Answers.

Lemma snd_zip_sublist {A B} (l : list A) : ∀ k : list B,
  (zip l k).*2 `sublist_of` k.
Proof.
  induction l as [|x l IH]; intros [|y k]; simpl; try done.
  - apply sublist_nil_l.
  - by apply sublist_skip.
Qed.

(** The loop of the batch parser appends, in order, summaries that answer
    some of the items. *)
Lemma parse_entries_answers pairs : ∀ results out,
  parse_entries pairs results = Some out →
  ∃ answered added,
    out = results ++ added
    ∧ answered `sublist_of` pairs.*2
    ∧ Forall2 answers answered added.
Proof.
  induction pairs as [|[data item] rest IH]; intros results out; simpl.
  - intros [= <-]. exists [], []. by rewrite app_nil_r.
  - destruct (parse_entry data (title item) (id item))
      as [[summary|]|] eqn:Hparse; simpl; [| |done].
    + intros (answered & added & -> & Hsub & Hall)%IH.
      exists (item :: answered), (summary :: added).
      rewrite <- app_assoc. split; [done|]. split; [by constructor|].
      constructor; [|done]. by apply (parse_entry_answers data).
    + intros (answered & added & -> & Hsub & Hall)%IH.
      exists answered, added. split; [done|]. split; [|done].
      by apply sublist_cons.
Qed.

Lemma batch_response_answers decoded items summaries :
  _parse_batch_response decoded items = Some summaries →
  ∃ answered,
    answered `sublist_of` items ∧ Forall2 answers answered summaries.
Proof.
  unfold _parse_batch_response.
  destruct decoded as [[| | | | |data_array|]|]; simpl; try done.
  intros (answered & added & -> & Hsub & Hall)%parse_entries_answers.
  exists answered. split; [|done].
  etrans; [exact Hsub|]. apply snd_zip_sublist.
Qed.

(** Whatever the backend does, a batch call returns summaries that the
    batch parser made of one response, or none. *)
Lemma batch_call_answers settings backend items max_retries :
  ∃ answered,
    answered `sublist_of` items
    ∧ Forall2 answers answered
        (summarize_items_batch settings backend items max_retries).2.
Proof.
  unfold summarize_items_batch. destruct items as [|item items].
  { exists []. by split. }
  unfold retry.
  destruct (attempt_loop_outcome backend
              (fun decoded =>
                 match _parse_batch_response decoded (item :: items) with
                 | Some (summary :: summaries) => Some (summary :: summaries)
                 | _ => None
                 end)
              [] max_retries (Py.range max_retries) (gemini_model settings))
    as [(model & attempt & decoded & _ & _ & Hparse)|(-> & _)].
  - destruct (_parse_batch_response decoded (item :: items))
      as [[|summary summaries]|] eqn:Hbatch; try done.
    injection Hparse as <-. by apply (batch_response_answers decoded).
  - exists []. split; [apply sublist_nil_l|done].
Qed.

End Answers.

(** X12.  The requests of a call are numbered 0, 1, 2, ... without a gap,
    there are at most [max_retries] of them, and they go to the configured
    model up to some iteration and to the fallback model from then on. *)
Theorem retry_requests {R : Type} (settings : Settings)
    (backend : Z → string → outcome) (parse : option json → option R)
    (failed : R) (max_retries : Z) :
  let events := (retry settings backend parse failed max_retries).1 in
  (requests events).*2 = Py.range (Z.of_nat (length (requests events)))
  ∧ Z.of_nat (length (requests events)) ≤ Z.max 0 max_retries
  ∧ ∃ i j,
      (requests events).*1
      = replicate i (gemini_model settings) ++ replicate j fallback_model.
Proof.
  intros events. subst events. unfold retry.
  pose proof (attempt_loop_requests backend parse failed max_retries
                (Py.range max_retries) (gemini_model settings)) as Hnumbers.
  set (events := (attempt_loop _ _ _ _ _ _).1) in *.
  assert (Hcount : (length (requests events) ≤ Z.to_nat max_retries)%nat).
  { apply (f_equal length) in Hnumbers.
    rewrite length_fmap, length_take in Hnumbers. unfold Py.range in Hnumbers.
    rewrite length_map, length_seq in Hnumbers. lia. }
  split; [|split; [lia|apply attempt_loop_models]].
  rewrite Hnumbers. unfold Py.range. rewrite Nat2Z.id.
  change (List.map Z.of_nat) with (fmap (M:=list) Z.of_nat).
  rewrite <- fmap_take, take_seq. by rewrite Nat.min_l.
Qed.

(** X13.  A call with [max_retries >= 1] sleeps less than
    [2 ^ (max_retries - 1)] seconds in all. *)
Theorem retry_sleep_bound {R : Type} (settings : Settings)
    (backend : Z → string → outcome) (parse : option json → option R)
    (failed : R) (max_retries : Z) :
  1 ≤ max_retries →
  0 ≤ slept (retry settings backend parse failed max_retries).1
    ≤ 2 ^ (max_retries - 1) - 1.
Proof.
  intros Hretries. unfold retry.
  pose proof (attempt_loop_slept backend parse failed max_retries
                (Py.range max_retries) (gemini_model settings)) as Hslept.
  pose proof (backoff_total max_retries (Z.to_nat max_retries)) as Htotal.
  unfold Py.range in Hslept.
  change (List.map Z.of_nat) with (fmap (M:=list) Z.of_nat) in Hslept.
  replace (Z.max 0 (Z.min (Z.of_nat (Z.to_nat max_retries)) (max_retries - 1)))
    with (max_retries - 1) in Htotal by lia.
  unfold Py.range. change (List.map Z.of_nat) with (fmap (M:=list) Z.of_nat).
  lia.
Qed.

(** A backend that always fails: with three attempts the call sleeps one
    second, then two. *)
Lemma retry_sleep_bound_witness :
  0 ≤ slept (retry default_settings never (fun _ => None) tt 3).1 ≤ 2 ^ (3 - 1) - 1
  ∧ (retry default_settings never (fun _ : option json => None) tt 3).1
    = [Generate "gemini-2.5-pro" 0; Sleep 1;
       Generate "gemini-2.5-pro" 1; Sleep 2;
       Generate "gemini-2.5-pro" 2].
Proof.
  split; [|reflexivity].
  apply (retry_sleep_bound default_settings never (fun _ => None) tt 3). lia.
Defined.

(** X14.  A call returns the result parsed from the response to its last
    request, or fails after [max_retries] fruitless requests. *)
Theorem retry_outcome {R : Type} (settings : Settings)
    (backend : Z → string → outcome) (parse : option json → option R)
    (failed : R) (max_retries : Z) :
  let run := retry settings backend parse failed max_retries in
  (∃ model attempt decoded,
     last run.1 = Some (Generate model attempt)
     ∧ backend attempt model = Response decoded
     ∧ parse decoded = Some run.2)
  ∨ (run.2 = failed
     ∧ (requests run.1).*2 = Py.range max_retries
     ∧ Forall (fruitless backend parse) (requests run.1)).
Proof. apply attempt_loop_outcome. Qed.

(** X15.  The summaries the batch parser returns answer some of the items,
    in the order of the items: each has the identifier of its item, the
    title of its item when that has at most 65 characters, and is within
    the limits on title, caption and hashtags. *)
Theorem batch_summaries_answer_items
    (decoded : option json) (items : list FeedItem)
    (summaries : list SummaryResult) :
  _parse_batch_response decoded items = Some summaries →
  ∃ answered,
    answered `sublist_of` items ∧ Forall2 answers answered summaries.
Proof. apply batch_response_answers. Qed.

Lemma batch_summaries_answer_items_witness :
  ∃ summaries answered,
    _parse_batch_response (Some (JArr [good_entry; thin_entry; good_entry]))
      [pictured "a1" "tech"; pictured "a2" "tech"; pictured "b1" "world"]
    = Some summaries
    ∧ answered
      `sublist_of` [pictured "a1" "tech"; pictured "a2" "tech";
                    pictured "b1" "world"]
    ∧ Forall2 answers answered summaries.
Proof.
  destruct (_parse_batch_response
              (Some (JArr [good_entry; thin_entry; good_entry]))
              [pictured "a1" "tech"; pictured "a2" "tech";
               pictured "b1" "world"])
    as [summaries|] eqn:Hparse; [|by vm_compute in Hparse].
  destruct (batch_summaries_answer_items _ _ _ Hparse)
    as (answered & Hsub & Hall).
  exists summaries, answered. split; [reflexivity|].
  split; [exact Hsub|exact Hall].
Defined.

(** X16.  Whatever the backend does, the summaries [summarize_items_batch]
    returns answer some of the items it was given, in the order of the
    items. *)
Theorem summarize_items_batch_answers (settings : Settings)
    (backend : Z → string → outcome) (items : list FeedItem)
    (max_retries : Z) :
  ∃ answered,
    answered `sublist_of` items
    ∧ Forall2 answers answered
        (summarize_items_batch settings backend items max_retries).2.
Proof. apply batch_call_answers. Qed.

(** X17.  A summary [summarize] returns answers the item it was given. *)
Theorem summarize_answers (settings : Settings)
    (backend : Z → string → outcome) (item : FeedItem) (max_retries : Z)
    (summary : SummaryResult) :
  (summarize settings backend item max_retries).2 = Some summary →
  answers item summary.
Proof.
  unfold summarize, retry.
  destruct (attempt_loop_outcome backend
              (fun decoded =>
                 Some <$> _parse_response decoded (title item) (id item))
              None max_retries (Py.range max_retries) (gemini_model settings))
    as [(model & attempt & decoded & _ & _ & Hparse)|(-> & _)]; [|done].
  intros Hresult. rewrite Hresult in Hparse.
  unfold _parse_response in Hparse.
  destruct decoded as [data|]; [|done]. simpl in Hparse.
  destruct (parse_entry data (title item) (id item)) as [[made|]|] eqn:Hentry;
    try done.
  injection Hparse as ->. by apply (parse_entry_answers data).
Qed.

Lemma summarize_answers_witness :
  ∃ summary,
    (summarize default_settings (always (Some good_entry))
       (pictured "a1" "tech") 3).2 = Some summary
    ∧ answers (pictured "a1" "tech") summary.
Proof.
  destruct (summarize default_settings (always (Some good_entry))
              (pictured "a1" "tech") 3).2 as [summary|] eqn:Hrun;
    [|by vm_compute in Hrun].
  exists summary. split; [reflexivity|].
  exact (summarize_answers _ _ _ _ _ Hrun).
Defined.

(** ** Posts *)

Section Posts.

Variable render_post :
  nat → SummaryResult → FeedItem → option (string * string * Z).

Lemma foldl_index_lookup feed_items ident : ∀ d : gmap string FeedItem,
  foldl (fun d item => <[id item := item]> d) d feed_items !! ident
  = from_option Some (d !! ident) (item_of feed_items ident).
Proof.
  unfold item_of.
  induction feed_items as [|item rest IH]; intros d; [done|].
  cbn [foldl]. rewrite IH. destruct (decide (id item = ident)) as [Hid|Hid].
  - rewrite filter_cons_True by done. rewrite <- Hid, lookup_insert_eq.
    rewrite Hid. destruct (filter _ rest) as [|x l]; [done|].
    rewrite last_cons_cons.
    destruct (last (x :: l)) eqn:Hlast; [done|]. by apply last_None in Hlast.
  - rewrite filter_cons_False by done. by rewrite lookup_insert_ne.
Qed.

(** A later item replaces an earlier one with the same identifier. *)
Lemma index_by_id_lookup feed_items ident :
  index_by_id feed_items !! ident = item_of feed_items ident.
Proof.
  unfold index_by_id. rewrite foldl_index_lookup, lookup_empty.
  by destruct (item_of feed_items ident).
Qed.

Lemma item_of_Some feed_items ident item :
  item_of feed_items ident = Some item →
  id item = ident ∧ item ∈ feed_items.
Proof.
  unfold item_of. intros Hlast.
  assert (Hin : item ∈ filter (fun item => id item = ident) feed_items).
  { destruct (filter _ feed_items) as [|x l] using rev_ind; [done|].
    rewrite last_snoc in Hlast. injection Hlast as ->.
    apply elem_of_app. right. apply list_elem_of_here. }
  by apply list_elem_of_filter in Hin.
Qed.

Lemma item_of_known feed_items ident :
  ident ∈ id <$> feed_items → is_Some (item_of feed_items ident).
Proof.
  intros (item & -> & Hitem)%list_elem_of_fmap. unfold item_of.
  assert (Hin : item ∈ filter (fun other => id other = id item) feed_items)
    by by apply list_elem_of_filter.
  destruct (filter _ feed_items) as [|x l] using rev_ind.
  - by apply elem_of_nil in Hin.
  - rewrite last_snoc. by eexists.
Qed.

Lemma create_post_summary i summary feed_item post :
  create_post render_post i summary feed_item = Some post →
  Post.summary post = summary ∧ Post.feed_item_id post = id feed_item.
Proof.
  unfold create_post.
  destruct (render_post i summary feed_item) as [[[main caption] height]|];
    [|done].
  by intros [= <-].
Qed.

(** The loop appends, in order, posts made of some of the summaries, each
    with the item its identifier finds. *)
Lemma create_posts_loop_spec d summaries : ∀ i posts,
  ∃ added,
    create_posts_loop render_post d i summaries posts = posts ++ added
    ∧ Post.summary <$> added `sublist_of` summaries
    ∧ Forall (fun post =>
                ∃ j item,
                  d !! Summary.feed_item_id (Post.summary post) = Some item
                  ∧ create_post render_post j (Post.summary post) item
                    = Some post) added.
Proof.
  induction summaries as [|summary rest IH]; intros i posts; simpl.
  - exists []. by rewrite app_nil_r.
  - destruct (d !! Summary.feed_item_id summary) as [item|] eqn:Hitem.
    + destruct (create_post render_post i summary item) as [post|] eqn:Hpost.
      * destruct (IH (S i) (posts ++ [post])) as (added & -> & Hsub & Hall).
        exists (post :: added). rewrite <- app_assoc. split; [done|].
        destruct (create_post_summary _ _ _ _ Hpost) as [Hsummary _].
        rewrite fmap_cons, Hsummary. split; [by constructor|].
        constructor; [|done]. exists i, item. by rewrite Hsummary.
      * destruct (IH (S i) posts) as (added & -> & Hsub & Hall).
        exists added. split; [done|]. split; [by apply sublist_cons|done].
    + destruct (IH (S i) posts) as (added & -> & Hsub & Hall).
      exists added. split; [done|]. split; [by apply sublist_cons|done].
Qed.

(** When every summary finds its item and rendering succeeds, every summary
    gets its post. *)
Lemma create_posts_loop_all d summaries : ∀ i posts,
  Forall (fun summary => is_Some (d !! Summary.feed_item_id summary))
    summaries →
  (∀ j summary item, is_Some (render_post j summary item)) →
  Post.summary
    <$> create_posts_loop render_post d i summaries posts
  = (Post.summary <$> posts) ++ summaries.
Proof.
  intros i posts Hknown Hrender. revert i posts.
  induction Hknown as [|summary rest [item Hitem] _ IH]; intros i posts; simpl.
  - by rewrite app_nil_r.
  - rewrite Hitem. unfold create_post.
    destruct (Hrender i summary item) as [[[main caption] height] ->].
    rewrite IH, fmap_app, <- app_assoc. done.
Qed.

End Posts.

Section ExportLemmas.

Variable isoformat_now : option nat → string.

(** The loop appends one record for every post whose identifier finds an
    item. *)
Lemma export_loop_spec feed_items posts : ∀ i exported,
  ∃ added,
    export_loop isoformat_now (index_by_id feed_items) i posts exported
    = exported ++ added
    ∧ Forall2 (exports feed_items)
        (filter (fun post => Post.feed_item_id post ∈ id <$> feed_items) posts)
        added.
Proof.
  induction posts as [|post rest IH]; intros i exported; simpl.
  - exists []. by rewrite app_nil_r.
  - rewrite index_by_id_lookup.
    destruct (item_of feed_items (Post.feed_item_id post)) as [item|] eqn:Hitem.
    + destruct (item_of_Some _ _ _ Hitem) as [Hid Hin].
      rewrite filter_cons_True
        by (apply list_elem_of_fmap; by exists item).
      match goal with
      | |- context [export_loop _ _ _ _ (exported ++ [?r])] =>
          destruct (IH (S i) (exported ++ [r])) as (added & -> & Hall);
          exists (r :: added)
      end.
      rewrite <- app_assoc. split; [done|].
      constructor; [|done]. exists item. simpl.
      repeat split; try done; by case_bool_decide.
    + rewrite filter_cons_False.
      * destruct (IH (S i) exported) as (added & -> & Hall). by exists added.
      * intros [item' Hsome]%item_of_known. congruence.
Qed.

End ExportLemmas.

Section PostLemmas.

Variable render_post :
  nat → SummaryResult → FeedItem → option (string * string * Z).

Lemma created_posts_made summaries feed_items :
  let posts := create_posts_for_summaries render_post summaries feed_items in
  Post.summary <$> posts `sublist_of` summaries
  ∧ Forall (made_from render_post feed_items) posts.
Proof.
  unfold create_posts_for_summaries.
  destruct (create_posts_loop_spec render_post (index_by_id feed_items)
              summaries 0 [])
    as (added & -> & Hsub & Hall).
  simpl. split; [done|].
  eapply Forall_impl; [exact Hall|]. intros post (j & item & Hitem & Hpost).
  exists j, item. by rewrite <- index_by_id_lookup.
Qed.

Lemma made_from_id feed_items post :
  made_from render_post feed_items post →
  Post.feed_item_id post = Summary.feed_item_id (Post.summary post)
  ∧ Post.feed_item_id post ∈ id <$> feed_items.
Proof.
  intros (j & item & Hitem & Hpost).
  destruct (item_of_Some _ _ _ Hitem) as [Hid Hin].
  destruct (create_post_summary _ _ _ _ _ Hpost) as [_ ->].
  split; [done|]. apply list_elem_of_fmap. by exists item.
Qed.

Lemma filter_all {A} (P : A → Prop) `{!∀ x, Decision (P x)} (l : list A) :
  Forall P l → filter P l = l.
Proof.
  induction 1 as [|x l Hx _ IH]; [done|].
  by rewrite filter_cons_True, IH.
Qed.

Lemma export_records isoformat_now posts feed_items :
  Forall2 (exports feed_items)
    (filter (fun post => Post.feed_item_id post ∈ id <$> feed_items) posts)
    (Exported.posts (export_posts_json isoformat_now posts feed_items)).
Proof.
  unfold export_posts_json. simpl.
  by destruct (export_loop_spec isoformat_now feed_items posts 0 [])
    as (added & -> & Hall).
Qed.

End PostLemmas.

(** X18.  The posts [create_posts_for_summaries] returns are made of some
    of the summaries, in their order; each is what [create_post] made of
    its summary and of the last of the items that has the summary's
    identifier, and carries that identifier. *)
Theorem create_posts_for_summaries_spec
    (render_post :
       nat → SummaryResult → FeedItem → option (string * string * Z))
    (summaries : list SummaryResult) (feed_items : list FeedItem) :
  let posts := create_posts_for_summaries render_post summaries feed_items in
  Post.summary <$> posts `sublist_of` summaries
  ∧ Forall (made_from render_post feed_items) posts
  ∧ Forall (fun post =>
              Post.feed_item_id post
              = Summary.feed_item_id (Post.summary post)) posts.
Proof.
  intros posts.
  destruct (created_posts_made render_post summaries feed_items)
    as [Hsub Hmade].
  split; [done|]. split; [done|].
  eapply Forall_impl; [exact Hmade|]. intros post Hpost.
  by destruct (made_from_id _ _ _ Hpost).
Qed.

(** X19.  When the identifier of every summary is that of one of the items
    and rendering never fails, every summary gets its post. *)
Theorem create_posts_for_summaries_all
    (render_post :
       nat → SummaryResult → FeedItem → option (string * string * Z))
    (summaries : list SummaryResult) (feed_items : list FeedItem) :
  Forall (fun summary => Summary.feed_item_id summary ∈ id <$> feed_items)
    summaries →
  (∀ i summary item, is_Some (render_post i summary item)) →
  Post.summary <$> create_posts_for_summaries render_post summaries feed_items
  = summaries.
Proof.
  intros Hknown Hrender. unfold create_posts_for_summaries.
  rewrite create_posts_loop_all; [done| |done].
  eapply Forall_impl; [exact Hknown|]. intros summary Hid.
  rewrite index_by_id_lookup. by apply item_of_known.
Qed.

Lemma create_posts_for_summaries_all_witness :
  ∃ summary,
    parse_entry good_entry "Article a1" "a1" = Some (Some summary)
    ∧ Post.summary
        <$> create_posts_for_summaries fixed_renderer [summary; summary]
              [pictured "b1" "world"; pictured "a1" "tech"]
      = [summary; summary].
Proof.
  destruct (parse_entry good_entry "Article a1" "a1")
    as [[summary|]|] eqn:Hparse; [|by vm_compute in Hparse..].
  exists summary. split; [reflexivity|].
  destruct (parse_entry_answers good_entry (pictured "a1" "tech") summary Hparse)
    as [Hid _].
  apply create_posts_for_summaries_all.
  - assert (Hin : Summary.feed_item_id summary
                  ∈ id <$> [pictured "b1" "world"; pictured "a1" "tech"]).
    { rewrite Hid. apply list_elem_of_further, list_elem_of_here. }
    constructor; [exact Hin|]. constructor; [exact Hin|]. constructor.
  - intros i s item. by eexists.
Defined.

(** X20.  The exported document has one record for every post whose
    identifier is that of one of the items, in the order of the posts; the
    record takes the item's fields from the last item with that identifier,
    and its source is never the empty text. *)
Theorem export_posts_json_records
    (isoformat_now : option nat → string)
    (posts : list PostResult) (feed_items : list FeedItem) :
  Forall2 (exports feed_items)
    (filter (fun post => Post.feed_item_id post ∈ id <$> feed_items) posts)
    (Exported.posts (export_posts_json isoformat_now posts feed_items)).
Proof. apply export_records. Qed.

(** ** The workflow *)

Section WorkflowLemmas.

Variable isoformat_now : option nat → string.
Variable settings : Settings.
Variable gemini_api_key : string.
Variable feeds : list FeedEntry.
Variable clock : nat → datetime.
Variable backend : Z → string → outcome.
Variable render_post :
  nat → SummaryResult → FeedItem → option (string * string * Z).
Variable last_run : datetime.
Variable parsed_feeds : list ParsedFeed.
Variable skip_time_filter : bool.

Lemma extend_fetched_items feed_list : ∀ new_items,
  foldl (fun new_items feed =>
           if truthy (Feed.error feed) then new_items
           else new_items ++ Feed.items feed)
    new_items feed_list
  = new_items ++ fetched_items feed_list.
Proof.
  unfold fetched_items.
  induction feed_list as [|feed rest IH]; intros new_items; simpl.
  - by rewrite app_nil_r.
  - destruct (truthy (Feed.error feed)) eqn:Herr.
    + rewrite filter_cons_False by (rewrite Herr; intros H; by apply H).
      by rewrite IH.
    + rewrite filter_cons_True by (rewrite Herr; intros []).
      rewrite IH, fmap_cons. simpl. by rewrite app_assoc.
Qed.

Lemma top_n_or_same n : top_n_or (Some n) n = n.
Proof. unfold top_n_or. destruct (Z.eqb_spec n 0); congruence. Qed.

Lemma ensure_category_diversity_negative scored top_n :
  top_n < 0 → ensure_category_diversity scored top_n = [].
Proof.
  intros Hneg. unfold ensure_category_diversity.
  destruct (Z.leb_spec (Z.of_nat (length scored)) top_n); [lia|].
  assert (Hpass : (diversity_pass top_n (Z.max 2 (top_n / 2)) scored [] ∅).1
                  = []).
  { destruct scored as [|[item score] rest]; [done|]. cbn [diversity_pass].
    destruct (Z.leb_spec top_n (Z.of_nat (length (@nil FeedItem))));
      [done|simpl in *; lia]. }
  rewrite Hpass.
  destruct (Z.ltb_spec (Z.of_nat (length (@nil FeedItem))) top_n);
    [simpl in *; lia|done].
Qed.

Lemma select_top_items_bound items top_n :
  Z.of_nat (length (select_top_items settings feeds clock items top_n))
  ≤ Z.max 0 (top_n_or top_n (top_n_items settings)).
Proof.
  destruct (Z.le_gt_cases 0 (top_n_or top_n (top_n_items settings)))
    as [Hnn|Hneg].
  - pose proof (select_top_items_length settings feeds clock items top_n Hnn).
    lia.
  - unfold select_top_items. destruct items as [|i0 items0]; [simpl; lia|].
    destruct (filter _ (i0 :: items0)); [simpl; lia|].
    rewrite ensure_category_diversity_negative by lia. simpl. lia.
Qed.

(** The early returns of [run_workflow] agree with running the remaining
    stages on nothing: a run is the composition of the stages. *)
Lemma run_workflow_composition :
  let run :=
    run_workflow isoformat_now settings gemini_api_key feeds clock backend
      render_post last_run parsed_feeds skip_time_filter in
  run_new_items run
  = (if bool_decide (gemini_api_key = EmptyString) then []
     else if skip_time_filter then fetched_items parsed_feeds
          else filter (fun item => is_new last_run item)
                 (fetched_items parsed_feeds))
  ∧ run_selected_items run
    = select_top_items settings feeds clock (run_new_items run)
        (Some (top_n_items settings))
  ∧ (run_events run, run_summaries run)
    = summarize_items settings backend (run_selected_items run)
  ∧ run_posts run
    = create_posts_for_summaries render_post (run_summaries run)
        (run_selected_items run)
  ∧ run_marked_complete run
    = negb skip_time_filter && negb (bool_decide (run_summaries run = []))
  ∧ run_exported run
    = (if bool_decide (run_posts run = []) then None
       else Some (export_posts_json isoformat_now (run_posts run)
                    (run_selected_items run))).
Proof.
  unfold run_workflow. case_bool_decide as Hkey.
  { simpl. by rewrite andb_false_r. }
  unfold filter_new_items.
  rewrite extend_fetched_items, filter_feeds_spec. simpl.
  set (new_items := if skip_time_filter then _ else _).
  destruct new_items as [|item0 rest0] eqn:Hnew.
  { simpl. by rewrite andb_false_r. }
  rewrite <- Hnew. clear Hnew.
  destruct (select_top_items settings feeds clock new_items
              (Some (top_n_items settings))) as [|selected0 more] eqn:Hselected.
  { simpl. rewrite Hselected. by rewrite andb_false_r. }
  rewrite <- Hselected.
  set (selected := select_top_items _ _ _ _ _) in *.
  destruct (summarize_items settings backend selected)
    as [events summaries] eqn:Hsummaries.
  destruct summaries as [|summary0 others].
  { simpl. by rewrite andb_false_r. }
  simpl. rewrite andb_true_r.
  repeat split; try done.
  by destruct (create_posts_for_summaries render_post (summary0 :: others)
                 selected).
Qed.

End WorkflowLemmas.

Section Effects.



End Effects.


(** X22.  In every run: the selected items are fetched items with an image,
    at most [top_n_items] of them; the summaries answer some of the selected
    items, in their order; the posts are made of some of the summaries, in
    their order; and an exported document has one record for every post, in
    order. *)
Theorem run_workflow_guarantees
    (isoformat_now : option nat → string) (settings : Settings)
    (gemini_api_key : string) (feeds : list FeedEntry)
    (clock : nat → datetime) (backend : Z → string → outcome)
    (render_post :
       nat → SummaryResult → FeedItem → option (string * string * Z))
    (last_run : datetime) (parsed_feeds : list ParsedFeed)
    (skip_time_filter : bool) :
  let run :=
    run_workflow isoformat_now settings gemini_api_key feeds clock backend
      render_post last_run parsed_feeds skip_time_filter in
  (∀ item, item ∈ run_selected_items run →
     item ∈ fetched_items parsed_feeds ∧ truthy (image_url item) = true)
  ∧ Z.of_nat (length (run_selected_items run))
    ≤ Z.max 0 (top_n_items settings)
  ∧ (∃ answered,
       answered `sublist_of` run_selected_items run
       ∧ Forall2 answers answered (run_summaries run))
  ∧ Post.summary <$> run_posts run `sublist_of` run_summaries run
  ∧ Forall (made_from render_post (run_selected_items run)) (run_posts run)
  ∧ (∀ document,
       run_exported run = Some document →
       Forall2 (exports (run_selected_items run)) (run_posts run)
         (Exported.posts document)).
Proof.
  intros run.
  destruct (run_workflow_composition isoformat_now settings gemini_api_key
              feeds clock backend render_post last_run parsed_feeds
              skip_time_filter)
    as (Hnew & Hselected & Hsummaries & Hposts & _ & Hexported).
  fold run in Hnew, Hselected, Hsummaries, Hposts, Hexported.
  split.
  { intros item Hitem. rewrite Hselected in Hitem.
    apply select_top_items_elem_of in Hitem as [Hin Himage].
    split; [|done]. rewrite Hnew in Hin.
    case_bool_decide; [by apply elem_of_nil in Hin|].
    destruct skip_time_filter; [done|].
    by apply list_elem_of_filter in Hin as [_ Hin]. }
  split.
  { rewrite Hselected.
    pose proof (select_top_items_bound settings feeds clock
                  (run_new_items run) (Some (top_n_items settings))) as Hlen.
    by rewrite top_n_or_same in Hlen. }
  split.
  { destruct (batch_call_answers settings backend (run_selected_items run) 3)
      as (answered & Hsub & Hall).
    exists answered. split; [done|].
    unfold summarize_items in Hsummaries. by rewrite <- Hsummaries in Hall. }
  destruct (created_posts_made render_post (run_summaries run)
              (run_selected_items run)) as [Hsub Hmade].
  rewrite <- Hposts in Hsub, Hmade.
  split; [done|]. split; [done|].
  intros document Hdocument. rewrite Hexported in Hdocument.
  case_bool_decide; [done|]. injection Hdocument as <-.
  pose proof (export_records isoformat_now (run_posts run)
                (run_selected_items run)) as Hrecords.
  rewrite filter_all in Hrecords; [done|].
  eapply Forall_impl; [exact Hmade|]. intros post Hpost.
  by destruct (made_from_id _ _ _ Hpost).
Qed.

(** ** Selection with few candidates *)

(** X23.  When no more items have an image than are asked for, every item
    with an image is selected, in rank order. *)
Theorem select_top_items_takes_all (settings : Settings)
    (feeds : list FeedEntry) (clock : nat → datetime)
    (items : list FeedItem) (top_n : option Z) :
  Z.of_nat (length (filter (fun item => truthy (image_url item)) items))
  ≤ top_n_or top_n (top_n_items settings) →
  select_top_items settings feeds clock items top_n
  = (rank_items feeds clock
       (filter (fun item => truthy (image_url item)) items)).*1
  ∧ select_top_items settings feeds clock items top_n
    ≡ₚ filter (fun item => truthy (image_url item)) items.
Proof.
  intros Hfew.
  assert (Hselected :
            select_top_items settings feeds clock items top_n
            = (rank_items feeds clock
                 (filter (fun item => truthy (image_url item)) items)).*1).
  { unfold select_top_items. destruct items as [|item0 rest]; [done|].
    destruct (filter _ (item0 :: rest)) as [|pictured0 others] eqn:Hfilter;
      [done|].
    rewrite <- Hfilter in *. unfold ensure_category_diversity.
    pose proof (rank_items_Permutation feeds clock
                  (filter (fun item => truthy (image_url item))
                     (item0 :: rest))) as Hperm.
    apply Permutation_length in Hperm. rewrite length_fmap in Hperm.
    rewrite Hperm. destruct (Z.of_nat _ <=? _) eqn:Hle; [done|].
    apply Z.leb_gt in Hle. lia. }
  split; [done|]. rewrite Hselected. apply rank_items_Permutation.
Qed.

Lemma select_top_items_takes_all_witness :
  select_top_items default_settings [] (fun _ => 0)
    [article "a0" "tech" None; pictured "a1" "tech"; pictured "b1" "world"]
    None
  ≡ₚ [pictured "a1" "tech"; pictured "b1" "world"].
Proof.
  apply (select_top_items_takes_all default_settings [] (fun _ => 0)
           [article "a0" "tech" None; pictured "a1" "tech";
            pictured "b1" "world"] None).
  vm_compute. discriminate.
Defined.

(** ** Scores *)

(** X24.  The recency score never rises with age: of two dated items
    scored at the same time, the one published earlier scores at most as
    high. *)
Theorem recency_never_rises_with_age
    (now : datetime) (older item : FeedItem) (earlier later : datetime) :
  published_date older = Some earlier →
  published_date item = Some later →
  earlier ≤ later →
  PrimFloat.leb (_calculate_recency_score now older)
    (_calculate_recency_score now item) = true.
Proof.
  intros Holder Hitem Horder. unfold _calculate_recency_score.
  rewrite Holder, Hitem. unfold hours, days, microseconds_per_hour.
  repeat match goal with
         | |- context [?x <? ?y] => destruct (Z.ltb_spec x y)
         end;
    first [lia | vm_compute; reflexivity].
Qed.

Lemma recency_never_rises_with_age_witness :
  PrimFloat.leb
    (_calculate_recency_score (days 3) (dated "a1" "tech" 0))
    (_calculate_recency_score (days 3) (dated "a2" "tech" (days 2)))
  = true.
Proof.
  apply (recency_never_rises_with_age (days 3) (dated "a1" "tech" 0)
           (dated "a2" "tech" (days 2)) 0 (days 2)); [done|done|].
  vm_compute. discriminate.
Defined.

(** X25.  With the default source priority of 1.0, every score lies between
    0.49 and 1.2. *)
Theorem calculate_score_range
    (feeds : list FeedEntry) (now : datetime) (item : FeedItem) :
  _get_source_priority feeds item = 1.0%float →
  PrimFloat.leb 0.49 (calculate_score feeds now item) = true
  ∧ PrimFloat.leb (calculate_score feeds now item) 1.2 = true.
Proof.
  intros Hpriority. unfold calculate_score. rewrite Hpriority.
  unfold _calculate_recency_score, _description_quality_score,
    _has_image_bonus.
  destruct (published_date item) as [published|];
    repeat match goal with
           | |- context [if ?b then _ else _] => destruct b
           end;
    split; vm_compute; reflexivity.
Qed.

Lemma calculate_score_range_witness :
  PrimFloat.leb 0.49 (calculate_score [] 0 (pictured "a1" "tech")) = true
  ∧ PrimFloat.leb (calculate_score [] 0 (pictured "a1" "tech")) 1.2 = true.
Proof. apply calculate_score_range. reflexivity. Defined.

Lemma priority_with_image feeds item image :
  _get_source_priority feeds (with_image item image)
  = _get_source_priority feeds item.
Proof.
  unfold _get_source_priority.
  induction feeds as [|feed rest IH]; simpl; [done|]. by rewrite IH.
Qed.

(** X26.  With the default source priority of 1.0, an image strictly raises
    the score of an item: rounding to four digits never absorbs the
    bonus. *)
Theorem image_raises_score
    (feeds : list FeedEntry) (now : datetime) (item : FeedItem)
    (image : option string) :
  _get_source_priority feeds item = 1.0%float →
  truthy image = true →
  PrimFloat.ltb (calculate_score feeds now (with_image item None))
    (calculate_score feeds now (with_image item image)) = true.
Proof.
  intros Hpriority Himage. unfold calculate_score.
  rewrite !priority_with_image, Hpriority.
  unfold _calculate_recency_score, _description_quality_score,
    _has_image_bonus.
  cbn [with_image published_date description image_url].
  rewrite Himage. change (truthy None) with false. cbv iota.
  destruct (published_date item) as [published|];
    repeat match goal with
           | |- context [if ?b then _ else _] => destruct b
           end;
    vm_compute; reflexivity.
Qed.

Lemma image_raises_score_witness :
  PrimFloat.ltb
    (calculate_score [] 0 (with_image (article "a1" "tech" None) None))
    (calculate_score [] 0
       (with_image (article "a1" "tech" None)
          (Some "https://example.org/cover.png")))
  = true.
Proof. apply image_raises_score; reflexivity. Defined.

(** ** Identifiers *)

Section Identifiers.

Implicit Types (feed_items : list FeedItem) (item : FeedItem).

Lemma distinct_ids_inj feed_items x y :
  NoDup (id <$> feed_items) → x ∈ feed_items → y ∈ feed_items →
  id x = id y → x = y.
Proof.
  induction feed_items as [|z rest IH]; [by intros _ ?%elem_of_nil|].
  rewrite fmap_cons. intros [Hz Hrest]%NoDup_cons Hx Hy Hid.
  apply elem_of_cons in Hx as [->|Hx]; apply elem_of_cons in Hy as [->|Hy].
  - done.
  - destruct Hz. rewrite Hid. apply list_elem_of_fmap. by exists y.
  - destruct Hz. rewrite <- Hid. apply list_elem_of_fmap. by exists x.
  - by apply IH.
Qed.

(** A lookup finds the item itself when no other item has its
    identifier. *)
Lemma item_of_unique feed_items item :
  (∀ x, x ∈ feed_items → id x = id item → x = item) →
  item ∈ feed_items →
  item_of feed_items (id item) = Some item.
Proof.
  intros Hunique Hin. unfold item_of.
  assert (Hitem : item ∈ filter (fun x => id x = id item) feed_items)
    by by apply list_elem_of_filter.
  destruct (filter _ feed_items) as [|y l] eqn:Hfilter using rev_ind.
  - by apply elem_of_nil in Hitem.
  - rewrite last_snoc. f_equal.
    assert (Hy : y ∈ filter (fun x => id x = id item) feed_items).
    { rewrite Hfilter. apply elem_of_app. right. apply list_elem_of_here. }
    apply list_elem_of_filter in Hy as [Hid Hy]. by apply Hunique.
Qed.

Lemma Forall2_with_left {A B} (R : A → B → Prop) (P : A → Prop)
    (l : list A) (k : list B) :
  Forall2 R l k → Forall P l → Forall2 (fun x y => P x ∧ R x y) l k.
Proof.
  induction 1 as [|x y l k Hxy _ IH]; intros HP; [constructor|].
  apply Forall_cons in HP as [Hx HP]. constructor; [done|by apply IH].
Qed.

End Identifiers.

(** X27.  The lookup table built from the items maps an identifier to the
    last item that has it; when the identifiers of the items are pairwise
    distinct, it maps the identifier of every item to that item. *)
Theorem index_by_id_finds (feed_items : list FeedItem) :
  (∀ ident,
     index_by_id feed_items !! ident
     = last (filter (fun item => id item = ident) feed_items))
  ∧ (NoDup (id <$> feed_items) →
     ∀ item, item ∈ feed_items →
       index_by_id feed_items !! id item = Some item).
Proof.
  split; [intros ident; apply index_by_id_lookup|].
  intros Hdistinct item Hin. rewrite index_by_id_lookup.
  apply item_of_unique; [|done].
  intros x Hx Hid. by apply (distinct_ids_inj feed_items).
Qed.

(** An article fetched from two feeds has one identifier and two
    categories: the lookup gives the second item for both. *)
Lemma duplicate_identifier_finds_last :
  index_by_id twice_fetched !! "a1" = Some (pictured "a1" "world").
Proof.
  destruct (index_by_id_finds twice_fetched) as [Hlast _].
  rewrite Hlast. reflexivity.
Qed.

(** X28.  When the identifiers of the fetched items are pairwise distinct,
    every record of the exported document describes the item its summary
    was written for: the summary of the post answers a selected item, and
    the title, link, image and category of the record are those of that
    item. *)
Theorem run_workflow_records_match
    (isoformat_now : option nat → string) (settings : Settings)
    (gemini_api_key : string) (feeds : list FeedEntry)
    (clock : nat → datetime) (backend : Z → string → outcome)
    (render_post :
       nat → SummaryResult → FeedItem → option (string * string * Z))
    (last_run : datetime) (parsed_feeds : list ParsedFeed)
    (skip_time_filter : bool) (document : Exported.Document) :
  let run :=
    run_workflow isoformat_now settings gemini_api_key feeds clock backend
      render_post last_run parsed_feeds skip_time_filter in
  NoDup (id <$> fetched_items parsed_feeds) →
  run_exported run = Some document →
  Forall2 (fun post record =>
             ∃ item, item ∈ run_selected_items run
                     ∧ describes item post record)
    (run_posts run) (Exported.posts document).
Proof.
  intros run Hdistinct Hdocument.
  destruct (run_workflow_composition isoformat_now settings gemini_api_key
              feeds clock backend render_post last_run parsed_feeds
              skip_time_filter)
    as (Hnew & Hselected & Hsummaries & Hposts & _ & Hexported).
  fold run in Hnew, Hselected, Hsummaries, Hposts, Hexported.
  assert (Hfetched : ∀ item, item ∈ run_selected_items run →
                       item ∈ fetched_items parsed_feeds).
  { intros item Hitem. rewrite Hselected in Hitem.
    apply select_top_items_elem_of in Hitem as [Hin _].
    rewrite Hnew in Hin.
    case_bool_decide; [by apply elem_of_nil in Hin|].
    destruct skip_time_filter; [done|].
    by apply list_elem_of_filter in Hin as [_ Hin]. }
  assert (Hfinds : ∀ item, item ∈ run_selected_items run →
                     item_of (run_selected_items run) (id item) = Some item).
  { intros item Hitem. apply item_of_unique; [|done].
    intros x Hx Hid.
    apply (distinct_ids_inj (fetched_items parsed_feeds)); auto. }
  destruct (batch_call_answers settings backend (run_selected_items run) 3)
    as (answered & Hanswered & Hanswers).
  unfold summarize_items in Hsummaries. rewrite <- Hsummaries in Hanswers.
  simpl in Hanswers.
  destruct (created_posts_made render_post (run_summaries run)
              (run_selected_items run)) as [Hsub Hmade].
  rewrite <- Hposts in Hsub, Hmade.
  assert (Hwritten : Forall (fun post =>
                       ∃ item, item ∈ run_selected_items run
                               ∧ answers item (Post.summary post))
                       (run_posts run)).
  { apply Forall_forall. intros post Hpost.
    assert (Hsummary : Post.summary post ∈ run_summaries run).
    { eapply sublist_subseteq; [exact Hsub|].
      apply list_elem_of_fmap. by exists post. }
    apply list_elem_of_lookup in Hsummary as [i Hi].
    destruct (Forall2_lookup_r _ _ _ _ _ Hanswers Hi) as (item & Hitem & Hans).
    exists item. split; [|done].
    eapply sublist_subseteq; [exact Hanswered|].
    by eapply list_elem_of_lookup_2. }
  rewrite Hexported in Hdocument.
  case_bool_decide; [done|]. injection Hdocument as <-.
  pose proof (export_records isoformat_now (run_posts run)
                (run_selected_items run)) as Hrecords.
  rewrite filter_all in Hrecords.
  2:{ eapply Forall_impl; [exact Hmade|]. intros post Hpost.
      by destruct (made_from_id _ _ _ Hpost). }
  assert (Hboth := proj2 (Forall_and _ _) (conj Hwritten Hmade)).
  pose proof (Forall2_with_left _ _ _ _ Hrecords Hboth) as Hall.
  eapply Forall2_impl; [exact Hall|]. cbv beta.
  intros post record [[(item & Hitem & Hans) Hpost] Hrecord].
  exists item. split; [done|].
  destruct (made_from_id _ _ _ Hpost) as [Hid _].
  destruct Hrecord as (found & Hfound & Hrecord).
  destruct Hans as [Hsame Hrest].
  rewrite Hid, Hsame, (Hfinds item Hitem) in Hfound. injection Hfound as <-.
  unfold describes, answers. intuition.
Qed.

(** Two feeds answered, a third one down: one record for each of the two
    items. *)
Lemma run_workflow_records_match_witness :
  let run :=
    run_workflow (fun _ => "2024-01-01T00:00:00") default_settings "key" []
      (fun _ => 0) (always (Some (JArr [good_entry; good_entry])))
      fixed_renderer 0 sample_feeds true in
  ∃ document,
    run_exported run = Some document
    ∧ Forall2 (fun post record =>
                 ∃ item, item ∈ run_selected_items run
                         ∧ describes item post record)
        (run_posts run) (Exported.posts document).
Proof.
  intros run.
  destruct (run_exported run) as [document|] eqn:Hrun;
    [|by vm_compute in Hrun].
  exists document. split; [reflexivity|].
  assert (Hdistinct : NoDup (id <$> fetched_items sample_feeds)).
  { change (id <$> fetched_items sample_feeds) with ["a1"; "b1"].
    apply NoDup_cons. split; [|apply NoDup_singleton].
    intros Hin%list_elem_of_singleton. discriminate Hin. }
  exact (run_workflow_records_match (fun _ => "2024-01-01T00:00:00")
           default_settings "key" [] (fun _ => 0)
           (always (Some (JArr [good_entry; good_entry]))) fixed_renderer 0
           sample_feeds true document Hdistinct Hrun).
Defined.

(** The run of the witness, evaluated: the records carry the links and the
    categories of their items. *)
Lemma sample_run_records :
  fmap (M:=option)
    (fun document =>
       (fun record =>
          (Exported.original_url record, Exported.category record))
         <$> Exported.posts document)
    (run_exported (sample_run sample_feeds))
  = Some [("https://example.org/a1", "tech");
          ("https://example.org/b1", "world")].
Proof. vm_compute. reflexivity. Qed.

(** Without distinct identifiers a record can describe another item than
    the one its summary was written for: of an article fetched from two
    feeds, both records have the category of the second item. *)
Lemma duplicate_identifier_records :
  category <$> run_selected_items (sample_run twice_fetched_feeds)
  = ["tech"; "world"]
  ∧ fmap (M:=option)
      (fun document => Exported.category <$> Exported.posts document)
      (run_exported (sample_run twice_fetched_feeds))
    = Some ["world"; "world"].
Proof. split; vm_compute; reflexivity. Qed.

(** ** Batches read from a response text *)

Section TextBatches.

Local Arguments clean_str : simpl never.
Local Arguments _format_caption_paragraphs : simpl never.
Local Arguments Py.len : simpl never.
Local Arguments Py.slice_to : simpl never.
Local Arguments clean_tag : simpl never.
Local Arguments caption_policy : simpl never.
Local Arguments normalize_hashtags : simpl never.
Local Arguments Z.ltb : simpl never.
Local Arguments Z.leb : simpl never.

(** An accepted caption is a text; a caption is rejected exactly when it has
    fewer than 1200 characters. *)
Lemma caption_policy_cases (s : string) :
  (Py.len s < 1200 ∧ caption_policy (JStr s) = Some None)
  ∨ (1200 ≤ Py.len s
     ∧ ∃ kept, caption_policy (JStr s) = Some (Some (JStr kept))).
Proof.
  unfold caption_policy. cbn [Dyn.len Dyn.slice_to Dyn.rfind mbind option_bind].
  destruct (Z.ltb_spec 1400 (Py.len s)) as [Hlong|Hfits].
  - right. split; [lia|]. destruct (_ <? _); by eexists.
  - destruct (Z.ltb_spec (Py.len s) 1200) as [Hshort|Hok].
    + by left.
    + right. split; [done|]. by eexists.
Qed.

Lemma texts_as_str (tags : list json) :
  forallb is_text tags = true → ∃ texts, mapM Dyn.as_str tags = Some texts.
Proof.
  induction tags as [|h tags IH]; simpl; [eauto|].
  intros [Hh Htags]%andb_true_iff. destruct (IH Htags) as [texts ->].
  destruct h; try done. simpl. eauto.
Qed.

Lemma split_tags_texts (s : string) : forallb is_text (split_tags s) = true.
Proof.
  unfold split_tags. induction (Py.split "," s) as [|h l IH]; [done|].
  rewrite fmap_cons. simpl. exact IH.
Qed.

(** Hashtags of the type of the schema never make the parser raise. *)
Lemma normalize_hashtags_total (fields : list (string * json)) :
  match Dyn.assoc "hashtags" fields with
  | None => true
  | Some (JStr _) => true
  | Some (JArr tags) => forallb is_text tags
  | Some _ => false
  end = true →
  ∃ hashtags,
    normalize_hashtags
      (from_option (fun v => v) (JArr []) (Dyn.assoc "hashtags" fields))
    = Some hashtags.
Proof.
  unfold normalize_hashtags.
  destruct (Dyn.assoc "hashtags" fields) as [[| | | |s|tags|]|]; try done;
    cbn [from_option Dyn.iter mbind option_bind].
  - intros _. destruct (texts_as_str _ (split_tags_texts s)) as [texts ->].
    simpl. eauto.
  - intros [texts ->]%texts_as_str. simpl. eauto.
  - intros _. simpl. eauto.
Qed.

Lemma get_text_or_absent key fields default :
  text_or_absent key fields = true →
  ∃ text,
    from_option (fun v => v) (JStr default) (Dyn.assoc key fields) = JStr text
    ∧ (Dyn.assoc key fields = Some (JStr text)
       ∨ Dyn.assoc key fields = None ∧ text = default).
Proof.
  unfold text_or_absent.
  destruct (Dyn.assoc key fields) as [[| | | |text| |]|]; try done; intros _.
  - exists text. by split; [|left].
  - exists default. by split; [|right].
Qed.

(** An object whose fields have the types of the schema is dropped when its
    caption is too short and yields a summary otherwise: it never makes the
    parser raise. *)
Lemma parse_entry_texts_only data original_title feed_item_id :
  texts_only data = true →
  (caption_too_short data = true
   ∧ parse_entry data original_title feed_item_id = Some None)
  ∨ (caption_too_short data = false
     ∧ ∃ summary,
         parse_entry data original_title feed_item_id = Some (Some summary)).
Proof.
  unfold texts_only, caption_too_short, caption_of.
  destruct data as [| | | | | |fields]; try done.
  rewrite !andb_true_iff. intros ((((Ht & Hd) & Hc) & Hs) & Hh).
  destruct (get_text_or_absent _ _ "" Ht) as (t & Htitle & _).
  destruct (get_text_or_absent _ _ "" Hd) as (d & Hdescription & _).
  destruct (get_text_or_absent _ _ "" Hc) as (c & Hcaption & Hsent).
  destruct (get_text_or_absent _ _ "Unknown" Hs) as (s & Hsource & _).
  destruct (normalize_hashtags_total fields Hh) as [hashtags Hhashtags].
  assert (Hsame : match Dyn.assoc "caption" fields with
                  | Some (JStr caption) => caption
                  | _ => EmptyString
                  end = c).
  { by destruct Hsent as [->|[-> ->]]. }
  rewrite Hsame. unfold parse_entry, Dyn.get.
  cbn [mbind option_bind]. rewrite Htitle, Hdescription, Hcaption, Hsource.
  rewrite !clean_text_str. cbn [mbind option_bind Dyn.len Dyn.slice_to].
  assert (Htitle_ok :
            ∃ title,
              (if Py.len original_title <=? 65
               then Some (JStr (Py.slice_to 65 original_title))
               else Some (JStr (Py.slice_to 65 (cleaned t))))
              = Some (JStr title)).
  { destruct (_ <=? _); by eexists. }
  destruct Htitle_ok as [title ->]. cbn [mbind option_bind].
  destruct (caption_policy_cases (cleaned c)) as [[Hshort ->]|[Hok [kept ->]]].
  - left. split; [by apply Z.ltb_lt|done].
  - right. split; [by apply Z.ltb_ge|].
    cbn [mbind option_bind Dyn.as_str]. rewrite Hhashtags.
    cbn [mbind option_bind]. unfold make_summary.
    cbn [mbind option_bind Dyn.as_str]. by eexists.
Qed.

(** The loop over objects of the types of the schema: the summaries of the
    items whose caption is not too short are appended, and they answer
    these items. *)
Lemma parse_entries_texts_only pairs : ∀ results,
  forallb (fun p : json * FeedItem => texts_only p.1) pairs = true →
  ∃ added,
    parse_entries pairs results = Some (results ++ added)
    ∧ Forall2 answers (kept_items pairs) added.
Proof.
  unfold kept_items.
  induction pairs as [|[data item] rest IH]; intros results; simpl.
  - exists []. by rewrite app_nil_r.
  - intros [Hhead Hrest]%andb_true_iff.
    destruct (parse_entry_texts_only data (title item) (id item) Hhead)
      as [[Hshort ->]|[Hkept [summary Hsummary]]].
    + rewrite filter_cons_False by (simpl; by rewrite Hshort).
      simpl. destruct (IH results Hrest) as (added & -> & Hall).
      by exists added.
    + rewrite filter_cons_True by done. rewrite Hsummary. simpl.
      destruct (IH (results ++ [summary]) Hrest) as (added & -> & Hall).
      exists (summary :: added). rewrite <- app_assoc. split; [done|].
      constructor; [|done]. by apply (parse_entry_answers data).
Qed.

Lemma in_policy_texts_only data :
  in_policy data = true →
  texts_only data = true ∧ caption_too_short data = false.
Proof.
  unfold in_policy, in_policy_with, texts_only, caption_too_short, caption_of,
    text_or_absent.
  destruct data as [| | | | |elements|fields]; try done.
  destruct (Dyn.assoc "title" fields) as [[| | | |t| |]|]; try done.
  destruct (Dyn.assoc "description" fields) as [[| | | |d| |]|]; try done.
  destruct (Dyn.assoc "caption" fields) as [[| | | |c| |]|]; try done.
  destruct (Dyn.assoc "hashtags" fields) as [[| | | | |tags|]|]; try done.
  destruct (Dyn.assoc "source" fields) as [[| | | |s| |]|]; try done.
  rewrite !andb_true_iff.
  intros (((((((_ & _) & _) & Hlo) & _) & _) & Htags) & _).
  split.
  - repeat split; try done. rewrite forallb_forall in *. intros h Hh.
    specialize (Htags h Hh). by destruct h.
  - apply Z.leb_le in Hlo. apply Z.ltb_ge. by rewrite cleaned_len.
Qed.

Lemma kept_items_all (data : list json) : ∀ items : list FeedItem,
  forallb (fun d => negb (caption_too_short d)) data = true →
  length data = length items →
  kept_items (zip data items) = items.
Proof.
  unfold kept_items.
  induction data as [|d data IH]; intros [|item items]; simpl; try done.
  intros [Hd Hdata]%andb_true_iff Hlen. apply negb_true_iff in Hd.
  rewrite filter_cons_True by done. rewrite fmap_cons. simpl.
  f_equal. apply IH; [done|lia].
Qed.

Lemma mapM_fmap {A B C} (f : B → option C) (g : A → B) (l : list A) :
  mapM f (g <$> l) = mapM (f ∘ g) l.
Proof.
  induction l as [|x l IH]; [done|].
  rewrite fmap_cons. simpl. by rewrite IH.
Qed.

(** The loop over [zip(data_array, items)] handles the pairs position by
    position. *)
Lemma parse_entries_by_position (data_array : list json) :
  ∀ (items : list FeedItem) results,
    parse_entries (zip data_array items) results
    = (outcomes ← mapM (outcome_at data_array items)
                     (seq 0 (length data_array `min` length items));
       Some (results ++ omap (fun outcome => outcome) outcomes)).
Proof.
  induction data_array as [|data rest IH]; intros [|item items] results;
    simpl; rewrite ?app_nil_r; try done.
  rewrite <- fmap_S_seq, mapM_fmap.
  rewrite (mapM_ext _ (outcome_at rest items)) by (intros i; reflexivity).
  change (outcome_at (data :: rest) (item :: items) 0)
    with (parse_entry data (title item) (id item)).
  destruct (parse_entry data (title item) (id item)) as [[summary|]|];
    simpl; [| |done].
  - rewrite IH. destruct (mapM _ _); simpl; [|done].
    by rewrite <- app_assoc.
  - rewrite IH. by destruct (mapM _ _).
Qed.

End TextBatches.

Section TextClaims.

Lemma answers_ids (items : list FeedItem) (results : list SummaryResult) :
  Forall2 answers items results →
  Summary.feed_item_id <$> results = id <$> items.
Proof.
  induction 1 as [|item summary items results [Hid _] _ IH]; [done|].
  by rewrite !fmap_cons, Hid, IH.
Qed.

Lemma batch_text_length loads response_text items :
  (length (default [] (_parse_batch_response_text loads response_text items))
   ≤ length items)%nat.
Proof. apply batch_response_length. Qed.

End TextClaims.

(** C5, as amended.  When the array text of a response (the bracketed text
    of its first code fence, or else the text from its first opening to its
    last closing bracket) is read by [json.loads] as N objects whose fields
    are all in policy, the caption being between 1200 and 1400 characters
    after text cleanup, the batch parser returns N summaries in input order,
    the i-th answering the i-th item. *)
Theorem batch_round_trip
    (loads : string → option json) (response_text : string)
    (data_array : list json) (items : list FeedItem) :
  decode_array loads response_text = Some (JArr data_array) →
  length data_array = length items →
  forallb in_policy data_array = true →
  ∃ results,
    _parse_batch_response_text loads response_text items = Some results
    ∧ length results = length items
    ∧ Summary.feed_item_id <$> results = id <$> items
    ∧ Forall2 answers items results.
Proof.
  intros Hdecode Hlen Hpolicy.
  unfold _parse_batch_response_text. rewrite Hdecode. simpl.
  destruct (parse_entries_texts_only (zip data_array items) [])
    as (results & -> & Hanswers).
  { apply (forallb_zip_fst texts_only).
    rewrite forallb_forall in *. intros d Hd.
    by destruct (in_policy_texts_only d (Hpolicy d Hd)). }
  rewrite kept_items_all in Hanswers; [|
    rewrite forallb_forall in *; intros d Hd;
    destruct (in_policy_texts_only d (Hpolicy d Hd)) as [_ ->]; done|done].
  exists results. split; [done|].
  split; [symmetry; by eapply Forall2_length|].
  split; [by apply answers_ids|done].
Qed.

(** A response of two in-policy objects for two items. *)
Lemma batch_round_trip_witness :
  ∃ results,
    _parse_batch_response_text (reads [(good_batch_text, good_batch)])
      good_batch_text [pictured "a1" "tech"; pictured "b1" "world"]
    = Some results
    ∧ length results = 2%nat
    ∧ Summary.feed_item_id <$> results = ["a1"; "b1"]
    ∧ Forall2 answers [pictured "a1" "tech"; pictured "b1" "world"] results.
Proof.
  apply (batch_round_trip (reads [(good_batch_text, good_batch)])
           good_batch_text [good_entry; good_entry]
           [pictured "a1" "tech"; pictured "b1" "world"]).
  - vm_compute. reflexivity.
  - reflexivity.
  - vm_compute. reflexivity.
Defined.

(** C5, as stated, fails twice over.  Every field of [paragraph_entry] is in
    policy as the backend sent it, its caption being four paragraphs of 1202
    characters in all, and the parser returns no summary for it, the blank
    lines having been collapsed before the caption is measured.  And the
    response [fenced_text] is an array of one in-policy object, whose
    caption quotes a fenced array: the parser hands that quoted array to
    [json.loads], not the response, and returns nothing. *)
Lemma well_formed_responses_lose_items :
  (in_policy_as_sent paragraph_entry = true
   ∧ Py.len four_paragraphs = 1202
   ∧ Py.len (clean_str four_paragraphs) = 1199
   ∧ _parse_batch_response (Some (JArr [paragraph_entry]))
       [pictured "a1" "tech"] = Some [])
  ∧ (in_policy_as_sent fenced_entry = true
     ∧ in_policy fenced_entry = true
     ∧ extract_array_text fenced_text = Some "[1, 2]"
     ∧ _parse_batch_response_text
         (reads [(fenced_text, JArr [fenced_entry]);
                 ("[1, 2]", JArr [JInt 1; JInt 2])])
         fenced_text [pictured "a1" "tech"] = None).
Proof. repeat split; vm_compute; reflexivity. Qed.

(** C6, as amended.  When the array of a response holds only objects whose
    fields, where present, have the types of the schema, the batch parser
    returns a list of summaries: one for every item paired with an object
    whose cleaned caption has at least 1200 characters, in order, each
    answering its item, and none for the items whose caption is shorter. *)
Theorem thin_caption_dropped_alone
    (loads : string → option json) (response_text : string)
    (data_array : list json) (items : list FeedItem) :
  decode_array loads response_text = Some (JArr data_array) →
  forallb texts_only data_array = true →
  ∃ results,
    _parse_batch_response_text loads response_text items = Some results
    ∧ Forall2 answers (kept_items (zip data_array items)) results.
Proof.
  intros Hdecode Htexts.
  unfold _parse_batch_response_text. rewrite Hdecode. simpl.
  destruct (parse_entries_texts_only (zip data_array items) [])
    as (results & -> & Hanswers).
  { by apply (forallb_zip_fst texts_only). }
  by exists results.
Qed.

(** A caption of 1199 characters between one of 1300 and one of 1500: the
    first and the third item get their summary. *)
Lemma thin_caption_dropped_alone_witness :
  ∃ results,
    _parse_batch_response_text (reads [(mixed_batch_text, mixed_batch)])
      mixed_batch_text
      [pictured "a1" "tech"; pictured "a2" "tech"; pictured "b1" "world"]
    = Some results
    ∧ Forall2 answers [pictured "a1" "tech"; pictured "b1" "world"] results.
Proof.
  apply (thin_caption_dropped_alone (reads [(mixed_batch_text, mixed_batch)])
           mixed_batch_text [good_entry; thin_entry; long_entry]
           [pictured "a1" "tech"; pictured "a2" "tech"; pictured "b1" "world"]).
  - vm_compute. reflexivity.
  - vm_compute. reflexivity.
Defined.

(** An object with nothing but a short caption is dropped alone as well. *)
Lemma bare_object_dropped_alone :
  fmap (M:=option) (fmap (M:=list) Summary.feed_item_id)
    (_parse_batch_response (Some (JArr [good_entry; bare_entry; long_entry]))
       [pictured "a1" "tech"; pictured "a2" "tech"; pictured "b1" "world"])
  = Some ["a1"; "b1"].
Proof. vm_compute. reflexivity. Qed.

(** C6, as stated, fails: the caption of the second object has 1199
    characters, the first and the third object are in policy, and the
    parser returns nothing at all, the null description of the second
    object having raised before its caption was measured. *)
Lemma null_description_loses_batch :
  in_policy good_entry = true
  ∧ caption_too_short thin_null_entry = true
  ∧ _parse_batch_response
      (Some (JArr [good_entry; thin_null_entry; good_entry]))
      [pictured "a1" "tech"; pictured "a2" "tech"; pictured "b1" "world"]
    = None.
Proof. repeat split; vm_compute; reflexivity. Qed.

(** C10.  The batch parser returns at most as many summaries as there are
    items, whatever the response.  It pairs the objects of the array with
    the items by position: its result is that of handling, for every
    position below the length of the shorter list, the object and the item
    at that position, in order.  Objects beyond the last item and items
    beyond the last object have no effect on the result, and neither
    raises. *)
Theorem batch_pairs_by_position
    (loads : string → option json) (response_text : string)
    (decoded : option json) (data_array : list json) (items : list FeedItem) :
  (length (default [] (_parse_batch_response_text loads response_text items))
   ≤ length items)%nat
  ∧ (length (default [] (_parse_batch_response decoded items))
     ≤ length items)%nat
  ∧ _parse_batch_response (Some (JArr data_array)) items
    = paired_by_position data_array items
  ∧ (decode_array loads response_text = Some (JArr data_array) →
     _parse_batch_response_text loads response_text items
     = paired_by_position data_array items)
  ∧ (length (default [] (_parse_batch_response (Some (JArr data_array)) items))
     ≤ length data_array)%nat
  ∧ _parse_batch_response (Some (JArr data_array)) items
    = _parse_batch_response
        (Some (JArr (take (length items) data_array)))
        (take (length data_array) items)
  ∧ (∀ extra_objects,
       length data_array = length items →
       _parse_batch_response (Some (JArr (data_array ++ extra_objects))) items
       = _parse_batch_response (Some (JArr data_array)) items)
  ∧ (∀ extra_items,
       length data_array = length items →
       _parse_batch_response (Some (JArr data_array)) (items ++ extra_items)
       = _parse_batch_response (Some (JArr data_array)) items).
Proof.
  assert (Hposition : ∀ data (its : list FeedItem),
            _parse_batch_response (Some (JArr data)) its
            = paired_by_position data its).
  { intros data its. unfold paired_by_position. simpl.
    rewrite parse_entries_by_position. by destruct (mapM _ _). }
  split; [apply batch_text_length|].
  split; [apply batch_response_length|].
  split; [apply Hposition|].
  split.
  { intros Hdecode. unfold _parse_batch_response_text. rewrite Hdecode.
    apply Hposition. }
  split.
  { simpl.
    destruct (parse_entries (zip data_array items) []) as [summaries|] eqn:Hparse;
      simpl; [|lia].
    apply parse_entries_length in Hparse. simpl in Hparse.
    rewrite length_zip in Hparse. lia. }
  split.
  { simpl. by rewrite <- zip_take_both. }
  split.
  - intros extra Hlen. simpl. f_equal.
    rewrite (zip_take_both (data_array ++ extra)), (zip_take_both data_array).
    rewrite <- Hlen, take_app_length.
    by rewrite !take_ge by (rewrite ?length_app; lia).
  - intros extra Hlen. simpl. f_equal.
    rewrite (zip_take_both data_array (items ++ extra)),
      (zip_take_both data_array items).
    rewrite Hlen, take_app_length.
    by rewrite !take_ge by (rewrite ?length_app; lia).
Qed.

(** Three objects for two items, and two objects for three items: the
    third object, and the third item, play no part. *)
Lemma surplus_plays_no_part :
  fmap (M:=option) (fmap (M:=list) Summary.feed_item_id)
    (_parse_batch_response (Some (JArr [good_entry; long_entry; JInt 5]))
       [pictured "a1" "tech"; pictured "b1" "world"])
  = Some ["a1"; "b1"]
  ∧ fmap (M:=option) (fmap (M:=list) Summary.feed_item_id)
      (_parse_batch_response (Some (JArr [thin_entry; good_entry]))
         [pictured "a1" "tech"; pictured "a2" "tech"; pictured "b1" "world"])
    = Some ["a2"].
Proof. split; vm_compute; reflexivity. Qed.
